(** * WinPassword: the encrypted record store and its replication layer

    A shallow embedding of the Python sources
    [utils/auth.py] (class [Encryption]), [utils/config.py] (class [Config]),
    [utils/cloud_sync.py] (class [CloudSyncManager]) and
    [database/password_db.py] (class [PasswordDatabase]).

    Conventions.
    - A Python [str] is the list of its code points, a [bytes] value the list
      of its octets; both are lists of [Z].
    - Methods run in a state-and-exception monad [M] over one [State] that
      holds the file system, the clock, the entropy source and the three
      objects ([Config], [CloudSyncManager], [PasswordDatabase]).
    - Library calls whose code is not part of the repository (PBKDF2, Fernet,
      [json], [datetime], [os.path]) are the fields of a record [Lib]; a
      method that calls one takes the record as its first argument.  What a
      proof needs of them is stated as a named law and appears as a
      hypothesis of the theorem.
    - [last_error_message] and the printed diagnostics carry text for the
      user only and are left out. *)

From Stdlib Require Import ZArith List Lia Ascii String Bool.
From stdpp Require Import base option gmap strings list sorting.

Local Open Scope Z_scope.

(** ** Text and octets *)

Abbreviation str := (list Z).
Abbreviation bytes := (list Z).

Definition is_surrogate (c : Z) : bool := (0xD800 <=? c) && (c <=? 0xDFFF).
(** A code point that [str.encode()] accepts: a Unicode scalar value. *)
Definition is_scalar (c : Z) : bool :=
  (0 <=? c) && (c <? 0x110000) && negb (is_surrogate c).

Module Codec.

(** [str.encode()]: UTF-8, error handler [strict]; [None] stands for
    [UnicodeEncodeError] (a lone surrogate). *)
Definition utf8_encode_char (c : Z) : option bytes :=
  if c <? 0 then None
  else if c <? 0x80 then Some [c]
  else if c <? 0x800 then Some [0xC0 + c / 64; 0x80 + c mod 64]
  else if c <? 0x10000 then
    if is_surrogate c then None
    else Some [0xE0 + c / 4096; 0x80 + (c / 64) mod 64; 0x80 + c mod 64]
  else if c <? 0x110000 then
    Some [0xF0 + c / 262144; 0x80 + (c / 4096) mod 64;
          0x80 + (c / 64) mod 64; 0x80 + c mod 64]
  else None.

Fixpoint utf8_encode (s : str) : option bytes :=
  match s with
  | [] => Some []
  | c :: s' =>
      match utf8_encode_char c, utf8_encode s' with
      | Some b, Some bs => Some (b ++ bs)
      | _, _ => None
      end
  end.

Definition is_cont (b : Z) : bool := (0x80 <=? b) && (b <=? 0xBF).

(** [bytes.decode()]: UTF-8, error handler [strict]; [None] stands for
    [UnicodeDecodeError] (truncated, overlong, surrogate or out-of-range
    sequences and stray continuation octets). *)
Fixpoint utf8_decode (bs : bytes) : option str :=
  match bs with
  | [] => Some []
  | b0 :: r0 =>
      if (0 <=? b0) && (b0 <? 0x80) then cons b0 <$> utf8_decode r0
      else if (0xC2 <=? b0) && (b0 <=? 0xDF) then
        match r0 with
        | b1 :: r1 =>
            if is_cont b1
            then cons ((b0 - 0xC0) * 64 + (b1 - 0x80)) <$> utf8_decode r1
            else None
        | _ => None
        end
      else if (0xE0 <=? b0) && (b0 <=? 0xEF) then
        match r0 with
        | b1 :: b2 :: r2 =>
            let c := (b0 - 0xE0) * 4096 + (b1 - 0x80) * 64 + (b2 - 0x80) in
            if is_cont b1 && is_cont b2 && (0x800 <=? c) && negb (is_surrogate c)
            then cons c <$> utf8_decode r2
            else None
        | _ => None
        end
      else if (0xF0 <=? b0) && (b0 <=? 0xF4) then
        match r0 with
        | b1 :: b2 :: b3 :: r3 =>
            let c := (b0 - 0xF0) * 262144 + (b1 - 0x80) * 4096
                     + (b2 - 0x80) * 64 + (b3 - 0x80) in
            if is_cont b1 && is_cont b2 && is_cont b3
               && (0x10000 <=? c) && (c <? 0x110000)
            then cons c <$> utf8_decode r3
            else None
        | _ => None
        end
      else None
  end.

(** A source-code string literal: the text whose UTF-8 form is written
    between the quotes. *)
Definition lit (s : string) : str :=
  default []
    (utf8_decode (map (fun a => Z.of_N (N_of_ascii a)) (list_ascii_of_string s))).
Arguments lit : simpl never.

(** [base64.urlsafe_b64encode]: alphabet [A-Z a-z 0-9 - _], padding [=]. *)
Definition b64_char (n : Z) : Z :=
  if n <? 26 then 65 + n
  else if n <? 52 then 97 + (n - 26)
  else if n <? 62 then 48 + (n - 52)
  else if n =? 62 then 45
  else 95.

Fixpoint urlsafe_b64encode (bs : bytes) : bytes :=
  match bs with
  | [] => []
  | [a] => [b64_char (a / 4); b64_char (a mod 4 * 16); 61; 61]
  | [a; b] =>
      [b64_char (a / 4); b64_char (a mod 4 * 16 + b / 16);
       b64_char (b mod 16 * 4); 61]
  | a :: b :: c :: r =>
      b64_char (a / 4) :: b64_char (a mod 4 * 16 + b / 16)
      :: b64_char (b mod 16 * 4 + c / 64) :: b64_char (c mod 64)
      :: urlsafe_b64encode r
  end.

(** [str.isspace] on one character (CPython's [_PyUnicode_IsWhitespace]). *)
Definition isspace (c : Z) : bool :=
  ((0x09 <=? c) && (c <=? 0x0D)) || ((0x1C <=? c) && (c <=? 0x20))
  || (c =? 0x85) || (c =? 0xA0) || (c =? 0x1680)
  || ((0x2000 <=? c) && (c <=? 0x200A))
  || (c =? 0x2028) || (c =? 0x2029) || (c =? 0x202F) || (c =? 0x205F)
  || (c =? 0x3000).

Fixpoint lstrip (s : str) : str :=
  match s with
  | c :: s' => if isspace c then lstrip s' else s
  | [] => []
  end.

(** [str.strip()] with no argument. *)
Definition strip (s : str) : str := rev (lstrip (rev (lstrip s))).

End Codec.

(** ** Data model *)

(** One element of [data["passwords"]]: a dict with text values. *)
Abbreviation entry := (gmap string (list Z)).

(** [self.data] of a [PasswordDatabase]. *)
Record vault := {
  categories : list str;
  passwords : list entry;
  last_modified : option str;
  version : str;
  totp_secret : option str;
  username : str }.

(** The value of [datetime.fromisoformat]: the wall-clock instant in
    microseconds and, for an aware value, its offset from UTC. *)
Record datetime := { dt_micros : Z; dt_utcoffset : option Z }.

Inductive exn :=
  | FileNotFoundError | FileExistsError | PermissionError | IsADirectoryError
  | OSError | KeyError | TypeError | ValueError
  | UnicodeEncodeError | UnicodeDecodeError | JSONDecodeError | InvalidToken.

Inductive outcome (A : Type) :=
  | Ret (a : A)
  | Raise (e : exn).
Arguments Ret {A} a.
Arguments Raise {A} e.

(** [a > b] on two [datetime] values; comparing a naive with an aware value
    raises [TypeError]. *)
Definition datetime_gt (a b : datetime) : outcome bool :=
  match dt_utcoffset a, dt_utcoffset b with
  | None, None => Ret (dt_micros b <? dt_micros a)
  | Some oa, Some ob => Ret (dt_micros b - ob <? dt_micros a - oa)
  | _, _ => Raise TypeError
  end.

(** The ["cloud_storage"] group of the configuration. *)
Record CloudStorage := {
  enabled : bool;
  storage_type : str;                 (* key "type" *)
  sync_on_save : bool;
  sync_on_open : bool;
  auto_sync_interval : Z;
  conflict_resolution : str;
  local_cache_path : str;
  remote_path : str;
  network_drive_path : str;
  last_sync_time : option str;
  sync_enabled : bool }.

(** A [Config] object: the keys of [self.config] that the store and the
    replication engine read, and the two paths fixed by [__init__]. *)
Record ConfigState := {
  database_path : str;
  backup_enabled : bool;
  backup_count : Z;
  backup_path : str;
  cloud_storage : CloudStorage;
  config_dir : str;
  config_file : str }.

(** A [CloudSyncManager] object.  [auto_sync_timer] records that a
    [threading.Timer] is scheduled; the lock is not modelled, the methods
    below run to completion one after the other. *)
Record SyncState := {
  is_syncing : bool;
  auto_sync_timer : bool }.

Inductive error_code :=
  | FILE_NOT_FOUND | DATA_CORRUPTED | INVALID_KEY | PERMISSION_DENIED
  | UNKNOWN_ERROR.

(** A [PasswordDatabase] object.  [create] stores the list object
    [self.default_categories] itself under [data["categories"]]: while
    [categories_shared] is set the category list of the vault IS
    [default_categories] and the field [categories data] is not read. *)
Record DbState := {
  db_path : option str;
  key : option bytes;
  salt : option bytes;
  data : vault;
  categories_shared : bool;
  default_categories : list str;
  last_error : option error_code }.

Inductive syscall :=
  | SysRead (p : str)
  | SysOpenW (p : str)
  | SysWrite (p : str)
  | SysMakedirs (p : str)
  | SysCopy (src dst : str)
  | SysRemove (p : str)
  | SysRename (src dst : str)
  | SysListdir (p : str)
  | SysStat (p : str)
  | SysAccess (p : str).

Record file := { content : bytes; mtime : Z }.

(** Everything a method can read or change.  [faults] says which operating
    system calls fail for an external reason (permissions, a full disk, a
    drive that went away) and with which exception. *)
Record State := {
  files : gmap (list Z) file;
  dirs : gmap (list Z) Z;
  faults : syscall -> option exn;
  clock : Z;
  urandom_source : nat -> Z;
  urandom_pos : nat;
  config : ConfigState;
  cloud_sync : SyncState;
  db : DbState }.

(** The library functions the sources call. *)
Record Lib := {
  (* PBKDF2HMAC(SHA256, length=32, salt, iterations=100000).derive(password) *)
  pbkdf2_hmac_sha256 : bytes -> bytes -> bytes;
  (* Fernet(key) accepts the key *)
  fernet_key_ok : bytes -> bool;
  (* Fernet(key).encrypt(data), given the IV and the time it draws *)
  fernet_encrypt : bytes -> bytes -> Z -> bytes -> bytes;
  (* Fernet(key).decrypt(token); None is InvalidToken *)
  fernet_decrypt : bytes -> bytes -> option bytes;
  (* json.dumps(data, ensure_ascii=False) and json.loads *)
  json_dumps : vault -> str;
  json_loads : str -> option vault;
  (* json.dump(self.config, f, indent=4, ensure_ascii=False), encoded *)
  config_dumps : ConfigState -> bytes;
  (* datetime at a clock value: isoformat(), strftime("%Y%m%d_%H%M%S") *)
  isoformat : Z -> str;
  strftime_compact : Z -> str;
  fromisoformat : str -> option datetime;
  (* os.path *)
  path_join : str -> str -> str;
  basename : str -> str;
  dirname : str -> str;
  abspath : str -> str;
  normpath : str -> str;
  splitext_root : str -> str;
  expanduser : str -> str;
  (* os.rename over an existing file: allowed (POSIX) or not (Windows) *)
  rename_replaces : bool }.

(** ** The monad of methods *)

Definition M (A : Type) : Type := State -> State * outcome A.

Definition ret {A} (a : A) : M A := fun st => (st, Ret a).
Definition raise {A} (e : exn) : M A := fun st => (st, Raise e).
Definition bind {A B} (m : M A) (k : A -> M B) : M B :=
  fun st =>
    match m st with
    | (st', Ret a) => k a st'
    | (st', Raise e) => (st', Raise e)
    end.

(** [try: m  except Exception as e: h e] *)
Definition try_except {A} (m : M A) (h : exn -> M A) : M A :=
  fun st =>
    match m st with
    | (st', Raise e) => h e st'
    | r => r
    end.

(** [try: m  finally: f] *)
Definition try_finally {A} (m : M A) (f : M unit) : M A :=
  fun st =>
    match m st with
    | (st', r) =>
        match f st' with
        | (st'', Ret _) => (st'', r)
        | (st'', Raise e) => (st'', Raise e)
        end
    end.

Definition gets {A} (f : State -> A) : M A := fun st => (st, Ret (f st)).
Definition modify (f : State -> State) : M unit := fun st => (f st, Ret tt).

Notation "x <- c1 ;; c2" := (bind c1 (fun x => c2))
  (at level 100, c1 at next level, right associativity).
Notation "c1 ;;; c2" := (bind c1 (fun _ => c2))
  (at level 100, right associativity).

Definition when (b : bool) (m : M unit) : M unit := if b then m else ret tt.

(** A value that must not be [None]: using [None] where the code needs a
    string or a key raises [TypeError]. *)
Definition need {A} (o : option A) : M A :=
  match o with Some a => ret a | None => raise TypeError end.

(** *** Field updates *)

Definition upd_files (f : gmap (list Z) file) (st : State) : State :=
  {| files := f; dirs := dirs st; faults := faults st; clock := clock st;
     urandom_source := urandom_source st; urandom_pos := urandom_pos st;
     config := config st; cloud_sync := cloud_sync st; db := db st |}.
Definition upd_dirs (d : gmap (list Z) Z) (st : State) : State :=
  {| files := files st; dirs := d; faults := faults st; clock := clock st;
     urandom_source := urandom_source st; urandom_pos := urandom_pos st;
     config := config st; cloud_sync := cloud_sync st; db := db st |}.
Definition upd_clock (c : Z) (st : State) : State :=
  {| files := files st; dirs := dirs st; faults := faults st; clock := c;
     urandom_source := urandom_source st; urandom_pos := urandom_pos st;
     config := config st; cloud_sync := cloud_sync st; db := db st |}.
Definition upd_urandom_pos (n : nat) (st : State) : State :=
  {| files := files st; dirs := dirs st; faults := faults st; clock := clock st;
     urandom_source := urandom_source st; urandom_pos := n;
     config := config st; cloud_sync := cloud_sync st; db := db st |}.
Definition upd_config (c : ConfigState) (st : State) : State :=
  {| files := files st; dirs := dirs st; faults := faults st; clock := clock st;
     urandom_source := urandom_source st; urandom_pos := urandom_pos st;
     config := c; cloud_sync := cloud_sync st; db := db st |}.
Definition upd_cloud_sync (s : SyncState) (st : State) : State :=
  {| files := files st; dirs := dirs st; faults := faults st; clock := clock st;
     urandom_source := urandom_source st; urandom_pos := urandom_pos st;
     config := config st; cloud_sync := s; db := db st |}.
Definition upd_db (d : DbState) (st : State) : State :=
  {| files := files st; dirs := dirs st; faults := faults st; clock := clock st;
     urandom_source := urandom_source st; urandom_pos := urandom_pos st;
     config := config st; cloud_sync := cloud_sync st; db := d |}.

Definition upd_database_path (p : str) (c : ConfigState) : ConfigState :=
  {| database_path := p; backup_enabled := backup_enabled c;
     backup_count := backup_count c; backup_path := backup_path c;
     cloud_storage := cloud_storage c; config_dir := config_dir c;
     config_file := config_file c |}.
Definition upd_last_sync_time (t : option str) (c : ConfigState) : ConfigState :=
  let cs := cloud_storage c in
  {| database_path := database_path c; backup_enabled := backup_enabled c;
     backup_count := backup_count c; backup_path := backup_path c;
     cloud_storage :=
       {| enabled := enabled cs; storage_type := storage_type cs;
          sync_on_save := sync_on_save cs; sync_on_open := sync_on_open cs;
          auto_sync_interval := auto_sync_interval cs;
          conflict_resolution := conflict_resolution cs;
          local_cache_path := local_cache_path cs;
          remote_path := remote_path cs;
          network_drive_path := network_drive_path cs;
          last_sync_time := t; sync_enabled := sync_enabled cs |};
     config_dir := config_dir c; config_file := config_file c |}.

Definition upd_is_syncing (b : bool) (s : SyncState) : SyncState :=
  {| is_syncing := b; auto_sync_timer := auto_sync_timer s |}.
Definition upd_auto_sync_timer (b : bool) (s : SyncState) : SyncState :=
  {| is_syncing := is_syncing s; auto_sync_timer := b |}.

Definition upd_db_path (p : option str) (d : DbState) : DbState :=
  {| db_path := p; key := key d; salt := salt d; data := data d;
     categories_shared := categories_shared d;
     default_categories := default_categories d; last_error := last_error d |}.
Definition upd_key_salt (k s : option bytes) (d : DbState) : DbState :=
  {| db_path := db_path d; key := k; salt := s; data := data d;
     categories_shared := categories_shared d;
     default_categories := default_categories d; last_error := last_error d |}.
Definition upd_last_error (e : option error_code) (d : DbState) : DbState :=
  {| db_path := db_path d; key := key d; salt := salt d; data := data d;
     categories_shared := categories_shared d;
     default_categories := default_categories d; last_error := e |}.
(** [self.data = v] where [v] is a fresh dict (its lists are its own). *)
Definition upd_data_fresh (v : vault) (d : DbState) : DbState :=
  {| db_path := db_path d; key := key d; salt := salt d; data := v;
     categories_shared := false;
     default_categories := default_categories d; last_error := last_error d |}.
(** [self.data = {"categories": self.default_categories, ...}] *)
Definition upd_data_sharing (v : vault) (d : DbState) : DbState :=
  {| db_path := db_path d; key := key d; salt := salt d; data := v;
     categories_shared := true;
     default_categories := default_categories d; last_error := last_error d |}.

Definition with_categories (l : list str) (v : vault) : vault :=
  {| categories := l; passwords := passwords v;
     last_modified := last_modified v; version := version v;
     totp_secret := totp_secret v; username := username v |}.
Definition with_passwords (l : list entry) (v : vault) : vault :=
  {| categories := categories v; passwords := l;
     last_modified := last_modified v; version := version v;
     totp_secret := totp_secret v; username := username v |}.
Definition with_last_modified (t : option str) (v : vault) : vault :=
  {| categories := categories v; passwords := passwords v;
     last_modified := t; version := version v;
     totp_secret := totp_secret v; username := username v |}.
Definition with_totp (t : option str) (u : str) (v : vault) : vault :=
  {| categories := categories v; passwords := passwords v;
     last_modified := last_modified v; version := version v;
     totp_secret := t; username := u |}.

(** [self.data["categories"]], through the sharing. *)
Definition db_categories (d : DbState) : list str :=
  if categories_shared d then default_categories d else categories (data d).

(** In-place mutation of the list object [self.data["categories"]]. *)
Definition mutate_categories (f : list str -> list str) (d : DbState) : DbState :=
  if categories_shared d then
    {| db_path := db_path d; key := key d; salt := salt d; data := data d;
       categories_shared := true;
       default_categories := f (default_categories d);
       last_error := last_error d |}
  else
    {| db_path := db_path d; key := key d; salt := salt d;
       data := with_categories (f (categories (data d))) (data d);
       categories_shared := false;
       default_categories := default_categories d;
       last_error := last_error d |}.

Definition mutate_data (f : vault -> vault) (d : DbState) : DbState :=
  {| db_path := db_path d; key := key d; salt := salt d; data := f (data d);
     categories_shared := categories_shared d;
     default_categories := default_categories d; last_error := last_error d |}.

(** [self.data] as a reader sees it (what [json.dumps] serializes). *)
Definition db_view (d : DbState) : vault :=
  with_categories (db_categories d) (data d).

Definition truthy (s : str) : bool :=
  match s with [] => false | _ => true end.

(** ** Operating system calls *)

Module Os.

Definition fault (c : syscall) : M unit :=
  fun st =>
    match faults st c with
    | Some e => (st, Raise e)
    | None => (st, Ret tt)
    end.

(** [datetime.now()] and [time.time()]: microseconds, strictly increasing. *)
Definition now : M Z :=
  fun st => (upd_clock (clock st + 1) st, Ret (clock st)).

(** [os.urandom(n)] *)
Definition urandom (n : nat) : M bytes :=
  fun st =>
    (upd_urandom_pos (urandom_pos st + n)%nat st,
     Ret (map (fun i => urandom_source st i mod 256) (seq (urandom_pos st) n))).

Definition is_file (p : str) (st : State) : bool :=
  match files st !! p with Some _ => true | None => false end.
Definition is_dir (p : str) (st : State) : bool :=
  match dirs st !! p with Some _ => true | None => false end.

(** [os.path.exists(p)] *)
Definition path_exists (p : str) : M bool :=
  gets (fun st => is_file p st || is_dir p st).

(** What opening or unlinking a directory as a file raises. *)
Definition directory_error (L : Lib) : exn :=
  if rename_replaces L then IsADirectoryError else PermissionError.

(** [with open(p, "rb") as f: f.read()] *)
Definition read_file (L : Lib) (p : str) : M bytes :=
  fault (SysRead p);;;
  fun st =>
    match files st !! p with
    | Some f => (st, Ret (content f))
    | None =>
        if is_dir p st then (st, Raise (directory_error L))
        else (st, Raise FileNotFoundError)
    end.

(** [open(p, "wb")]: the file is created or truncated. *)
Definition open_wb (L : Lib) (p : str) : M unit :=
  fault (SysOpenW p);;;
  fun st =>
    if is_dir p st then (st, Raise (directory_error L))
    else (upd_files (<[p := {| content := []; mtime := clock st |}]> (files st)) st,
          Ret tt).

(** [f.write(c)] on the file opened at [p], and its close. *)
Definition write_data (p : str) (c : bytes) : M unit :=
  fault (SysWrite p);;;
  modify (fun st =>
            upd_files (<[p := {| content := c; mtime := clock st |}]> (files st)) st).

(** [with open(p, "wb") as f: f.write(c)] *)
Definition write_file (L : Lib) (p : str) (c : bytes) : M unit :=
  open_wb L p;;; write_data p c.

(** [os.makedirs(p, exist_ok=True)]; the ancestors of [p] are not tracked. *)
Definition makedirs (p : str) : M unit :=
  fault (SysMakedirs p);;;
  fun st =>
    if is_file p st then (st, Raise FileExistsError)
    else if is_dir p st then (st, Ret tt)
    else (upd_dirs (<[p := clock st]> (dirs st)) st, Ret tt).

(** [shutil.copy2(src, dst)]: content and modification time; a directory
    as [dst] receives the file under its base name; copying a file onto
    itself raises [SameFileError], an [OSError]. *)
Definition copy2 (L : Lib) (src dst : str) : M unit :=
  fault (SysCopy src dst);;;
  fun st =>
    match files st !! src with
    | None =>
        if is_dir src st then (st, Raise (directory_error L))
        else (st, Raise FileNotFoundError)
    | Some f =>
        let target :=
          if is_dir dst st then path_join L dst (basename L src) else dst in
        if bool_decide (src = target) then (st, Raise OSError)
        else (upd_files (<[target := f]> (files st)) st, Ret tt)
    end.

(** [os.remove(p)] *)
Definition remove (L : Lib) (p : str) : M unit :=
  fault (SysRemove p);;;
  fun st =>
    match files st !! p with
    | Some _ => (upd_files (delete p (files st)) st, Ret tt)
    | None =>
        if is_dir p st then (st, Raise (directory_error L))
        else (st, Raise FileNotFoundError)
    end.

(** [os.rename(src, dst)] of a file. *)
Definition rename (L : Lib) (src dst : str) : M unit :=
  fault (SysRename src dst);;;
  fun st =>
    match files st !! src with
    | None => (st, Raise FileNotFoundError)
    | Some f =>
        if is_dir dst st then (st, Raise (directory_error L))
        else if is_file dst st && negb (rename_replaces L)
        then (st, Raise FileExistsError)
        else (upd_files (<[dst := f]> (delete src (files st))) st, Ret tt)
    end.

(** [os.listdir(d)]: the base names of the files and directories whose
    parent is [d]. *)
Definition listdir (L : Lib) (d : str) : M (list str) :=
  fault (SysListdir d);;;
  fun st =>
    if is_dir d st then
      (st, Ret (map (basename L)
                  (filter (fun p => dirname L p = d)
                     ((map_to_list (files st)).*1 ++ (map_to_list (dirs st)).*1))))
    else (st, Raise FileNotFoundError).

(** [os.path.getmtime(p)] *)
Definition getmtime (p : str) : M Z :=
  fault (SysStat p);;;
  fun st =>
    match files st !! p, dirs st !! p with
    | Some f, _ => (st, Ret (mtime f))
    | None, Some t => (st, Ret t)
    | None, None => (st, Raise FileNotFoundError)
    end.

(** [os.path.getsize(p)] *)
Definition getsize (p : str) : M Z :=
  fault (SysStat p);;;
  fun st =>
    match files st !! p with
    | Some f => (st, Ret (Z.of_nat (length (content f))))
    | None =>
        if is_dir p st then (st, Ret 0) else (st, Raise FileNotFoundError)
    end.

(** [os.access(p, os.W_OK)] *)
Definition access_w (p : str) : M bool :=
  gets (fun st =>
          (is_file p st || is_dir p st)
          && match faults st (SysAccess p) with None => true | Some _ => false end).

End Os.

(** ** utils/auth.py: class Encryption *)

Module Encryption.

(** [Encryption.generate_key(master_password, salt=None)] *)
Definition generate_key (L : Lib) (master_password : str) (salt : option bytes)
  : M (bytes * bytes) :=
  salt <- match salt with
          | None => Os.urandom 16
          | Some s => ret s
          end;;
  match Codec.utf8_encode master_password with
  | None => raise UnicodeEncodeError
  | Some pw =>
      ret (Codec.urlsafe_b64encode (pbkdf2_hmac_sha256 L pw salt), salt)
  end.

(** [Encryption.encrypt(data, key)] *)
Definition encrypt (L : Lib) (data : str) (key : bytes) : M bytes :=
  if negb (fernet_key_ok L key) then raise ValueError
  else
    match Codec.utf8_encode data with
    | None => raise UnicodeEncodeError
    | Some b =>
        t <- Os.now;;
        iv <- Os.urandom 16;;
        ret (fernet_encrypt L key iv (t / 1000000) b)
    end.

(** [Encryption.decrypt(encrypted_data, key)]: every exception is caught
    and turned into [None]. *)
Definition decrypt (L : Lib) (encrypted_data : bytes) (key : bytes)
  : M (option str) :=
  try_except
    (if negb (fernet_key_ok L key) then raise ValueError
     else
       match fernet_decrypt L key encrypted_data with
       | None => raise InvalidToken
       | Some b =>
           match Codec.utf8_decode b with
           | None => raise UnicodeDecodeError
           | Some s => ret (Some s)
           end
       end)
    (fun _ => ret None).

End Encryption.

(** ** utils/config.py: class Config *)

Module Config.

(** [Config.save()] *)
Definition save (L : Lib) : M bool :=
  try_except
    (c <- gets config;;
     Os.write_file L (config_file c) (config_dumps L c);;;
     ret true)
    (fun _ => ret false).

(** [Config.set("database_path", value)] *)
Definition set_database_path (L : Lib) (value : str) : M bool :=
  modify (fun st => upd_config (upd_database_path value (config st)) st);;;
  save L.

(** [Config.set_cloud_config("last_sync_time", value)] *)
Definition set_cloud_config_last_sync_time (L : Lib) (value : str) : M bool :=
  modify (fun st => upd_config (upd_last_sync_time (Some value) (config st)) st);;;
  save L.

(** The file name that both [get_effective_database_path] and
    [CloudSyncManager._get_database_filename] compute. *)
Definition db_filename (L : Lib) (c : ConfigState) : str :=
  if truthy (database_path c) then basename L (database_path c)
  else Codec.lit "passwords.db".

(** [Config.get_effective_database_path()] *)
Definition get_effective_database_path (L : Lib) : M str :=
  c <- gets config;;
  let cloud_config := cloud_storage c in
  let original_db_path := database_path c in
  let db_filename := db_filename L c in
  let default_path :=
    if truthy original_db_path then original_db_path
    else path_join L (config_dir c) db_filename in
  if enabled cloud_config then
    let storage_type := storage_type cloud_config in
    hit <- (if bool_decide (storage_type = Codec.lit "network_drive") then
              let network_path := network_drive_path cloud_config in
              ex <- Os.path_exists network_path;;
              ret (if truthy network_path && ex
                   then Some (path_join L network_path db_filename) else None)
            else if bool_decide
                      (storage_type ∈ [Codec.lit "baidu_netdisk";
                                       Codec.lit "onedrive"; Codec.lit "dropbox"])
            then
              let remote_path := remote_path cloud_config in
              ex <- Os.path_exists remote_path;;
              ret (if truthy remote_path && ex
                   then Some (path_join L remote_path db_filename) else None)
            else ret None);;
    match hit with
    | Some p => ret p
    | None =>
        let cache_path := local_cache_path cloud_config in
        if truthy cache_path then
          Os.makedirs cache_path;;;
          ret (path_join L cache_path db_filename)
        else ret default_path
    end
  else ret default_path.

End Config.

(** ** utils/cloud_sync.py: class CloudSyncManager *)

Module CloudSyncManager.

Definition set_is_syncing (b : bool) : M unit :=
  modify (fun st => upd_cloud_sync (upd_is_syncing b (cloud_sync st)) st).

(** [is_cloud_enabled()] *)
Definition is_cloud_enabled : M bool :=
  gets (fun st => enabled (cloud_storage (config st))).

(** [get_local_path()] *)
Definition get_local_path (L : Lib) : M str :=
  c <- gets config;;
  let cache_path :=
    if truthy (local_cache_path (cloud_storage c))
    then local_cache_path (cloud_storage c)
    else path_join L (config_dir c) (Codec.lit "cache") in
  Os.makedirs cache_path;;;
  c <- gets config;;
  ret (path_join L cache_path (Config.db_filename L c)).

(** [get_remote_path()]: it reads the configuration only. *)
Definition remote_path_of (L : Lib) (c : ConfigState) : option str :=
  let storage_type := storage_type (cloud_storage c) in
  let db_filename := Config.db_filename L c in
  if bool_decide (storage_type = Codec.lit "network_drive") then
    let network_path := network_drive_path (cloud_storage c) in
    if truthy network_path
    then Some (path_join L network_path db_filename) else None
  else if bool_decide
            (storage_type ∈ [Codec.lit "baidu_netdisk";
                             Codec.lit "onedrive"; Codec.lit "dropbox"])
  then
    let remote_path := remote_path (cloud_storage c) in
    if truthy remote_path
    then Some (path_join L remote_path db_filename) else None
  else None.
Definition get_remote_path (L : Lib) : M (option str) :=
  gets (fun st => remote_path_of L (config st)).

(** [check_remote_accessibility()] *)
Definition check_remote_accessibility (L : Lib) : M bool :=
  remote_path <- get_remote_path L;;
  match remote_path with
  | None => ret false
  | Some remote_path =>
      try_except
        (let remote_dir := dirname L remote_path in
         ex <- Os.path_exists remote_dir;;
         w <- Os.access_w remote_dir;;
         ret (ex && w))
        (fun _ => ret false)
  end.

(** [sync_to_remote(local_file_path=None)] *)
Definition sync_to_remote (L : Lib) (local_file_path : option str) : M bool :=
  en <- is_cloud_enabled;;
  if negb en then ret true
  else
    try_finally
      (try_except
         (set_is_syncing true;;;
          local_file_path <-
            match local_file_path with
            | Some p => if truthy p then ret (Some p) else ret None
            | None => ret None
            end;;
          local_file_path <-
            match local_file_path with
            | Some p => ret p
            | None =>
                current_db_path <- gets (fun st => database_path (config st));;
                ex <- Os.path_exists current_db_path;;
                if truthy current_db_path && ex then ret current_db_path
                else Config.get_effective_database_path L
            end;;
          remote_path <- get_remote_path L;;
          match remote_path with
          | None => ret false
          | Some remote_path =>
              acc <- check_remote_accessibility L;;
              if negb acc then ret false
              else
                let remote_dir := dirname L remote_path in
                made <- try_except (Os.makedirs remote_dir;;; ret true)
                          (fun _ => ret false);;
                if negb made then ret false
                else
                  ex <- Os.path_exists local_file_path;;
                  if ex then
                    let temp_path := remote_path ++ Codec.lit ".tmp" in
                    copied <- try_except
                                (Os.copy2 L local_file_path temp_path;;; ret true)
                                (fun _ => ret false);;
                    if negb copied then ret false
                    else
                      renamed <-
                        try_except
                          (have_temp <- Os.path_exists temp_path;;
                           if have_temp then
                             have_remote <- Os.path_exists remote_path;;
                             when have_remote (Os.remove L remote_path);;;
                             Os.rename L temp_path remote_path;;;
                             ret true
                           else ret false)
                          (fun _ => ret false);;
                      if negb renamed then ret false
                      else
                        t <- Os.now;;
                        Config.set_cloud_config_last_sync_time L (isoformat L t);;;
                        ret true
                  else ret false
          end)
         (fun _ => ret false))
      (set_is_syncing false).

(** [sync_from_remote(local_file_path=None)] *)
Definition sync_from_remote (L : Lib) (local_file_path : option str) : M bool :=
  en <- is_cloud_enabled;;
  if negb en then ret true
  else
    try_finally
      (try_except
         (set_is_syncing true;;;
          local_file_path <-
            match local_file_path with
            | Some p => if truthy p then ret (Some p) else ret None
            | None => ret None
            end;;
          local_file_path <-
            match local_file_path with
            | Some p => ret p
            | None =>
                c <- gets config;;
                let db_filename := Config.db_filename L c in
                let original_db_path := database_path c in
                remote_path <- get_remote_path L;;
                let user_docs := expanduser L (Codec.lit "~/Documents") in
                match remote_path with
                | Some r =>
                    if truthy original_db_path
                       && bool_decide (normpath L original_db_path = normpath L r)
                    then ret (path_join L user_docs db_filename)
                    else if truthy original_db_path then ret original_db_path
                    else ret (path_join L user_docs db_filename)
                | None =>
                    if truthy original_db_path then ret original_db_path
                    else ret (path_join L user_docs db_filename)
                end
            end;;
          remote_path <- get_remote_path L;;
          match remote_path with
          | None => ret false
          | Some remote_path =>
              have_remote <- Os.path_exists remote_path;;
              if negb have_remote then ret true
              else
                conflict_resolution <-
                  gets (fun st => conflict_resolution (cloud_storage (config st)));;
                have_local <- Os.path_exists local_file_path;;
                skip <-
                  (if have_local then
                     local_mtime <- Os.getmtime local_file_path;;
                     remote_mtime <- Os.getmtime remote_path;;
                     if bool_decide (conflict_resolution = Codec.lit "newer")
                     then ret (remote_mtime <=? local_mtime)
                     else if bool_decide (conflict_resolution = Codec.lit "local")
                     then ret true
                     else ret false
                   else ret false);;
                if skip then ret true
                else
                  let local_dir := dirname L local_file_path in
                  made <- try_except (Os.makedirs local_dir;;; ret true)
                            (fun _ => ret false);;
                  if negb made then ret false
                  else
                    copied <- try_except
                                (Os.copy2 L remote_path local_file_path;;; ret true)
                                (fun _ => ret false);;
                    if negb copied then ret false
                    else
                      have_local <- Os.path_exists local_file_path;;
                      if have_local then
                        Os.getsize local_file_path;;;
                        t <- Os.now;;
                        Config.set_cloud_config_last_sync_time L (isoformat L t);;;
                        ret true
                      else ret false
          end)
         (fun _ => ret false))
      (set_is_syncing false).

(** [stop_auto_sync()] *)
Definition stop_auto_sync : M unit :=
  modify (fun st => upd_cloud_sync (upd_auto_sync_timer false (cloud_sync st)) st).

(** [start_auto_sync()]: schedules the timer; its ticks run on another
    thread and are not modelled. *)
Definition start_auto_sync : M unit :=
  en <- is_cloud_enabled;;
  if negb en then ret tt
  else
    interval <- gets (fun st => auto_sync_interval (cloud_storage (config st)));;
    if 0 <? interval then
      stop_auto_sync;;;
      modify (fun st => upd_cloud_sync (upd_auto_sync_timer true (cloud_sync st)) st)
    else ret tt.

(** What [manual_sync] returns beside its result: one of the fixed texts,
    or [f"同步失败: {e}"] for the exception [e] that was caught. *)
Inductive message :=
  | Text (s : str)
  | Failure (e : exn).

(** [manual_sync()] *)
Definition manual_sync (L : Lib) : M (bool * message) :=
  en <- is_cloud_enabled;;
  if negb en then ret (false, Text (Codec.lit "云存储未启用"))
  else
    try_except
      (on_open <- gets (fun st => sync_on_open (cloud_storage (config st)));;
       pulled <- (if on_open then sync_from_remote L None else ret true);;
       if negb pulled then ret (false, Text (Codec.lit "从远程同步失败"))
       else
         on_save <- gets (fun st => sync_on_save (cloud_storage (config st)));;
         pushed <- (if on_save then sync_to_remote L None else ret true);;
         if negb pushed then ret (false, Text (Codec.lit "同步到远程失败"))
         else ret (true, Text (Codec.lit "同步成功")))
      (fun e => ret (false, Failure e)).

End CloudSyncManager.

(** ** Python list and string helpers *)

(** [l.remove(x)] when [x in l]: the first occurrence goes. *)
Fixpoint remove_first (x : str) (l : list str) : list str :=
  match l with
  | [] => []
  | y :: l' => if bool_decide (y = x) then l' else y :: remove_first x l'
  end.

(** [l[l.index(x)] = z] when [x in l]. *)
Fixpoint replace_first (x z : str) (l : list str) : list str :=
  match l with
  | [] => []
  | y :: l' => if bool_decide (y = x) then z :: l' else y :: replace_first x z l'
  end.

(** [l[n:]] *)
Definition slice_from {A} (n : Z) (l : list A) : list A :=
  if n <? 0 then drop (Z.to_nat (Z.of_nat (length l) + n)) l
  else drop (Z.to_nat n) l.

(** [s.endswith(suffix)] *)
Definition endswith (s suffix : str) : bool :=
  bool_decide (drop (length s - length suffix)%nat s = suffix).

(** [str(n)] of an integer. *)
Fixpoint decimal (fuel : nat) (n : Z) (acc : str) : str :=
  match fuel with
  | O => acc
  | S fuel' =>
      let acc' := (48 + n mod 10) :: acc in
      if n <? 10 then acc' else decimal fuel' (n / 10) acc'
  end.
Definition str_of_int (n : Z) : str :=
  if n <? 0 then 45 :: decimal (S (Z.to_nat (Z.log2 (- n)))) (- n) []
  else decimal (S (Z.to_nat (Z.log2 n))) n [].

(** [sort(key=lambda x: x[1], reverse=True)]: largest key first, equal
    keys in the order they had. *)
Fixpoint insert_desc (x : str * Z) (l : list (str * Z)) : list (str * Z) :=
  match l with
  | [] => [x]
  | y :: l' => if y.2 <=? x.2 then x :: l else y :: insert_desc x l'
  end.
Definition sort_desc (l : list (str * Z)) : list (str * Z) :=
  foldr insert_desc [] l.

(** [needle in text] on two [str] values. *)
Fixpoint contains (needle text : str) : bool :=
  bool_decide (take (length needle) text = needle)
  || match text with
     | [] => false
     | _ :: text' => contains needle text'
     end.

(** ** database/password_db.py: class PasswordDatabase *)

Module PasswordDatabase.

Import Codec.

Definition OTHER : str := lit "其他".

(** [__init__]: the object before [create] or [open]. *)
Definition init : DbState :=
  {| db_path := None; key := None; salt := None;
     data := {| categories := []; passwords := []; last_modified := None;
                version := lit "1.0"; totp_secret := None; username := [] |};
     categories_shared := false;
     default_categories :=
       [lit "网站"; lit "应用"; lit "邮箱"; lit "银行"; lit "证件"; lit "其他"];
     last_error := None |}.

Definition set_error (e : error_code) : M unit :=
  modify (fun st => upd_db (upd_last_error (Some e) (db st)) st).
Definition set_self_db_path (p : str) : M unit :=
  modify (fun st => upd_db (upd_db_path (Some p) (db st)) st).
Definition set_passwords (l : list entry) : M unit :=
  modify (fun st => upd_db (mutate_data (with_passwords l) (db st)) st).

(** [pwd[k]]: [KeyError] when the key is missing. *)
Definition item (pwd : entry) (k : string) : outcome str :=
  match pwd !! k with Some v => Ret v | None => Raise KeyError end.
Definition lift {A} (o : outcome A) : M A := fun st => (st, o).

(** [_cleanup_backups]: the loop that collects [(full_path, mtime)]. *)
Fixpoint collect_backups (L : Lib) (backup_path : str) (names : list str)
  : M (list (str * Z)) :=
  match names with
  | [] => ret []
  | f :: names' =>
      if endswith f (lit ".bak") then
        let full_path := path_join L backup_path f in
        m <- Os.getmtime full_path;;
        rest <- collect_backups L backup_path names';;
        ret ((full_path, m) :: rest)
      else collect_backups L backup_path names'
  end.

Fixpoint remove_all (L : Lib) (l : list (str * Z)) : M unit :=
  match l with
  | [] => ret tt
  | (path, _) :: l' => Os.remove L path;;; remove_all L l'
  end.

(** [_cleanup_backups(backup_path)] *)
Definition _cleanup_backups (L : Lib) (backup_path : str) : M unit :=
  try_except
    (backup_count <- gets (fun st => backup_count (config st));;
     names <- Os.listdir L backup_path;;
     backup_files <- collect_backups L backup_path names;;
     remove_all L (slice_from backup_count (sort_desc backup_files)))
    (fun _ => ret tt).

(** [_create_backup()] *)
Definition _create_backup (L : Lib) : M unit :=
  enabled <- gets (fun st => backup_enabled (config st));;
  if negb enabled then ret tt
  else
    try_except
      (self_db_path <- (o <- gets (fun st => db_path (db st));; need o);;
       configured <- gets (fun st => backup_path (config st));;
       let backup_path :=
         if truthy configured then configured
         else path_join L (dirname L self_db_path) (lit "backups") in
       Os.makedirs backup_path;;;
       t <- Os.now;;
       let timestamp := strftime_compact L t in
       let db_name := basename L self_db_path in
       let backup_file :=
         path_join L backup_path
           (splitext_root L db_name ++ lit "_" ++ timestamp ++ lit ".bak") in
       Os.copy2 L self_db_path backup_file;;;
       _cleanup_backups L backup_path)
      (fun _ => ret tt).

(** [save()], lines 231-238: stamp, serialize, encrypt. *)
Definition save_prepare (L : Lib) : M bytes :=
  t <- Os.now;;
  modify (fun st =>
            upd_db (mutate_data (with_last_modified (Some (isoformat L t))) (db st)) st);;;
  json_data <- gets (fun st => json_dumps L (db_view (db st)));;
  self_key <- (o <- gets (fun st => key (db st));; need o);;
  Encryption.encrypt L json_data self_key.

(** [save()], lines 240-242: the backup of the file that is there. *)
Definition save_backup (L : Lib) : M unit :=
  self_db_path <- (o <- gets (fun st => db_path (db st));; need o);;
  ex <- Os.path_exists self_db_path;;
  when ex (_create_backup L).

(** [save()], lines 244-249: the container, salt first. *)
Definition save_write (L : Lib) (encrypted_data : bytes) : M unit :=
  self_db_path <- (o <- gets (fun st => db_path (db st));; need o);;
  Os.makedirs (dirname L (abspath L self_db_path));;;
  Os.open_wb L self_db_path;;;
  self_salt <- (o <- gets (fun st => salt (db st));; need o);;
  Os.write_data self_db_path (self_salt ++ encrypted_data).

(** [save()], lines 251-253: the push to the replica; its result is
    dropped. *)
Definition save_push (L : Lib) : M unit :=
  en <- CloudSyncManager.is_cloud_enabled;;
  on_save <- gets (fun st => sync_on_save (cloud_storage (config st)));;
  if en && on_save then
    self_db_path <- gets (fun st => db_path (db st));;
    CloudSyncManager.sync_to_remote L self_db_path;;;
    ret tt
  else ret tt.

(** [save()] *)
Definition save (L : Lib) : M bool :=
  try_except
    (encrypted_data <- save_prepare L;;
     save_backup L;;;
     save_write L encrypted_data;;;
     save_push L;;;
     ret true)
    (fun _ => ret false).

(** [create(db_path, master_password, totp_secret=None, username="")] *)
Definition create (L : Lib) (db_path_arg master_password : str)
    (totp_secret_arg : option str) (username_arg : str) : M bool :=
  en <- CloudSyncManager.is_cloud_enabled;;
  (if en then
     Config.set_database_path L db_path_arg;;;
     effective_path <- Config.get_effective_database_path L;;
     if bool_decide (effective_path ≠ db_path_arg)
     then set_self_db_path db_path_arg
     else set_self_db_path effective_path
   else set_self_db_path db_path_arg);;;
  ks <- Encryption.generate_key L master_password None;;
  modify (fun st => upd_db (upd_key_salt (Some ks.1) (Some ks.2) (db st)) st);;;
  t <- Os.now;;
  modify (fun st =>
            upd_db (upd_data_sharing
                      {| categories := []; passwords := [];
                         last_modified := Some (isoformat L t);
                         version := lit "1.0";
                         totp_secret := totp_secret_arg;
                         username := username_arg |} (db st)) st);;;
  saved <- save L;;
  if negb saved then ret false
  else
    en <- CloudSyncManager.is_cloud_enabled;;
    (if en then
       Config.set_database_path L db_path_arg;;;
       effective_path <- Config.get_effective_database_path L;;
       self_db_path <- (o <- gets (fun st => db_path (db st));; need o);;
       ex <- Os.path_exists self_db_path;;
       if bool_decide (effective_path ≠ self_db_path) && ex then
         try_except
           (Os.makedirs (dirname L effective_path);;;
            Os.copy2 L self_db_path effective_path;;;
            set_self_db_path effective_path;;;
            Config.set_database_path L effective_path;;;
            ret tt)
           (fun _ =>
              self_db_path <- (o <- gets (fun st => db_path (db st));; need o);;
              Config.set_database_path L self_db_path;;;
              ret tt)
       else Config.set_database_path L self_db_path;;; ret tt
     else Config.set_database_path L db_path_arg;;; ret tt);;;
    ret true.

(** [open()], lines 117-144: the error state is cleared and the file to
    read is chosen.  The result says whether [open] goes on. *)
Definition open_locate (L : Lib) (db_path_arg : str) : M bool :=
  modify (fun st => upd_db (upd_last_error None (db st)) st);;;
  en <- CloudSyncManager.is_cloud_enabled;;
  if en then
    cloud_db_path <- Config.get_effective_database_path L;;
    on_open <- gets (fun st => sync_on_open (cloud_storage (config st)));;
    when on_open (CloudSyncManager.sync_from_remote L (Some cloud_db_path);;; ret tt);;;
    have_cloud <- Os.path_exists cloud_db_path;;
    if have_cloud then set_self_db_path cloud_db_path;;; ret true
    else
      have_local <- Os.path_exists db_path_arg;;
      if have_local then set_self_db_path db_path_arg;;; ret true
      else set_error FILE_NOT_FOUND;;; ret false
  else set_self_db_path db_path_arg;;; ret true.

(** [open()], lines 189-202: the stored second-factor secret against the
    supplied one. *)
Definition totp_mismatch (v : vault) (master_password : str) : bool :=
  match totp_secret v with
  | Some stored =>
      truthy stored && bool_decide (strip master_password ≠ strip stored)
  | None => false
  end.

(** [open()], lines 146-226: read, decrypt, parse, check. *)
Definition open_load (L : Lib) (master_password : str) : M bool :=
  try_except
    (self_db_path <- (o <- gets (fun st => db_path (db st));; need o);;
     ex <- Os.path_exists self_db_path;;
     if negb ex then set_error FILE_NOT_FOUND;;; ret false
     else
       encrypted_data <- Os.read_file L self_db_path;;
       if (length encrypted_data <? 16)%nat then
         set_error DATA_CORRUPTED;;; ret false
       else
         let salt := take 16 encrypted_data in
         let encrypted_content := drop 16 encrypted_data in
         ks <- Encryption.generate_key L master_password (Some salt);;
         modify (fun st => upd_db (upd_key_salt (Some ks.1) (Some ks.2) (db st)) st);;;
         decrypted_data <- Encryption.decrypt L encrypted_content ks.1;;
         match decrypted_data with
         | None | Some [] => set_error INVALID_KEY;;; ret false
         | Some decrypted_data =>
             match json_loads L decrypted_data with
             | None => set_error DATA_CORRUPTED;;; ret false
             | Some v =>
                 modify (fun st => upd_db (upd_data_fresh v (db st)) st);;;
                 if totp_mismatch v master_password then
                   set_error INVALID_KEY;;; ret false
                 else
                   en <- CloudSyncManager.is_cloud_enabled;;
                   when en CloudSyncManager.start_auto_sync;;;
                   ret true
             end
         end)
    (fun e =>
       match e with
       | FileNotFoundError => set_error FILE_NOT_FOUND;;; ret false
       | PermissionError => set_error PERMISSION_DENIED;;; ret false
       | _ => set_error UNKNOWN_ERROR;;; ret false
       end).

(** [open(db_path, master_password)] *)
Definition open (L : Lib) (db_path_arg master_password : str) : M bool :=
  go_on <- open_locate L db_path_arg;;
  if go_on then open_load L master_password else ret false.

(** The [for i, pwd in enumerate(...)] search of [update_password] and
    [delete_password]: the first index whose ["id"] is [password_id]. *)
Fixpoint find_by_id (password_id : str) (l : list entry) (i : nat)
  : outcome (option (nat * entry)) :=
  match l with
  | [] => Ret None
  | pwd :: l' =>
      match item pwd "id" with
      | Raise e => Raise e
      | Ret pid =>
          if bool_decide (pid = password_id) then Ret (Some (i, pwd))
          else find_by_id password_id l' (S i)
      end
  end.

(** [add_password(password_data)] *)
Definition add_password (L : Lib) (password_data : entry) : M bool :=
  t <- Os.now;;
  let password_id := str_of_int (t / 1000) in
  created <- Os.now;;
  updated <- Os.now;;
  let password_data :=
    <["updated_at" := isoformat L updated]>
      (<["created_at" := isoformat L created]>
         (<["id" := password_id]> password_data)) in
  cur <- gets (fun st => passwords (data (db st)));;
  set_passwords (cur ++ [password_data]);;;
  save L.

(** [update_password(password_id, password_data)] *)
Definition update_password (L : Lib) (password_id : str) (password_data : entry)
  : M bool :=
  cur <- gets (fun st => passwords (data (db st)));;
  found <- lift (find_by_id password_id cur 0);;
  match found with
  | Some (i, pwd) =>
      created_at <- lift (item pwd "created_at");;
      t <- Os.now;;
      let password_data :=
        <["updated_at" := isoformat L t]>
          (<["created_at" := created_at]>
             (<["id" := password_id]> password_data)) in
      set_passwords (<[i := password_data]> cur);;;
      save L
  | None => ret false
  end.

(** [delete_password(password_id)] *)
Definition delete_password (L : Lib) (password_id : str) : M bool :=
  cur <- gets (fun st => passwords (data (db st)));;
  found <- lift (find_by_id password_id cur 0);;
  match found with
  | Some (i, _) => set_passwords (delete i cur);;; save L
  | None => ret false
  end.

(** [get_categories()] and [get_all_passwords()] *)
Definition get_categories : M (list str) := gets (fun st => db_categories (db st)).
Definition get_all_passwords : M (list entry) :=
  gets (fun st => passwords (data (db st))).

(** [update_totp_secret(totp_secret, username="")] *)
Definition update_totp_secret (L : Lib) (secret : option str) (user : str) : M bool :=
  modify (fun st => upd_db (mutate_data (with_totp secret user) (db st)) st);;;
  save L.

(** [add_category(category)] *)
Definition add_category (L : Lib) (category : str) : M bool :=
  cats <- get_categories;;
  if bool_decide (category ∉ cats) then
    modify (fun st => upd_db (mutate_categories (fun l => l ++ [category]) (db st)) st);;;
    save L
  else ret true.

(** The loop of [delete_category] and [rename_category] over the records:
    [if pwd.get("category") == old: pwd["category"] = new]. *)
Definition move_category (old new : str) (pwd : entry) : entry :=
  if bool_decide (pwd !! "category" = Some old)
  then <["category" := new]> pwd else pwd.

(** [delete_category(category)] *)
Definition delete_category (L : Lib) (category : str) : M bool :=
  cats <- get_categories;;
  if bool_decide (category ∈ cats) then
    modify (fun st => upd_db (mutate_categories (remove_first category) (db st)) st);;;
    cur <- gets (fun st => passwords (data (db st)));;
    set_passwords (map (move_category category OTHER) cur);;;
    save L
  else ret false.

(** [rename_category(old_name, new_name)] *)
Definition rename_category (L : Lib) (old_name new_name : str) : M bool :=
  cats <- get_categories;;
  if bool_decide (old_name ∉ cats) then ret false
  else if bool_decide (new_name ∈ cats) then ret false
  else
    modify (fun st =>
              upd_db (mutate_categories (replace_first old_name new_name) (db st)) st);;;
    cur <- gets (fun st => passwords (data (db st)));;
    set_passwords (map (move_category old_name new_name) cur);;;
    save L.

(** [export_data(export_path, password)] *)
Definition export_data (L : Lib) (export_path password : str) : M bool :=
  try_except
    (ks <- Encryption.generate_key L password None;;
     json_data <- gets (fun st => json_dumps L (db_view (db st)));;
     encrypted_data <- Encryption.encrypt L json_data ks.1;;
     Os.write_file L export_path (ks.2 ++ encrypted_data);;;
     ret true)
    (fun _ => ret false).

(** [_merge_data], lines 493-495. *)
Definition merge_categories (imported own : list str) : list str :=
  foldl (fun acc c => if bool_decide (c ∈ acc) then acc else acc ++ [c])
    own imported.

(** [_merge_data], line 498: [{pwd["id"] for pwd in ...}]. *)
Fixpoint ids_of (l : list entry) : outcome (list str) :=
  match l with
  | [] => Ret []
  | pwd :: l' =>
      match item pwd "id", ids_of l' with
      | Ret i, Ret r => Ret (i :: r)
      | Raise e, _ => Raise e
      | _, Raise e => Raise e
      end
  end.

(** [import_time > existing_time] of lines 508-511. *)
Definition imported_is_later (L : Lib) (pwd existing_pwd : entry) : outcome bool :=
  match item pwd "updated_at" with
  | Raise e => Raise e
  | Ret it =>
      match fromisoformat L it with
      | None => Raise ValueError
      | Some import_time =>
          match item existing_pwd "updated_at" with
          | Raise e => Raise e
          | Ret et =>
              match fromisoformat L et with
              | None => Raise ValueError
              | Some existing_time => datetime_gt import_time existing_time
              end
          end
      end
  end.

(** [_merge_data], lines 505-514: the first record with the imported id is
    compared and, when older, replaced; then [break]. *)
Fixpoint merge_existing (L : Lib) (pwd : entry) (pid : str) (l : list entry)
  : outcome (list entry) :=
  match l with
  | [] => Ret []
  | existing_pwd :: l' =>
      match item existing_pwd "id" with
      | Raise e => Raise e
      | Ret eid =>
          if bool_decide (eid = pid) then
            match imported_is_later L pwd existing_pwd with
            | Raise e => Raise e
            | Ret later => Ret ((if later then pwd else existing_pwd) :: l')
            end
          else
            match merge_existing L pwd pid l' with
            | Raise e => Raise e
            | Ret r => Ret (existing_pwd :: r)
            end
      end
  end.

(** [_merge_data], lines 500-514. *)
Fixpoint merge_passwords (L : Lib) (existing_ids : list str) (imported : list entry)
  : M unit :=
  match imported with
  | [] => ret tt
  | pwd :: rest =>
      pid <- lift (item pwd "id");;
      cur <- gets (fun st => passwords (data (db st)));;
      (if bool_decide (pid ∉ existing_ids) then set_passwords (cur ++ [pwd])
       else
         merged <- lift (merge_existing L pwd pid cur);;
         set_passwords merged);;;
      merge_passwords L existing_ids rest
  end.

(** [_merge_data(imported_data)] *)
Definition _merge_data (L : Lib) (imported_data : vault) : M unit :=
  modify (fun st =>
            upd_db (mutate_categories (merge_categories (categories imported_data))
                      (db st)) st);;;
  cur <- gets (fun st => passwords (data (db st)));;
  existing_ids <- lift (ids_of cur);;
  merge_passwords L existing_ids (passwords imported_data).

(** [import_data(import_path, password)] *)
Definition import_data (L : Lib) (import_path password : str) : M bool :=
  try_except
    (encrypted_data <- Os.read_file L import_path;;
     let salt := take 16 encrypted_data in
     let encrypted_content := drop 16 encrypted_data in
     ks <- Encryption.generate_key L password (Some salt);;
     decrypted_data <- Encryption.decrypt L encrypted_content ks.1;;
     match decrypted_data with
     | None | Some [] => ret false
     | Some decrypted_data =>
         match json_loads L decrypted_data with
         | None => raise JSONDecodeError
         | Some imported_data => _merge_data L imported_data;;; save L
         end
     end)
    (fun _ => ret false).

(** [close()] *)
Definition close : M unit := CloudSyncManager.stop_auto_sync.

(** [get_password(password_id)] *)
Definition get_password (password_id : str) : M (option entry) :=
  cur <- gets (fun st => passwords (data (db st)));;
  found <- lift (find_by_id password_id cur 0);;
  ret (snd <$> found).

(** [get_passwords_by_category(category)] *)
Definition get_passwords_by_category (category : str) : M (list entry) :=
  cur <- gets (fun st => passwords (data (db st)));;
  ret (filter (fun pwd : entry => pwd !! "category" = Some category) cur).

(** The condition of [search_passwords]: the query occurs in the title,
    the user name, the address or the notes, a missing field counting as
    the empty text.  [lower] is [str.lower]. *)
Definition matches (lower : str -> str) (query : str) (pwd : entry) : bool :=
  contains query (lower (default [] (pwd !! "title")))
  || contains query (lower (default [] (pwd !! "username")))
  || contains query (lower (default [] (pwd !! "url")))
  || contains query (lower (default [] (pwd !! "notes"))).

(** [search_passwords(query)] *)
Definition search_passwords (lower : str -> str) (query : str) : M (list entry) :=
  let query := lower query in
  cur <- gets (fun st => passwords (data (db st)));;
  ret (List.filter (matches lower query) cur).

(** [manual_sync()]: an object that has a path pushes its container;
    one that has none leaves it to the replication engine. *)
Definition manual_sync (L : Lib) : M (bool * CloudSyncManager.message) :=
  self_db_path <- gets (fun st => db_path (db st));;
  match self_db_path with
  | Some p =>
      if truthy p then
        success <- CloudSyncManager.sync_to_remote L (Some p);;
        if success
        then ret (true, CloudSyncManager.Text (lit "同步到远程成功"))
        else ret (false, CloudSyncManager.Text (lit "同步到远程失败"))
      else CloudSyncManager.manual_sync L
  | None => CloudSyncManager.manual_sync L
  end.

End PasswordDatabase.

(** ** utils/config.py: the dictionaries of class Config

    [ConfigState] is the typed reading of the keys that the record store
    and the replication engine use.  The methods that treat [self.config]
    as a dictionary ([load], [_merge_config], [get], [set],
    [get_cloud_config], [set_cloud_config], [reset]) are modelled here, on
    the dictionaries themselves. *)

(** [self.config_file] *)
Definition config_file_of (st : State) : str := config_file (config st).

Module ConfigDict.

Import Codec.

(** A value that [json.load] returns and that a dictionary of [Config]
    holds.  A float is kept as the bit pattern of its binary64 form; the
    methods below never compute with one. *)
#[warnings="-register-all"]
Inductive value :=
  | VNone
  | VBool (b : bool)
  | VInt (n : Z)
  | VFloat (bits : Z)
  | VStr (s : str)
  | VList (l : list value)
  | VDict (d : gmap str value).

Abbreviation dict := (gmap str value).

(** What a key of [self.config] holds: a value of its own, or the very
    object that [self.default_config] holds under the same key.
    [dict.copy()] is shallow: after
    [self.config = self.default_config.copy()] every key shares its value
    with the defaults, so that a change made in place to a shared
    dictionary (["column_widths"], ["cloud_storage"]) changes the
    defaults as well. *)
Inductive slot :=
  | Own (v : value)
  | Shared.

(** A [Config] object: its two dictionaries. *)
Record ConfigObject := {
  default_config : dict;
  config : gmap str slot }.

(** [self.config[key]], through the sharing. *)
Definition deref (o : ConfigObject) (key : str) : option value :=
  match config o !! key with
  | Some (Own v) => Some v
  | Some Shared => default_config o !! key
  | None => None
  end.

(** [self.config] as a reader sees it (what [json.dump] serializes). *)
Definition view (o : ConfigObject) : dict :=
  map_imap (fun key _ => deref o key) (config o).

(** [self.default_config.copy()] *)
Definition copy_of_defaults (o : ConfigObject) : gmap str slot :=
  (fun _ => Shared) <$> default_config o.

(** [__init__]: the defaults and their shallow copy. *)
Definition init : ConfigObject :=
  let defaults : dict :=
    {[ lit "database_path" := VStr [];
       lit "theme" := VStr (lit "dark");
       lit "language" := VStr (lit "zh_CN");
       lit "auto_lock" := VBool true;
       lit "lock_timeout" := VInt 180;
       lit "backup_enabled" := VBool true;
       lit "backup_interval" := VInt 7;
       lit "backup_count" := VInt 5;
       lit "backup_path" := VStr [];
       lit "save_totp_key" := VBool false;
       lit "saved_totp_key" := VStr [];
       lit "column_widths" :=
         VDict {[ lit "title" := VInt 170; lit "username" := VInt 170;
                  lit "url" := VInt 180; lit "modified" := VInt 180 ]};
       lit "cloud_storage" :=
         VDict {[ lit "enabled" := VBool false;
                  lit "type" := VStr (lit "local");
                  lit "sync_on_save" := VBool true;
                  lit "sync_on_open" := VBool true;
                  lit "auto_sync_interval" := VInt 300;
                  lit "conflict_resolution" := VStr (lit "newer");
                  lit "local_cache_path" := VStr [];
                  lit "remote_path" := VStr [];
                  lit "network_drive_path" := VStr [];
                  lit "last_sync_time" := VNone;
                  lit "sync_enabled" := VBool true ]} ]} in
  {| default_config := defaults; config := (fun _ => Shared) <$> defaults |}.

(** One key of [merge_dict(default, loaded)], lines 84-89, for a key that
    [loaded] has: two dictionaries are merged key by key, anything else is
    replaced by the loaded value. *)
Fixpoint merge_value (v lv : value) {struct v} : value :=
  match v, lv with
  | VDict d, VDict ld =>
      VDict (map_imap (fun key x =>
                         Some (match ld !! key with
                               | Some lx => merge_value x lx
                               | None => x
                               end)) d)
  | _, _ => lv
  end.

(** [merge_dict(default, loaded)] on a dictionary that nothing else
    refers to. *)
Definition merge_dict (default loaded : dict) : dict :=
  map_imap (fun key x =>
              Some (match loaded !! key with
                    | Some lx => merge_value x lx
                    | None => x
                    end)) default.

(** [merge_dict(self.config, loaded_config)] for a dictionary
    [loaded_config]: a shared dictionary is merged in place, which changes
    the defaults; a replaced value becomes the key's own. *)
Definition merge_config (loaded : dict) (o : ConfigObject) : ConfigObject :=
  {| default_config :=
       map_imap (fun key v =>
                   Some (match config o !! key, loaded !! key with
                         | Some Shared, Some (VDict ld) =>
                             match v with
                             | VDict d => VDict (merge_dict d ld)
                             | _ => v
                             end
                         | _, _ => v
                         end)) (default_config o);
     config :=
       map_imap (fun key s =>
                   Some (match loaded !! key with
                         | None => s
                         | Some lv =>
                             match s with
                             | Own v => Own (merge_value v lv)
                             | Shared =>
                                 match default_config o !! key, lv with
                                 | Some (VDict _), VDict _ => Shared
                                 | _, _ => Own lv
                                 end
                             end
                         end)) (config o) |}.

(** [x == key] for a value [x] and a text. *)
Definition is_text (key : str) (x : value) : bool :=
  match x with
  | VStr s => bool_decide (s = key)
  | _ => false
  end.

(** [_merge_config(loaded_config)].  [json.load] may return something
    else than a dictionary: then [key in loaded] is a membership or
    substring test, or raises, and [loaded[key]] raises [TypeError] for
    the first key that passes the test; nothing has been changed by
    then. *)
Definition _merge_config (loaded : value) (o : ConfigObject)
  : ConfigObject * outcome unit :=
  let keys := (map_to_list (config o)).*1 in
  match loaded with
  | VDict ld => (merge_config ld o, Ret tt)
  | VList l =>
      if existsb (fun key => existsb (is_text key) l) keys
      then (o, Raise TypeError) else (o, Ret tt)
  | VStr s =>
      if existsb (fun key => contains key s) keys
      then (o, Raise TypeError) else (o, Ret tt)
  | _ =>
      match keys with
      | [] => (o, Ret tt)
      | _ => (o, Raise TypeError)
      end
  end.

(** [load()].  [json_load] is [json.load] on the content of the file;
    [None] stands for its [UnicodeDecodeError] or [JSONDecodeError],
    both of them [ValueError]s. *)
Definition load (L : Lib) (json_load : bytes -> option value) (o : ConfigObject)
  : M (ConfigObject * bool) :=
  try_except
    (config_file <- gets config_file_of;;
     ex <- Os.path_exists config_file;;
     if ex then
       raw <- Os.read_file L config_file;;
       match json_load raw with
       | None => raise ValueError
       | Some loaded_config =>
           match _merge_config loaded_config o with
           | (o', Ret _) => ret (o', true)
           | (_, Raise e) => raise e
           end
       end
     else ret (o, false))
    (fun _ => ret (o, false)).

(** [save()].  [json_dump] is [json.dump(self.config, f, indent=4,
    ensure_ascii=False)] as the octets that reach the file. *)
Definition save (L : Lib) (json_dump : dict -> bytes) (o : ConfigObject) : M bool :=
  try_except
    (config_file <- gets config_file_of;;
     Os.write_file L config_file (json_dump (view o));;;
     ret true)
    (fun _ => ret false).

(** [get(key, default=None)] *)
Definition get (key : str) (default_value : value) (o : ConfigObject) : value :=
  default default_value (deref o key).

(** [set(key, value)] for a value of the caller's own. *)
Definition set (L : Lib) (json_dump : dict -> bytes) (key : str) (v : value)
    (o : ConfigObject) : M (ConfigObject * bool) :=
  let o' := {| default_config := default_config o;
               config := <[key := Own v]> (config o) |} in
  saved <- save L json_dump o';;
  ret (o', saved).

(** [get_cloud_config(key=None)]; [None] stands for the [AttributeError]
    that [cloud_config.get] raises when the value under ["cloud_storage"]
    is no dictionary. *)
Definition get_cloud_config (key : option str) (o : ConfigObject) : option value :=
  let cloud_config := default (VDict ∅) (deref o (lit "cloud_storage")) in
  match key with
  | Some (c :: k) =>
      match cloud_config with
      | VDict d => Some (default VNone (d !! (c :: k)))
      | _ => None
      end
  | _ => Some cloud_config
  end.

(** [set_cloud_config(key, value)]: the item assignment works in place,
    on the dictionary that ["cloud_storage"] holds, shared or not; on
    anything else than a dictionary it raises [TypeError]. *)
Definition set_cloud_config (L : Lib) (json_dump : dict -> bytes) (key : str)
    (v : value) (o : ConfigObject) : M (ConfigObject * bool) :=
  let cs := lit "cloud_storage" in
  o' <- match config o !! cs, deref o cs with
        | None, _ =>
            ret {| default_config := default_config o;
                   config := <[cs := Own (VDict {[ key := v ]})]> (config o) |}
        | Some (Own _), Some (VDict d) =>
            ret {| default_config := default_config o;
                   config := <[cs := Own (VDict (<[key := v]> d))]> (config o) |}
        | Some Shared, Some (VDict d) =>
            ret {| default_config := <[cs := VDict (<[key := v]> d)]> (default_config o);
                   config := config o |}
        | _, _ => raise TypeError
        end;;
  saved <- save L json_dump o';;
  ret (o', saved).

(** [reset()] *)
Definition reset (L : Lib) (json_dump : dict -> bytes) (o : ConfigObject)
  : M (ConfigObject * bool) :=
  let o' := {| default_config := default_config o;
               config := copy_of_defaults o |} in
  saved <- save L json_dump o';;
  ret (o', saved).

End ConfigDict.

(** ** Laws of the libraries *)

Definition octets (b : bytes) : Prop := Forall (fun x => 0 <= x < 256) b.
(** Text that [str.encode()] accepts: no lone surrogate. *)
Definition encodable (s : str) : Prop := Forall (fun c => is_scalar c = true) s.

(** PBKDF2 with [length=32] yields 32 octets. *)
Definition pbkdf2_law (L : Lib) : Prop :=
  forall pw salt,
    length (pbkdf2_hmac_sha256 L pw salt) = 32%nat
    /\ octets (pbkdf2_hmac_sha256 L pw salt).

(** Fernet accepts the url-safe base64 form of any 32 octets as a key, and
    under an accepted key [decrypt] undoes [encrypt]. *)
Definition fernet_law (L : Lib) : Prop :=
  forall raw, length raw = 32%nat -> octets raw ->
    fernet_key_ok L (Codec.urlsafe_b64encode raw) = true
    /\ forall iv t p,
        fernet_decrypt L (Codec.urlsafe_b64encode raw)
          (fernet_encrypt L (Codec.urlsafe_b64encode raw) iv t p) = Some p.

(** The empty byte string is not a Fernet token. *)
Definition fernet_rejects_empty (L : Lib) : Prop :=
  forall k, fernet_decrypt L k [] = None.

(** ** Predicates on methods *)

(** The method returns a value, whatever the state: it cannot raise. *)
Definition never_raises {A} (m : M A) : Prop :=
  forall st, exists st' a, m st = (st', Ret a).

(** The container [c] decrypts under the key derived from [master_password]
    and the salt it carries, and the plaintext parses as the vault [v]. *)
Definition opens_as (L : Lib) (master_password : str) (c : bytes) (v : vault)
  : Prop :=
  (16 <= length c)%nat
  /\ exists pw b text,
      Codec.utf8_encode master_password = Some pw
      /\ let k := Codec.urlsafe_b64encode (pbkdf2_hmac_sha256 L pw (take 16 c)) in
         fernet_key_ok L k = true
         /\ fernet_decrypt L k (drop 16 c) = Some b
         /\ Codec.utf8_decode b = Some text
         /\ text <> []
         /\ json_loads L text = Some v.

(** The premise of the cache fall-back: replication is on, the storage
    kind has a folder, and that folder is not on the file system. *)
Definition remote_folder_missing (st : State) : Prop :=
  let cs := cloud_storage (config st) in
  enabled cs = true
  /\ exists folder,
      (storage_type cs = Codec.lit "network_drive" /\ folder = network_drive_path cs
       \/ storage_type cs ∈ [Codec.lit "baidu_netdisk"; Codec.lit "onedrive";
                             Codec.lit "dropbox"]
          /\ folder = remote_path cs)
      /\ Os.is_file folder st = false /\ Os.is_dir folder st = false.

(** The fall-back as the specification words it: the cache folder exists
    afterwards and the result is the cache folder joined with the base
    file name. *)
Definition falls_back_to_cache (L : Lib) (st : State) : Prop :=
  remote_folder_missing st ->
  let cache_path := local_cache_path (cloud_storage (config st)) in
  exists st',
    Config.get_effective_database_path L st
    = (st', Ret (path_join L cache_path (Config.db_filename L (config st))))
    /\ Os.is_dir cache_path st' = true.

(** The object without the time stamp that [save] refreshes. *)
Definition unstamped (d : DbState) : DbState :=
  mutate_data (with_last_modified None) d.

(** The method takes the [PasswordDatabase] object of any state to one
    that [R] relates to it, whether it returns or raises. *)
Definition respects {A} (R : DbState -> DbState -> Prop) (m : M A) : Prop :=
  forall st, R (db st) (db (m st).1).

(** Nothing of the object changes but the [last_modified] stamp. *)
Definition same_unstamped (d d' : DbState) : Prop := unstamped d' = unstamped d.
Abbreviation keeps_db m := (respects same_unstamped m).

(** The fallback category stays in the category list. *)
Definition keeps_fallback (d d' : DbState) : Prop :=
  PasswordDatabase.OTHER ∈ db_categories d ->
  PasswordDatabase.OTHER ∈ db_categories d'.

(** The first record of [l] that carries the identifier [i]. *)
Fixpoint lookup_id (i : str) (l : list entry) : option entry :=
  match l with
  | [] => None
  | pwd :: l' =>
      if bool_decide (pwd !! "id" = Some i) then Some pwd else lookup_id i l'
  end.

(** Records are keyed by identifier: each has one, no two share one. *)
Abbreviation idof := (fun pwd : entry => pwd !! "id").
Definition keyed_by_id (l : list entry) : Prop :=
  Forall (fun pwd : entry => is_Some (pwd !! "id")) l
  /\ NoDup (map idof l).

(** The comparison of lines 508-511 came out as "imported is later". *)
Definition later (L : Lib) (pwd existing_pwd : entry) : bool :=
  match PasswordDatabase.imported_is_later L pwd existing_pwd with
  | Ret true => true
  | _ => false
  end.

(** The list that the loop of [merge_passwords] leaves, as a function of
    the list it starts from. *)
Fixpoint merged (L : Lib) (existing_ids : list str) (imported cur : list entry)
  : outcome (list entry) :=
  match imported with
  | [] => Ret cur
  | pwd :: rest =>
      match PasswordDatabase.item pwd "id" with
      | Raise e => Raise e
      | Ret pid =>
          if bool_decide (pid ∉ existing_ids)
          then merged L existing_ids rest (cur ++ [pwd])
          else
            match PasswordDatabase.merge_existing L pwd pid cur with
            | Raise e => Raise e
            | Ret m => merged L existing_ids rest m
            end
      end
  end.

(** The object keeps its list of defaults, and keeps sharing it or not. *)
Definition same_defaults (d d' : DbState) : Prop :=
  default_categories d' = default_categories d.
Definition same_sharing (d d' : DbState) : Prop :=
  categories_shared d' = categories_shared d
  /\ default_categories d' = default_categories d.

(** ** Sequences of store operations *)

Inductive store_op :=
  | AddCategory (category : str)
  | DeleteCategory (category : str)
  | RenameCategory (old_name new_name : str)
  | AddPassword (password_data : entry)
  | UpdatePassword (password_id : str) (password_data : entry)
  | DeletePassword (password_id : str)
  | UpdateTotpSecret (secret : option str) (user : str)
  | ImportData (import_path password : str)
  | ExportData (export_path password : str).

Definition run_op (L : Lib) (op : store_op) : M bool :=
  match op with
  | AddCategory c => PasswordDatabase.add_category L c
  | DeleteCategory c => PasswordDatabase.delete_category L c
  | RenameCategory o n => PasswordDatabase.rename_category L o n
  | AddPassword d => PasswordDatabase.add_password L d
  | UpdatePassword i d => PasswordDatabase.update_password L i d
  | DeletePassword i => PasswordDatabase.delete_password L i
  | UpdateTotpSecret s u => PasswordDatabase.update_totp_secret L s u
  | ImportData p w => PasswordDatabase.import_data L p w
  | ExportData p w => PasswordDatabase.export_data L p w
  end.

(** The state after the operations, one after the other, whatever each
    returns or raises. *)
Fixpoint run_ops (L : Lib) (ops : list store_op) (st : State) : State :=
  match ops with
  | [] => st
  | op :: ops' => run_ops L ops' (run_op L op st).1
  end.

(** The operation is not a deletion or a renaming of the fallback
    category itself. *)
Definition spares_fallback (op : store_op) : Prop :=
  match op with
  | DeleteCategory c => c <> PasswordDatabase.OTHER
  | RenameCategory o _ => o <> PasswordDatabase.OTHER
  | _ => True
  end.

(** The fallback invariant as the specification states it, for one
    creation and one sequence of operations. *)
Definition fallback_always_exists (L : Lib) (db_path_arg master_password : str)
    (totp : option str) (user : str) (st : State) (ops : list store_op) : Prop :=
  forall st1,
    PasswordDatabase.create L db_path_arg master_password totp user st
    = (st1, Ret true) ->
    PasswordDatabase.OTHER ∈ db_categories (db (run_ops L ops st1)).


(** The category names stay distinct. *)
Definition keeps_distinct (d d' : DbState) : Prop :=
  NoDup (db_categories d) -> NoDup (db_categories d').

(** ** Predicates for the round trips *)

(** [json.loads] undoes [json.dumps] on the vault [v], whose text is not
    empty. *)
Definition json_law (L : Lib) (v : vault) : Prop :=
  json_loads L (json_dumps L v) = Some v /\ json_dumps L v <> [].

(** The object holds a 16-octet salt and the key that [generate_key]
    derives from [master_password] and that salt: the state of an object
    after [create] or a successful [open] with [master_password]. *)
Definition keyed_with (L : Lib) (master_password : str) (d : DbState) : Prop :=
  exists pw slt,
    Codec.utf8_encode master_password = Some pw
    /\ salt d = Some slt /\ length slt = 16%nat
    /\ key d = Some (Codec.urlsafe_b64encode (pbkdf2_hmac_sha256 L pw slt)).

(** The stored second-factor secret, if any, is the supplied one: what the
    check of [open] compares, written as a proposition. *)
Definition second_factor_agrees (totp : option str) (master_password : str) : Prop :=
  match totp with
  | Some stored => stored = [] \/ Codec.strip master_password = Codec.strip stored
  | None => True
  end.

(** The method leaves a component of the state as it is, whether it
    returns or raises. *)
Definition leaves {A X} (part : State -> X) (m : M A) : Prop :=
  forall st, part (m st).1 = part st.

(** A component of the three objects: it reads neither the file system
    nor the clock nor the entropy source, so no operating system call
    changes it. *)
Class Inner {X} (part : State -> X) : Prop :=
  inner : forall st st',
    config st' = config st -> cloud_sync st' = cloud_sync st -> db st' = db st ->
    part st' = part st.

(** ** The dictionaries of [Config] *)

(** Every key of [self.config] that shares its value with the defaults
    has a default: an invariant of the class. *)
Definition well_formed (o : ConfigDict.ConfigObject) : Prop :=
  forall key,
    ConfigDict.config o !! key = Some ConfigDict.Shared ->
    is_Some (ConfigDict.default_config o !! key).

(** ** A concrete instance

    Small stand-ins for the libraries, with POSIX-like paths, and a few
    states; the closed examples below are evaluated on them. *)

Module Sample.

Import Codec.

(** The text before and after the last [sep] of [s]. *)
Fixpoint rsplit (sep : Z) (s : str) : option (str * str) :=
  match s with
  | [] => None
  | c :: s' =>
      match rsplit sep s' with
      | Some (a, b) => Some (c :: a, b)
      | None => if c =? sep then Some ([], s') else None
      end
  end.

Fixpoint parse_decimal (s : str) (acc : Z) : option Z :=
  match s with
  | [] => Some acc
  | c :: s' =>
      if (48 <=? c) && (c <=? 57) then parse_decimal s' (acc * 10 + (c - 48))
      else None
  end.

Definition sample_vault (secret : option str) : vault :=
  {| categories := [lit "Bank"; lit "其他"];
     passwords := [{[ "id" := lit "1700000000000"; "title" := lit "Example";
                      "category" := lit "Bank";
                      "created_at" := lit "100"; "updated_at" := lit "100" ]}];
     last_modified := Some (lit "100");
     version := lit "1.0";
     totp_secret := secret;
     username := lit "u" |}.

Definition lib : Lib :=
  {| pbkdf2_hmac_sha256 := fun pw salt =>
       take 32 (map (fun x => x mod 256) (pw ++ salt) ++ replicate 32 0);
     fernet_key_ok := fun k => (length k =? 44)%nat;
     fernet_encrypt := fun k _ _ p => 128 :: k ++ p;
     fernet_decrypt := fun k tok =>
       match tok with
       | 128 :: r =>
           if bool_decide (take (length k) r = k)
           then Some (drop (length k) r) else None
       | _ => None
       end;
     json_dumps := fun v =>
       match totp_secret v with Some s => 49 :: s | None => [48] end;
     json_loads := fun s =>
       match s with
       | 49 :: t => Some (sample_vault (Some t))
       | [48] => Some (sample_vault None)
       | _ => None
       end;
     config_dumps := fun _ => [];
     isoformat := str_of_int;
     strftime_compact := str_of_int;
     fromisoformat := fun s =>
       match s with
       | [] => None
       | _ => (fun z => {| dt_micros := z; dt_utcoffset := None |})
                <$> parse_decimal s 0
       end;
     path_join := fun a b => a ++ 47 :: b;
     basename := fun s => match rsplit 47 s with Some (_, b) => b | None => s end;
     dirname := fun s => match rsplit 47 s with Some (a, _) => a | None => [] end;
     abspath := fun s => s;
     normpath := fun s => s;
     splitext_root := fun s => match rsplit 46 s with Some (a, _) => a | None => s end;
     expanduser := fun s => s;
     rename_replaces := false |}.

Definition cloud_off : CloudStorage :=
  {| enabled := false; storage_type := lit "local"; sync_on_save := true;
     sync_on_open := true; auto_sync_interval := 300;
     conflict_resolution := lit "newer"; local_cache_path := [];
     remote_path := []; network_drive_path := [];
     last_sync_time := None; sync_enabled := true |}.

(** Replication to the network drive [/nas], cache folder [cache]. *)
Definition cloud_nas (cache : str) : CloudStorage :=
  {| enabled := true; storage_type := lit "network_drive"; sync_on_save := true;
     sync_on_open := true; auto_sync_interval := 300;
     conflict_resolution := lit "newer"; local_cache_path := cache;
     remote_path := []; network_drive_path := lit "/nas";
     last_sync_time := None; sync_enabled := true |}.

Definition config_with (cs : CloudStorage) : ConfigState :=
  {| database_path := lit "/db/v.db"; backup_enabled := true; backup_count := 5;
     backup_path := []; cloud_storage := cs;
     config_dir := lit "/home/u/.passwordmanager";
     config_file := lit "/home/u/.passwordmanager/config.json" |}.

Definition no_faults : syscall -> option exn := fun _ => None.

Definition state_of (fl : list (str * bytes)) (dl : list str)
    (flt : syscall -> option exn) (c : ConfigState) (d : DbState) : State :=
  {| files := list_to_map
                (map (fun x => (x.1, {| content := x.2; mtime := 50 |})) fl);
     dirs := list_to_map (map (fun p => (p, 10)) dl);
     faults := flt; clock := 1000;
     urandom_source := fun i => Z.of_nat i * 37 + 11; urandom_pos := 0;
     config := c;
     cloud_sync := {| is_syncing := false; auto_sync_timer := false |};
     db := d |}.

Definition secret : str := lit "JBSWY3DPEHPK3PXP".
Definition other_secret : str := lit "KRSXG5CTMVRXEZLU".
Definition salt16 : bytes := [1; 2; 3; 4; 5; 6; 7; 8; 9; 10; 11; 12; 13; 14; 15; 16].

Definition key_of (s : str) : bytes :=
  urlsafe_b64encode (pbkdf2_hmac_sha256 lib (default [] (utf8_encode s)) salt16).

(** The container of [sample_vault stored] under the key of [s]. *)
Definition container (s : str) (stored : option str) : bytes :=
  salt16 ++ fernet_encrypt lib (key_of s) [] 0
              (default [] (utf8_encode (json_dumps lib (sample_vault stored)))).

(** An object on which [open] succeeded with [secret]. *)
Definition opened_db : DbState :=
  {| db_path := Some (lit "/db/v.db"); key := Some (key_of secret);
     salt := Some salt16; data := sample_vault (Some secret);
     categories_shared := false;
     default_categories := default_categories PasswordDatabase.init;
     last_error := None |}.

(** A fresh object next to an existing database folder. *)
Definition st_fresh : State :=
  state_of [] [lit "/db"] no_faults (config_with cloud_off) PasswordDatabase.init.

(** The state after [create] on the fresh object. *)
Definition st_created : State :=
  (PasswordDatabase.create lib (lit "/db/v.db") secret (Some secret) (lit "u")
     st_fresh).1.

(** An open vault whose container is on disk. *)
Definition st_open : State :=
  state_of [(lit "/db/v.db", container secret (Some secret))] [lit "/db"]
    no_faults (config_with cloud_off) opened_db.


(** A file of five octets where the container should be. *)
Definition st_short : State :=
  state_of [(lit "/db/v.db", [1; 2; 3; 4; 5])] [lit "/db"]
    no_faults (config_with cloud_off) PasswordDatabase.init.

(** Every copy fails: neither the backup nor the push can be made. *)
Definition copies_fail : syscall -> option exn :=
  fun c => match c with SysCopy _ _ => Some PermissionError | _ => None end.
Definition st_save : State :=
  state_of [(lit "/db/v.db", container secret (Some secret))]
    [lit "/db"; lit "/nas"] copies_fail (config_with (cloud_nas [])) opened_db.

(** The replica holds an older container and renaming onto it fails. *)
Definition renames_fail : syscall -> option exn :=
  fun c => match c with SysRename _ _ => Some PermissionError | _ => None end.
Definition st_push : State :=
  state_of [(lit "/db/v.db", container secret (Some secret));
            (lit "/nas/v.db", container secret None)]
    [lit "/db"; lit "/nas"] renames_fail (config_with (cloud_nas [])) opened_db.

(** The network drive is not mounted; with and without a cache folder. *)
Definition st_cache : State :=
  state_of [(lit "/db/v.db", container secret (Some secret))] [lit "/db"]
    no_faults (config_with (cloud_nas (lit "/cache"))) opened_db.
Definition st_no_cache : State :=
  state_of [(lit "/db/v.db", container secret (Some secret))] [lit "/db"]
    no_faults (config_with (cloud_nas [])) opened_db.


(** *** A serializer that round-trips

    A second stand-in for [json]: every text and every list is written
    with its length in front, so that any vault can be read back. *)

Definition text_of_key (k : string) : str :=
  map (fun a => Z.of_N (N_of_ascii a)) (list_ascii_of_string k).
Definition key_of_text (s : str) : string :=
  string_of_list_ascii (map (fun z => ascii_of_N (Z.to_N z)) s).

Definition put_str (s : str) : str := Z.of_nat (length s) :: s.
Definition put_opt (o : option str) : str :=
  match o with
  | None => [0]
  | Some s => 1 :: put_str s
  end.
Definition put_list {A} (put : A -> str) (l : list A) : str :=
  Z.of_nat (length l) :: concat (map put l).
Definition put_entry (e : entry) : str :=
  put_list (fun kv : string * str => put_str (text_of_key kv.1) ++ put_str kv.2)
    (map_to_list e).

Definition wire_dumps (v : vault) : str :=
  put_list put_str (categories v) ++ put_list put_entry (passwords v)
  ++ put_opt (last_modified v) ++ put_str (version v)
  ++ put_opt (totp_secret v) ++ put_str (username v).

Definition get_str (s : str) : option (str * str) :=
  match s with
  | n :: r =>
      if (0 <=? n) && (Z.to_nat n <=? length r)%nat
      then Some (take (Z.to_nat n) r, drop (Z.to_nat n) r) else None
  | [] => None
  end.
Definition get_opt (s : str) : option (option str * str) :=
  match s with
  | 0 :: r => Some (None, r)
  | 1 :: r =>
      match get_str r with
      | Some (x, r') => Some (Some x, r')
      | None => None
      end
  | _ => None
  end.
Fixpoint get_n {A} (get : str -> option (A * str)) (n : nat) (s : str)
  : option (list A * str) :=
  match n with
  | O => Some ([], s)
  | S n' =>
      match get s with
      | Some (x, r) =>
          match get_n get n' r with
          | Some (l, r') => Some (x :: l, r')
          | None => None
          end
      | None => None
      end
  end.
Definition get_list {A} (get : str -> option (A * str)) (s : str)
  : option (list A * str) :=
  match s with
  | n :: r => if 0 <=? n then get_n get (Z.to_nat n) r else None
  | [] => None
  end.
Definition get_pair (s : str) : option ((string * str) * str) :=
  match get_str s with
  | Some (k, r) =>
      match get_str r with
      | Some (x, r') => Some ((key_of_text k, x), r')
      | None => None
      end
  | None => None
  end.
Definition get_entry (s : str) : option (entry * str) :=
  match get_list get_pair s with
  | Some (l, r) => Some (list_to_map l, r)
  | None => None
  end.

Definition wire_loads (s : str) : option vault :=
  match get_list get_str s with
  | Some (cats, r1) =>
      match get_list get_entry r1 with
      | Some (pwds, r2) =>
          match get_opt r2 with
          | Some (lm, r3) =>
              match get_str r3 with
              | Some (ver, r4) =>
                  match get_opt r4 with
                  | Some (totp, r5) =>
                      match get_str r5 with
                      | Some (user, []) =>
                          Some {| categories := cats; passwords := pwds;
                                  last_modified := lm; version := ver;
                                  totp_secret := totp; username := user |}
                      | _ => None
                      end
                  | None => None
                  end
              | None => None
              end
          | None => None
          end
      | None => None
      end
  | None => None
  end.

(** The libraries of [lib] with this serializer. *)
Definition wire_lib : Lib :=
  {| pbkdf2_hmac_sha256 := pbkdf2_hmac_sha256 lib;
     fernet_key_ok := fernet_key_ok lib;
     fernet_encrypt := fernet_encrypt lib;
     fernet_decrypt := fernet_decrypt lib;
     json_dumps := wire_dumps;
     json_loads := wire_loads;
     config_dumps := config_dumps lib;
     isoformat := isoformat lib;
     strftime_compact := strftime_compact lib;
     fromisoformat := fromisoformat lib;
     path_join := path_join lib;
     basename := basename lib;
     dirname := dirname lib;
     abspath := abspath lib;
     normpath := normpath lib;
     splitext_root := splitext_root lib;
     expanduser := expanduser lib;
     rename_replaces := rename_replaces lib |}.

(** *** More states *)

(** The state after [create] with the round-tripping serializer. *)
Definition st_created_wire : State :=
  (PasswordDatabase.create wire_lib (lit "/db/v.db") secret (Some secret) (lit "u")
     st_fresh).1.


(** The replica holds an older container and nothing fails. *)
Definition st_replica : State :=
  state_of [(lit "/db/v.db", container secret (Some secret));
            (lit "/nas/v.db", container secret None)]
    [lit "/db"; lit "/nas"] no_faults (config_with (cloud_nas [])) opened_db.

(** The same, with the replica the more recent file. *)
Definition st_replica_ahead : State :=
  upd_files (<[lit "/nas/v.db" := {| content := container secret None;
                                     mtime := 60 |}]> (files st_replica))
    st_replica.

(** The replica cannot be removed. *)
Definition removes_fail : syscall -> option exn :=
  fun c => match c with SysRemove _ => Some PermissionError | _ => None end.
Definition st_push_locked : State :=
  state_of [(lit "/db/v.db", container secret (Some secret));
            (lit "/nas/v.db", container secret None)]
    [lit "/db"; lit "/nas"] removes_fail (config_with (cloud_nas [])) opened_db.

(** The container cannot be read. *)
Definition reads_fail : syscall -> option exn :=
  fun c => match c with SysRead _ => Some PermissionError | _ => None end.
Definition st_unreadable : State :=
  state_of [(lit "/db/v.db", container secret (Some secret))] [lit "/db"]
    reads_fail (config_with cloud_off) PasswordDatabase.init.

(** A container whose plaintext is no serialized vault. *)
Definition st_garbled : State :=
  state_of [(lit "/db/v.db",
             salt16 ++ fernet_encrypt lib (key_of secret) [] 0 (lit "{"))]
    [lit "/db"] no_faults (config_with cloud_off) PasswordDatabase.init.

(** A configuration file that changes the theme, switches replication
    on, and carries a key that the program does not know. *)
Definition loaded_config : ConfigDict.dict :=
  {[ lit "theme" := ConfigDict.VStr (lit "light");
     lit "cloud_storage" :=
       ConfigDict.VDict {[ lit "enabled" := ConfigDict.VBool true;
                           lit "unknown" := ConfigDict.VInt 1 ]};
     lit "plugin" := ConfigDict.VStr (lit "x") ]}.

End Sample.

(** * Codecs *)

Module CodecFacts.
Import Codec.

(** Decide the comparisons of the goal one by one, closing the impossible
    branches by linear arithmetic. *)
Ltac zcases :=
  repeat (match goal with
          | |- context [?a <=? ?b] => destruct (Z.leb_spec a b)
          | |- context [?a <? ?b] => destruct (Z.ltb_spec a b)
          | |- context [?a =? ?b] => destruct (Z.eqb_spec a b)
          end; try lia; cbn [andb orb negb]).

Lemma utf8_decode_encode_char c b rest :
  utf8_encode_char c = Some b ->
  utf8_decode (b ++ rest) = cons c <$> utf8_decode rest.
Proof.
  unfold utf8_encode_char, is_surrogate.
  repeat case_match; intros [= <-]; cbn [app utf8_decode];
    unfold is_cont, is_surrogate in *.
  all: repeat match goal with
       | H : (_ <? _) = _ |- _ => first [apply Z.ltb_lt in H | apply Z.ltb_ge in H]
       | H : (_ && _) = false |- _ => apply andb_false_iff in H; rewrite Z.leb_gt, Z.leb_gt in H
       end.
  all: Z.div_mod_to_equations; zcases; try (f_equal; f_equal; lia).
Qed.

Lemma utf8_roundtrip s b :
  utf8_encode s = Some b -> utf8_decode b = Some s.
Proof.
  revert b. induction s as [|c s IH]; intros b; cbn [utf8_encode].
  - intros [= <-]. reflexivity.
  - destruct (utf8_encode_char c) as [bc|] eqn:Hc; [|discriminate].
    destruct (utf8_encode s) as [bs|]; [|discriminate].
    intros [= <-]. rewrite (utf8_decode_encode_char _ _ _ Hc), (IH bs); reflexivity.
Qed.

Lemma utf8_encode_char_scalar c :
  is_scalar c = true -> exists b, utf8_encode_char c = Some b.
Proof.
  unfold is_scalar, utf8_encode_char. intros H.
  apply andb_true_iff in H as [H Hs]. apply andb_true_iff in H as [H0 H1].
  apply negb_true_iff in Hs. rewrite Hs.
  apply Z.leb_le in H0. apply Z.ltb_lt in H1.
  zcases; eauto.
Qed.

Lemma utf8_encode_total s : encodable s -> exists b, utf8_encode s = Some b.
Proof.
  induction 1 as [|c s Hc _ [bs IH]]; cbn [utf8_encode]; [eauto|].
  destruct (utf8_encode_char_scalar c Hc) as [bc ->]. rewrite IH. eauto.
Qed.

(** Conversely a lone surrogate makes [str.encode()] raise. *)
Lemma utf8_encode_surrogate s c :
  c ∈ s -> is_surrogate c = true -> utf8_encode s = None.
Proof.
  intros Hin Hs. induction s as [|x s IH]; [by apply elem_of_nil in Hin|].
  cbn [utf8_encode]. apply elem_of_cons in Hin as [<-|Hin].
  - assert (utf8_encode_char c = None) as ->; [|done].
    unfold utf8_encode_char. rewrite Hs. unfold is_surrogate in Hs.
    apply andb_true_iff in Hs as [H0 H1]. apply Z.leb_le in H0, H1.
    zcases; reflexivity.
  - rewrite (IH Hin). by destruct (utf8_encode_char x).
Qed.

End CodecFacts.

Module EncryptionFacts.
Import Codec CodecFacts Encryption.

(** C2.  For every secret, salt and serialized plaintext (texts without
    lone surrogates, which is what [str.encode()] accepts), the key that
    [generate_key] derives from the secret and the salt is accepted by the
    cipher, [encrypt] of the plaintext under it returns a token, and
    [decrypt] of that token under the same key returns exactly the
    plaintext. *)
Theorem encrypt_decrypt_roundtrip (L : Lib) (secret plaintext : str)
    (salt0 : bytes) (st : State) :
  pbkdf2_law L -> fernet_law L ->
  encodable secret -> encodable plaintext ->
  exists k st1 tok st2,
    generate_key L secret (Some salt0) st = (st1, Ret (k, salt0))
    /\ encrypt L plaintext k st1 = (st2, Ret tok)
    /\ forall st3, decrypt L tok k st3 = (st3, Ret (Some plaintext)).
Proof.
  intros Hkdf Hfernet HS HV.
  destruct (utf8_encode_total secret HS) as [pw Hpw].
  destruct (utf8_encode_total plaintext HV) as [b Hb].
  destruct (Hkdf pw salt0) as [Hlen Hoct].
  destruct (Hfernet _ Hlen Hoct) as [Hok Hdec].
  set (k := urlsafe_b64encode (pbkdf2_hmac_sha256 L pw salt0)) in *.
  exists k, st.
  unfold generate_key, encrypt, decrypt, bind, ret, try_except, raise.
  rewrite Hpw, Hok, Hb. cbn.
  eexists _, _. split; [reflexivity|]. split; [reflexivity|].
  intros st3. rewrite Hdec, (utf8_roundtrip _ _ Hb). reflexivity.
Qed.

End EncryptionFacts.

(** * Methods that cannot raise *)

(** One step of a method: the monad's operations and the field reads. *)
Ltac msimpl :=
  repeat (progress
            (unfold bind, ret, raise, gets, modify, when, need, try_except,
               try_finally in *;
             cbn [fst snd negb andb orb
                  files dirs faults clock urandom_source urandom_pos config
                  cloud_sync db
                  upd_files upd_dirs upd_clock upd_urandom_pos upd_config
                  upd_cloud_sync upd_db] in *)).

(** Run a method on a state described by equations in the context. *)
Ltac mrun :=
  repeat first
    [ progress msimpl
    | match goal with
      | H : ?l = _ |- context [?l] => rewrite H
      end
    | rewrite lookup_insert_eq
    | rewrite lookup_delete_eq
    | rewrite lookup_insert_ne by done
    | rewrite lookup_delete_ne by done
    | rewrite bool_decide_eq_false_2 by done
    | rewrite bool_decide_eq_true_2 by done ].

Module MonadFacts.

Lemma never_raises_ret {A} (a : A) : never_raises (ret a).
Proof. intros st. by exists st, a. Qed.

Lemma never_raises_gets {A} (f : State -> A) : never_raises (gets f).
Proof. intros st. by exists st, (f st). Qed.

Lemma never_raises_modify f : never_raises (modify f).
Proof. intros st. by exists (f st), tt. Qed.

Lemma never_raises_bind {A B} (m : M A) (k : A -> M B) :
  never_raises m -> (forall a, never_raises (k a)) -> never_raises (bind m k).
Proof.
  intros Hm Hk st. destruct (Hm st) as (st1 & a & E).
  destruct (Hk a st1) as (st2 & b & E2).
  exists st2, b. unfold bind. by rewrite E.
Qed.

(** A handler that cannot raise makes the whole [try] statement safe. *)
Lemma never_raises_try_except {A} (m : M A) (h : exn -> M A) :
  (forall e, never_raises (h e)) -> never_raises (try_except m h).
Proof.
  intros Hh st. unfold try_except.
  destruct (m st) as [st1 [a|e]]; [by exists st1, a | apply Hh].
Qed.

Lemma never_raises_try_finally {A} (m : M A) (f : M unit) :
  never_raises m -> never_raises f -> never_raises (try_finally m f).
Proof.
  intros Hm Hf st. destruct (Hm st) as (st1 & a & E).
  destruct (Hf st1) as (st2 & [] & E2).
  exists st2, a. unfold try_finally. by rewrite E, E2.
Qed.

Lemma never_raises_when b m : never_raises m -> never_raises (when b m).
Proof. destruct b; [done | intros _; apply never_raises_ret]. Qed.

Lemma never_raises_if {A} (b : bool) (m1 m2 : M A) :
  never_raises m1 -> never_raises m2 -> never_raises (if b then m1 else m2).
Proof. by destruct b. Qed.

End MonadFacts.

Create HintDb safe.

#[export] Hint Resolve MonadFacts.never_raises_ret MonadFacts.never_raises_gets
  MonadFacts.never_raises_modify MonadFacts.never_raises_when
  MonadFacts.never_raises_if : safe.
#[export] Hint Extern 2 (never_raises (bind _ _)) =>
  apply MonadFacts.never_raises_bind; [|intros ?] : safe.
#[export] Hint Extern 1 (never_raises (try_except _ _)) =>
  apply MonadFacts.never_raises_try_except; intros ? : safe.
#[export] Hint Extern 1 (never_raises (try_finally _ _)) =>
  apply MonadFacts.never_raises_try_finally : safe.

Module ConfigFacts.
Import Config.

Lemma config_save_never_raises L : never_raises (save L).
Proof. unfold save. auto with safe. Qed.

Lemma set_database_path_never_raises L v : never_raises (set_database_path L v).
Proof. unfold set_database_path. auto using config_save_never_raises with safe. Qed.

Lemma set_cloud_config_never_raises L v :
  never_raises (set_cloud_config_last_sync_time L v).
Proof. unfold set_cloud_config_last_sync_time. auto using config_save_never_raises with safe. Qed.

End ConfigFacts.

Module CloudSyncFacts.
Import CloudSyncManager.

(** [sync_to_remote] reports every failure through its result. *)
Lemma sync_to_remote_never_raises L p : never_raises (sync_to_remote L p).
Proof.
  unfold sync_to_remote, is_cloud_enabled, set_is_syncing.
  apply MonadFacts.never_raises_bind; [auto with safe|]. intros [|]; cbn [negb];
    auto 6 with safe.
Qed.

Lemma sync_from_remote_never_raises L p : never_raises (sync_from_remote L p).
Proof.
  unfold sync_from_remote, is_cloud_enabled, set_is_syncing.
  apply MonadFacts.never_raises_bind; [auto with safe|]. intros [|]; cbn [negb];
    auto 6 with safe.
Qed.

End CloudSyncFacts.

(** * The record store *)

Module PasswordDatabaseFacts.
Import PasswordDatabase.

(** ** Saving *)

(** Backup failures are swallowed. *)
Lemma _create_backup_never_raises L : never_raises (_create_backup L).
Proof.
  unfold _create_backup.
  apply MonadFacts.never_raises_bind; [auto with safe|].
  intros [|]; cbn [negb]; auto with safe.
Qed.

(** So is a failed push. *)
Lemma save_push_never_raises L : never_raises (save_push L).
Proof.
  unfold save_push, CloudSyncManager.is_cloud_enabled.
  apply MonadFacts.never_raises_bind; [auto with safe|]. intros en.
  apply MonadFacts.never_raises_bind; [auto with safe|]. intros on_save.
  destruct (en && on_save); [|auto with safe].
  apply MonadFacts.never_raises_bind; [auto with safe|]. intros p.
  apply MonadFacts.never_raises_bind;
    [apply CloudSyncFacts.sync_to_remote_never_raises | auto with safe].
Qed.

Lemma save_never_raises L : never_raises (save L).
Proof. unfold save. auto with safe. Qed.

(** The backup step can only raise on an object that has no path yet, and
    then the state is as before. *)
Lemma save_backup_outcome L st :
  (exists st', save_backup L st = (st', Ret tt))
  \/ (db_path (db st) = None /\ save_backup L st = (st, Raise TypeError)).
Proof.
  unfold save_backup, Os.path_exists. msimpl.
  destruct (db_path (db st)) as [p|] eqn:Hp; msimpl.
  - left. destruct (Os.is_file p st || Os.is_dir p st); msimpl; [|by eexists].
    destruct (_create_backup_never_raises L st) as (st' & [] & ->). by eexists.
  - by right.
Qed.

Lemma save_write_needs_path L enc st :
  db_path (db st) = None -> save_write L enc st = (st, Raise TypeError).
Proof. intros H. unfold save_write. msimpl. by rewrite H. Qed.

(** C8.  When the vault is stamped, serialized and encrypted
    ([save_prepare] returns) and the container is written to the
    authoritative path ([save_write] returns in the state the backup step
    leaves), [save] returns [True]: whatever fails while the backup copy is
    made or while the container is pushed to the replica is swallowed. *)
Theorem save_independent_of_backup_and_push (L : Lib) (st st1 st3 : State)
    (encrypted_data : bytes) :
  save_prepare L st = (st1, Ret encrypted_data) ->
  save_write L encrypted_data (save_backup L st1).1 = (st3, Ret tt) ->
  exists st', save L st = (st', Ret true).
Proof.
  intros Hprep Hwrite. unfold save, try_except, bind. rewrite Hprep.
  destruct (save_backup_outcome L st1) as [[st2 Hb]|[Hnone Hb]];
    rewrite Hb in Hwrite |- *; cbn [fst] in Hwrite.
  - rewrite Hwrite.
    destruct (save_push_never_raises L st3) as (st4 & [] & ->).
    by exists st4.
  - rewrite (save_write_needs_path _ _ _ Hnone) in Hwrite. discriminate.
Qed.

(** ** Unknown identifiers *)

(** No record of [l] carries the identifier. *)
Lemma find_by_id_absent password_id (l : list entry) i :
  Forall (fun pwd => exists pid, pwd !! "id" = Some pid /\ pid <> password_id) l ->
  find_by_id password_id l i = Ret None.
Proof.
  intros H. revert i. induction H as [|pwd l (pid & Hid & Hne) _ IH]; intros i.
  - reflexivity.
  - cbn [find_by_id]. unfold item. rewrite Hid.
    rewrite bool_decide_eq_false_2 by done. apply IH.
Qed.

(** C10.  For an identifier that no record of the vault carries,
    [update_password] and [delete_password] return [False] and leave the
    whole state as it was: the vault in memory, the file system (hence the
    container, the backups and the replica), the configuration. *)
Theorem unknown_id_is_rejected_without_effect (L : Lib) (st : State)
    (password_id : str) (password_data : entry) :
  Forall (fun pwd => exists pid, pwd !! "id" = Some pid /\ pid <> password_id)
    (passwords (data (db st))) ->
  update_password L password_id password_data st = (st, Ret false)
  /\ delete_password L password_id st = (st, Ret false).
Proof.
  intros H. unfold update_password, delete_password, lift. msimpl.
  by rewrite (find_by_id_absent _ _ _ H).
Qed.


(** ** Opening *)

Lemma open_load_handler_false (e : exn) st :
  exists st', (match e with
               | FileNotFoundError => set_error FILE_NOT_FOUND;;; ret false
               | PermissionError => set_error PERMISSION_DENIED;;; ret false
               | _ => set_error UNKNOWN_ERROR;;; ret false
               end) st = (st', Ret false).
Proof. destruct e; unfold set_error; msimpl; by eexists. Qed.

(** A successful [open_load] has read a container of at least 17 octets. *)
Lemma open_load_true_size L master_password st st' :
  fernet_rejects_empty L ->
  open_load L master_password st = (st', Ret true) ->
  exists path f,
    db_path (db st) = Some path /\ files st !! path = Some f
    /\ (17 <= length (content f))%nat.
Proof.
  intros Hempty. unfold open_load, try_except.
  match goal with |- context [match ?m st with _ => _ end] =>
    destruct (m st) as [st1 [r|e]] eqn:E end.
  2: { destruct (open_load_handler_false e st1) as (st2 & ->). discriminate. }
  intros [= -> ->]. revert E.
  unfold Os.path_exists, Os.read_file, Os.fault, Encryption.generate_key,
    Encryption.decrypt, set_error. msimpl.
  destruct (db_path (db st)) as [path|]; [|discriminate].
  destruct (Os.is_file path st || Os.is_dir path st); msimpl; [|discriminate].
  destruct (faults st (SysRead path)); [discriminate|].
  destruct (files st !! path) as [f|] eqn:Hf; [|by destruct (Os.is_dir path st)].
  destruct (length (content f) <? 16)%nat eqn:Hlen; [discriminate|].
  apply Nat.ltb_ge in Hlen.
  destruct (Codec.utf8_encode master_password) as [pw|]; [|discriminate].
  msimpl. intros E. exists path, f. split; [done|]. split; [done|].
  destruct (decide (length (content f) = 16%nat)) as [H16|]; [|lia].
  exfalso. revert E.
  rewrite (drop_ge (content f) 16) by lia. rewrite Hempty.
  by destruct (fernet_key_ok L _).
Qed.

(** C7.  A container shorter than the 16-octet salt makes [open] fail with
    [DATA_CORRUPTED]; and whenever [open] succeeds, the file it read holds
    at least 17 octets (a salt and a non-empty ciphertext). *)
Theorem minimum_container_size (L : Lib) (db_path_arg master_password : str)
    (st : State) :
  fernet_rejects_empty L ->
  (forall st1 path f,
      open_locate L db_path_arg st = (st1, Ret true) ->
      db_path (db st1) = Some path ->
      files st1 !! path = Some f ->
      faults st1 (SysRead path) = None ->
      (length (content f) < 16)%nat ->
      exists st', open L db_path_arg master_password st = (st', Ret false)
                  /\ last_error (db st') = Some DATA_CORRUPTED)
  /\ (forall st',
         open L db_path_arg master_password st = (st', Ret true) ->
         exists st1 path f,
           open_locate L db_path_arg st = (st1, Ret true)
           /\ db_path (db st1) = Some path
           /\ files st1 !! path = Some f
           /\ (17 <= length (content f))%nat).
Proof.
  intros Hempty. split.
  - intros st1 path f Hloc Hpath Hf Hread Hlen.
    unfold open, bind at 1. rewrite Hloc.
    unfold open_load, Os.path_exists, Os.read_file, Os.fault, set_error. msimpl.
    rewrite Hpath. msimpl. unfold Os.is_file. rewrite Hf. msimpl.
    rewrite Hread, Hf. apply Nat.ltb_lt in Hlen. rewrite Hlen. msimpl.
    by eexists.
  - intros st'. unfold open, bind at 1.
    destruct (open_locate L db_path_arg st) as [st1 [[|]|e]]; try discriminate.
    intros Hload.
    destruct (open_load_true_size _ _ _ _ Hempty Hload) as (path & f & ? & ? & ?).
    by exists st1, path, f.
Qed.


End PasswordDatabaseFacts.

Module PushFacts.
Import CloudSyncManager.

(** ** Pushing to the replica *)

Lemma temp_path_differs (remote suffix : str) :
  suffix <> [] -> remote ++ suffix <> remote.
Proof.
  intros Hne H. apply Hne.
  apply (app_inv_head remote). by rewrite app_nil_r.
Qed.

Lemma lit_tmp_nonempty : Codec.lit ".tmp" <> [].
Proof. by vm_compute. Qed.

(** C6: what the code does.  The push removes the remote target before it
    renames the temporary file onto it.  When the copy to [<target>.tmp]
    and the removal succeed and the rename fails, the push reports failure
    and the replica that existed before is gone; only the temporary file
    is left. *)
Theorem push_failing_at_rename_destroys_remote (L : Lib) (st : State)
    (local_file_path remote_path : str) (local_file remote_file : file)
    (e : exn) :
  let remote_dir := dirname L remote_path in
  let temp_path := remote_path ++ Codec.lit ".tmp" in
  enabled (cloud_storage (config st)) = true ->
  remote_path_of L (config st) = Some remote_path ->
  Os.is_dir remote_dir st = true ->
  Os.is_file remote_dir st = false ->
  faults st (SysAccess remote_dir) = None ->
  faults st (SysMakedirs remote_dir) = None ->
  files st !! local_file_path = Some local_file ->
  files st !! remote_path = Some remote_file ->
  truthy local_file_path = true ->
  local_file_path <> temp_path ->
  Os.is_dir temp_path st = false ->
  faults st (SysCopy local_file_path temp_path) = None ->
  faults st (SysRemove remote_path) = None ->
  faults st (SysRename temp_path remote_path) = Some e ->
  exists st',
    sync_to_remote L (Some local_file_path) st = (st', Ret false)
    /\ files st' !! remote_path = None
    /\ files st' !! temp_path = Some local_file.
Proof.
  intros remote_dir temp_path Hen Hremote Hdir Hnofile Hacc Hmk Hlocal Hrem
    Htruthy Hneq Htmpdir Hcopy Hremove Hrename.
  assert (temp_path <> remote_path) as Htmp
    by (apply temp_path_differs, lit_tmp_nonempty).
  unfold sync_to_remote, is_cloud_enabled, set_is_syncing, get_remote_path,
    check_remote_accessibility, get_remote_path, Os.path_exists, Os.access_w,
    Os.makedirs, Os.copy2, Os.remove, Os.rename, Os.fault.
  subst remote_dir temp_path. unfold Os.is_file, Os.is_dir in *. mrun.
  eexists. split; [reflexivity|]. msimpl. split.
  - apply lookup_delete_eq.
  - rewrite lookup_delete_ne by done. apply lookup_insert_eq.
Qed.

(** The other two places where the push can fail once the remote folder is
    reachable leave the replica as it was: a failing copy to the temporary
    file, and a failing removal of the old replica. *)
Lemma push_failing_at_copy_keeps_remote (L : Lib) (st : State)
    (local_file_path remote_path : str) (local_file : file) (e : exn) :
  enabled (cloud_storage (config st)) = true ->
  remote_path_of L (config st) = Some remote_path ->
  Os.is_dir (dirname L remote_path) st = true ->
  Os.is_file (dirname L remote_path) st = false ->
  faults st (SysAccess (dirname L remote_path)) = None ->
  faults st (SysMakedirs (dirname L remote_path)) = None ->
  files st !! local_file_path = Some local_file ->
  truthy local_file_path = true ->
  faults st (SysCopy local_file_path (remote_path ++ Codec.lit ".tmp")) = Some e ->
  exists st',
    sync_to_remote L (Some local_file_path) st = (st', Ret false)
    /\ files st' = files st.
Proof.
  intros Hen Hremote Hdir Hnofile Hacc Hmk Hlocal Htruthy Hcopy.
  unfold sync_to_remote, is_cloud_enabled, set_is_syncing, get_remote_path,
    check_remote_accessibility, get_remote_path, Os.path_exists, Os.access_w,
    Os.makedirs, Os.copy2, Os.remove, Os.rename, Os.fault.
  unfold Os.is_file, Os.is_dir in *. mrun.
  by eexists.
Qed.

(** A push that fails at the removal of the old replica returns [False]
    and leaves the replica as it was. *)
Lemma push_failing_at_remove_keeps_remote (L : Lib) (st : State)
    (local_file_path remote_path : str) (local_file remote_file : file)
    (e : exn) :
  enabled (cloud_storage (config st)) = true ->
  remote_path_of L (config st) = Some remote_path ->
  Os.is_dir (dirname L remote_path) st = true ->
  Os.is_file (dirname L remote_path) st = false ->
  faults st (SysAccess (dirname L remote_path)) = None ->
  faults st (SysMakedirs (dirname L remote_path)) = None ->
  files st !! local_file_path = Some local_file ->
  files st !! remote_path = Some remote_file ->
  truthy local_file_path = true ->
  local_file_path <> remote_path ++ Codec.lit ".tmp" ->
  Os.is_dir (remote_path ++ Codec.lit ".tmp") st = false ->
  faults st (SysCopy local_file_path (remote_path ++ Codec.lit ".tmp")) = None ->
  faults st (SysRemove remote_path) = Some e ->
  exists st',
    sync_to_remote L (Some local_file_path) st = (st', Ret false)
    /\ files st' !! remote_path = Some remote_file.
Proof.
  intros Hen Hremote Hdir Hnofile Hacc Hmk Hlocal Hrem Htruthy Hneq Htmpdir
    Hcopy Hremove.
  assert (remote_path ++ Codec.lit ".tmp" <> remote_path) as Htmp
    by (apply temp_path_differs, lit_tmp_nonempty).
  unfold sync_to_remote, is_cloud_enabled, set_is_syncing, get_remote_path,
    check_remote_accessibility, get_remote_path, Os.path_exists, Os.access_w,
    Os.makedirs, Os.copy2, Os.remove, Os.rename, Os.fault.
  unfold Os.is_file, Os.is_dir in *. mrun.
  eexists. split; [reflexivity|]. msimpl.
  by rewrite lookup_insert_ne.
Qed.

End PushFacts.

(** * Path resolution *)

Module PathFacts.
Import Config.

Lemma network_drive_is_no_cloud_kind :
  Codec.lit "network_drive"
  ∉ [Codec.lit "baidu_netdisk"; Codec.lit "onedrive"; Codec.lit "dropbox"].
Proof. apply (bool_decide_unpack _). by vm_compute. Qed.

(** C9, amended.  With replication enabled, a network-drive or
    remote-folder kind and a configured folder that does not exist: when
    [local_cache_path] is set and can be created, the result is that folder
    joined with the base file name, and the folder exists afterwards; when
    [local_cache_path] is empty nothing is created and the result is the
    configured [database_path], or [config_dir] joined with the base file
    name when that is empty too. *)
Theorem effective_path_without_remote_folder (L : Lib) (st : State) :
  remote_folder_missing st ->
  let cs := cloud_storage (config st) in
  let cache_path := local_cache_path cs in
  let db_filename := db_filename L (config st) in
  (truthy cache_path = true ->
   faults st (SysMakedirs cache_path) = None ->
   Os.is_file cache_path st = false ->
   exists st',
     get_effective_database_path L st = (st', Ret (path_join L cache_path db_filename))
     /\ Os.is_dir cache_path st' = true
     /\ files st' = files st)
  /\ (truthy cache_path = false ->
      get_effective_database_path L st
      = (st, Ret (if truthy (database_path (config st))
                  then database_path (config st)
                  else path_join L (config_dir (config st)) db_filename))).
Proof.
  intros (Hen & folder & Hkind & Hnofile & Hnodir) cs cache_path name.
  subst cs.
  assert (get_effective_database_path L st
          = (if truthy cache_path
             then (Os.makedirs cache_path;;; ret (path_join L cache_path name))
             else ret (if truthy (database_path (config st))
                       then database_path (config st)
                       else path_join L (config_dir (config st)) name)) st)
    as Hstep.
  { unfold get_effective_database_path, Os.path_exists. msimpl.
    rewrite Hen.
    destruct Hkind as [[Hk ->]|[Hk ->]].
    - rewrite bool_decide_eq_true_2 by done. msimpl.
      unfold Os.is_file, Os.is_dir in *. rewrite Hnofile, Hnodir, andb_false_r. reflexivity.
    - rewrite bool_decide_eq_false_2.
      2: { intros E. rewrite E in Hk. by apply network_drive_is_no_cloud_kind. }
      rewrite bool_decide_eq_true_2 by done. msimpl.
      unfold Os.is_file, Os.is_dir in *. rewrite Hnofile, Hnodir, andb_false_r. reflexivity. }
  rewrite Hstep. split.
  - intros -> Hmk Hfile. unfold Os.makedirs, Os.fault. msimpl.
    rewrite Hmk, Hfile. unfold Os.is_dir.
    destruct (dirs st !! cache_path) eqn:Hd.
    + exists st. by rewrite Hd.
    + eexists. split; [reflexivity|]. msimpl. by rewrite lookup_insert_eq.
  - by intros ->.
Qed.

End PathFacts.

(** * What a method leaves alone *)

Module FrameFacts.

#[global] Instance same_unstamped_preorder : PreOrder same_unstamped.
Proof.
  split; [by intros d | intros d1 d2 d3 H12 H23].
  unfold same_unstamped in *. congruence.
Qed.

#[global] Instance keeps_fallback_preorder : PreOrder keeps_fallback.
Proof.
  split; [intros d H; exact H | intros d1 d2 d3 H12 H23 H; apply H23, H12, H].
Qed.

Section Respects.
Context (R : DbState -> DbState -> Prop) `{!PreOrder R}.

Lemma respects_ret {A} (a : A) : respects R (ret a).
Proof. by intros st. Qed.

Lemma respects_raise {A} e : respects R (@raise A e).
Proof. by intros st. Qed.

Lemma respects_gets {A} (f : State -> A) : respects R (gets f).
Proof. by intros st. Qed.

Lemma respects_modify f :
  (forall st, R (db st) (db (f st))) -> respects R (modify f).
Proof. intros H st. apply H. Qed.

Lemma respects_bind {A B} (m : M A) (k : A -> M B) :
  respects R m -> (forall a, respects R (k a)) -> respects R (bind m k).
Proof.
  intros Hm Hk st. unfold bind. specialize (Hm st).
  destruct (m st) as [st1 [a|e]]; cbn [fst] in *; [|done].
  etrans; [exact Hm | apply Hk].
Qed.

Lemma respects_try_except {A} (m : M A) (h : exn -> M A) :
  respects R m -> (forall e, respects R (h e)) -> respects R (try_except m h).
Proof.
  intros Hm Hh st. unfold try_except. specialize (Hm st).
  destruct (m st) as [st1 [a|e]]; cbn [fst] in *; [done|].
  etrans; [exact Hm | apply Hh].
Qed.

Lemma respects_try_finally {A} (m : M A) (f : M unit) :
  respects R m -> respects R f -> respects R (try_finally m f).
Proof.
  intros Hm Hf st. unfold try_finally. specialize (Hm st).
  destruct (m st) as [st1 r]; cbn [fst] in *. specialize (Hf st1).
  destruct (f st1) as [st2 [[]|e]]; cbn [fst] in *; by etrans.
Qed.

Lemma respects_when b m : respects R m -> respects R (when b m).
Proof. destruct b; [done | intros _; apply respects_ret]. Qed.

Lemma respects_if {A} (b : bool) (m1 m2 : M A) :
  respects R m1 -> respects R m2 -> respects R (if b then m1 else m2).
Proof. by destruct b. Qed.

Lemma respects_need {A} (o : option A) : respects R (need o).
Proof. destruct o; [apply respects_ret | apply respects_raise]. Qed.

(** A step that leaves the object as it is (one that touches the file
    system, the clock, the entropy position or the configuration). *)
Lemma respects_step {A} (m : M A) :
  (forall st, db (m st).1 = db st) -> respects R m.
Proof. intros H st. by rewrite H. Qed.
End Respects.

(** A stronger relation carries over. *)
Lemma respects_weaken {A} (R1 R2 : DbState -> DbState -> Prop) (m : M A) :
  (forall d d', R1 d d' -> R2 d d') -> respects R1 m -> respects R2 m.
Proof. intros H Hm st. apply H, Hm. Qed.

End FrameFacts.

Create HintDb frame.

#[export] Hint Extern 0 (PreOrder _) => exact _ : frame.
#[export] Hint Resolve FrameFacts.respects_ret FrameFacts.respects_raise
  FrameFacts.respects_gets FrameFacts.respects_when FrameFacts.respects_if
  FrameFacts.respects_need : frame.
#[export] Hint Extern 2 (respects _ (bind _ _)) =>
  apply FrameFacts.respects_bind; try exact _; [|intros ?] : frame.
#[export] Hint Extern 2 (respects _ (try_except _ _)) =>
  apply FrameFacts.respects_try_except; try exact _; [|intros ?] : frame.
#[export] Hint Extern 2 (respects _ (try_finally _ _)) =>
  apply FrameFacts.respects_try_finally; try exact _ : frame.
#[export] Hint Extern 3 (respects _ (modify _)) =>
  apply FrameFacts.respects_modify; intros ?;
  solve [reflexivity | split; reflexivity] : frame.
#[export] Hint Extern 3 (respects _ (match ?x with _ => _ end)) =>
  destruct x : frame.

Module OsFrame.
Import Os.

Ltac os_step :=
  apply FrameFacts.respects_step; try exact _; intros st;
  unfold fault; msimpl;
  destruct (faults st _); msimpl; [reflexivity|];
  repeat case_match; reflexivity.

Lemma respects_now R `{!PreOrder R} : respects R now.
Proof. by intros st. Qed.
Lemma respects_urandom R `{!PreOrder R} n : respects R (urandom n).
Proof. by intros st. Qed.
Lemma respects_path_exists R `{!PreOrder R} p : respects R (path_exists p).
Proof. by intros st. Qed.
Lemma respects_access_w R `{!PreOrder R} p : respects R (access_w p).
Proof. by intros st. Qed.
Lemma respects_read_file R `{!PreOrder R} L p : respects R (read_file L p).
Proof. unfold read_file. os_step. Qed.
Lemma respects_open_wb R `{!PreOrder R} L p : respects R (open_wb L p).
Proof. unfold open_wb. os_step. Qed.
Lemma respects_write_data R `{!PreOrder R} p c : respects R (write_data p c).
Proof. unfold write_data. os_step. Qed.
Lemma respects_write_file R `{!PreOrder R} L p c : respects R (write_file L p c).
Proof.
  unfold write_file.
  apply FrameFacts.respects_bind; [exact _|apply respects_open_wb; exact _|].
  intros _. by apply respects_write_data.
Qed.
Lemma respects_makedirs R `{!PreOrder R} p : respects R (makedirs p).
Proof. unfold makedirs. os_step. Qed.
Lemma respects_copy2 R `{!PreOrder R} L a b : respects R (copy2 L a b).
Proof. unfold copy2. os_step. Qed.
Lemma respects_remove R `{!PreOrder R} L p : respects R (remove L p).
Proof. unfold remove. os_step. Qed.
Lemma respects_rename R `{!PreOrder R} L a b : respects R (rename L a b).
Proof. unfold rename. os_step. Qed.
Lemma respects_listdir R `{!PreOrder R} L p : respects R (listdir L p).
Proof. unfold listdir. os_step. Qed.
Lemma respects_getmtime R `{!PreOrder R} p : respects R (getmtime p).
Proof. unfold getmtime. os_step. Qed.
Lemma respects_getsize R `{!PreOrder R} p : respects R (getsize p).
Proof. unfold getsize. os_step. Qed.

End OsFrame.

#[export] Hint Resolve OsFrame.respects_now OsFrame.respects_urandom
  OsFrame.respects_path_exists OsFrame.respects_access_w
  OsFrame.respects_read_file OsFrame.respects_write_file
  OsFrame.respects_open_wb OsFrame.respects_write_data
  OsFrame.respects_makedirs OsFrame.respects_copy2 OsFrame.respects_remove
  OsFrame.respects_rename OsFrame.respects_listdir OsFrame.respects_getmtime
  OsFrame.respects_getsize : frame.

Module MethodFrame.

Lemma respects_config_save R `{!PreOrder R} L :
  respects R (Config.save L).
Proof. unfold Config.save. auto 10 with frame. Qed.

Lemma respects_set_database_path R `{!PreOrder R} L v :
  respects R (Config.set_database_path L v).
Proof. unfold Config.set_database_path. auto using respects_config_save with frame. Qed.

Lemma respects_set_last_sync_time R `{!PreOrder R} L v :
  respects R (Config.set_cloud_config_last_sync_time L v).
Proof.
  unfold Config.set_cloud_config_last_sync_time.
  auto using respects_config_save with frame.
Qed.

Lemma respects_effective_path R `{!PreOrder R} L :
  respects R (Config.get_effective_database_path L).
Proof. unfold Config.get_effective_database_path. auto 12 with frame. Qed.

Lemma respects_encrypt R `{!PreOrder R} L data k :
  respects R (Encryption.encrypt L data k).
Proof. unfold Encryption.encrypt. auto 10 with frame. Qed.

Lemma respects_check_remote R `{!PreOrder R} L :
  respects R (CloudSyncManager.check_remote_accessibility L).
Proof.
  unfold CloudSyncManager.check_remote_accessibility, CloudSyncManager.get_remote_path.
  auto 10 with frame.
Qed.

Lemma respects_sync_to_remote R `{!PreOrder R} L p :
  respects R (CloudSyncManager.sync_to_remote L p).
Proof.
  unfold CloudSyncManager.sync_to_remote, CloudSyncManager.is_cloud_enabled,
    CloudSyncManager.set_is_syncing, CloudSyncManager.get_remote_path.
  auto 40 using respects_effective_path, respects_check_remote,
    respects_set_last_sync_time with frame.
Qed.

Lemma respects_generate_key R `{!PreOrder R} L pw s :
  respects R (Encryption.generate_key L pw s).
Proof. unfold Encryption.generate_key. destruct s; auto 10 with frame. Qed.

Lemma respects_decrypt R `{!PreOrder R} L c k :
  respects R (Encryption.decrypt L c k).
Proof. unfold Encryption.decrypt. auto 10 with frame. Qed.

Lemma respects_lift R `{!PreOrder R} {A} (o : outcome A) :
  respects R (PasswordDatabase.lift o).
Proof. by intros st. Qed.

(** The relation holds between the states before and after a run. *)
Lemma respects_run R {A} (m : M A) st st' r :
  respects R m -> m st = (st', r) -> R (db st) (db st').
Proof. intros Hm E. specialize (Hm st). by rewrite E in Hm. Qed.

Lemma bind_Ret_inv {A B} (m : M A) (k : A -> M B) st st' b :
  bind m k st = (st', Ret b) ->
  exists a s, m st = (s, Ret a) /\ k a s = (st', Ret b).
Proof.
  unfold bind. destruct (m st) as [s [a|e]]; [|discriminate].
  intros E. by exists a, s.
Qed.

End MethodFrame.

#[export] Hint Resolve MethodFrame.respects_config_save
  MethodFrame.respects_set_database_path MethodFrame.respects_set_last_sync_time
  MethodFrame.respects_effective_path MethodFrame.respects_encrypt
  MethodFrame.respects_check_remote MethodFrame.respects_sync_to_remote
  MethodFrame.respects_generate_key MethodFrame.respects_decrypt
  MethodFrame.respects_lift : frame.

(** * Categories *)

Module CategoryFacts.
Import PasswordDatabase.

Lemma respects_collect_backups R `{!PreOrder R} L d names :
  respects R (collect_backups L d names).
Proof. induction names; cbn [collect_backups]; auto 10 with frame. Qed.

Lemma respects_remove_all R `{!PreOrder R} L l : respects R (remove_all L l).
Proof. induction l as [|[? ?] l IH]; cbn [remove_all]; auto 10 with frame. Qed.

Lemma respects_cleanup R `{!PreOrder R} L d : respects R (_cleanup_backups L d).
Proof.
  unfold _cleanup_backups.
  auto 10 using respects_collect_backups, respects_remove_all with frame.
Qed.

Lemma respects_create_backup R `{!PreOrder R} L : respects R (_create_backup L).
Proof. unfold _create_backup. auto 20 using respects_cleanup with frame. Qed.

(** [save] changes nothing of the object but the time stamp. *)
Lemma keeps_db_save L : keeps_db (save L).
Proof.
  unfold save, save_prepare, save_backup, save_write, save_push,
    CloudSyncManager.is_cloud_enabled.
  auto 30 using respects_create_backup with frame.
Qed.

Lemma unstamped_view d d' :
  unstamped d' = unstamped d ->
  db_categories d' = db_categories d
  /\ passwords (data d') = passwords (data d)
  /\ default_categories d' = default_categories d
  /\ categories_shared d' = categories_shared d.
Proof.
  intros H. destruct d as [? ? ? [] sh ? ?], d' as [? ? ? [] sh' ? ?].
  unfold unstamped, mutate_data, with_last_modified in H. cbn in H.
  inversion H; subst. unfold db_categories. cbn. by destruct sh.
Qed.

Lemma db_categories_mutate f d :
  db_categories (mutate_categories f d) = f (db_categories d).
Proof. unfold db_categories, mutate_categories. by destruct (categories_shared d). Qed.

Lemma passwords_mutate_categories f d :
  passwords (data (mutate_categories f d)) = passwords (data d).
Proof. unfold mutate_categories. by destruct (categories_shared d). Qed.

Lemma db_categories_with_passwords l d :
  db_categories (mutate_data (with_passwords l) d) = db_categories d.
Proof. unfold db_categories. cbn. by destruct (categories_shared d). Qed.

Lemma remove_first_elem_of x y l :
  y <> x -> y ∈ remove_first x l <-> y ∈ l.
Proof.
  intros Hne. induction l as [|z l IH]; cbn [remove_first]; [done|].
  case_bool_decide as Hz.
  - subst z. rewrite elem_of_cons. split; [by right|]. by intros [?|?].
  - by rewrite !elem_of_cons, IH.
Qed.

Lemma remove_first_subseteq x l : remove_first x l ⊆ l.
Proof.
  induction l as [|z l IH]; cbn [remove_first]; [done|].
  case_bool_decide as Hz.
  - intros y Hy. by right.
  - intros y [->|Hy]%elem_of_cons; [left | right; by apply IH].
Qed.

Lemma remove_first_NoDup x l : NoDup l -> NoDup (remove_first x l).
Proof.
  induction 1 as [|z l Hnew Hl IH]; cbn [remove_first]; [constructor|].
  case_bool_decide; [done|]. constructor; [|done].
  intros Hin. by apply Hnew, (remove_first_subseteq x).
Qed.

(** Without duplicates the removed name is gone altogether. *)
Lemma remove_first_not_elem_of x l : NoDup l -> x ∉ remove_first x l.
Proof.
  induction 1 as [|z l Hnew Hl IH]; cbn [remove_first]; [by apply not_elem_of_nil|].
  case_bool_decide as Hz; [by subst z|].
  rewrite elem_of_cons. intros [E|E]; [by apply Hz | by apply IH].
Qed.

(** The state [delete_category] leaves when the category is listed. *)
Lemma delete_category_state L category st :
  category ∈ db_categories (db st) ->
  exists st' r,
    delete_category L category st = (st', Ret r)
    /\ db_categories (db st') = remove_first category (db_categories (db st))
    /\ passwords (data (db st'))
       = map (move_category category OTHER) (passwords (data (db st)))
    /\ (categories_shared (db st) = true ->
        default_categories (db st') = remove_first category (db_categories (db st))).
Proof.
  intros Hin. unfold delete_category, get_categories, set_passwords. msimpl.
  rewrite bool_decide_eq_true_2 by done. msimpl.
  match goal with |- context [save L ?s] => set (st2 := s) end.
  destruct (PasswordDatabaseFacts.save_never_raises L st2) as (st' & r & Hs).
  pose proof (keeps_db_save L st2) as Hk. rewrite Hs in Hk. cbn [fst] in Hk.
  unfold same_unstamped in Hk.
  apply unstamped_view in Hk as (Hc & Hp & Hd & Hsh).
  exists st', r. rewrite Hs, Hc, Hp, Hd. subst st2. msimpl.
  rewrite db_categories_with_passwords, db_categories_mutate.
  split; [done|]. split; [done|].
  split; [by rewrite passwords_mutate_categories|].
  unfold db_categories, mutate_categories. by intros ->.
Qed.

(** C4.  For a category [C] of the category list (a list without
    duplicates, as every operation of the store keeps it),
    [delete_category C] takes [C] out of the list and keeps the other
    names; a record whose category is [C] gets the fallback category and
    keeps its other fields, every other record is unchanged. *)
Theorem delete_category_reassigns (L : Lib) (st : State) (C : str) :
  C ∈ db_categories (db st) ->
  NoDup (db_categories (db st)) ->
  exists st' r,
    delete_category L C st = (st', Ret r)
    /\ (C ∉ db_categories (db st'))
    /\ (forall c, c <> C ->
                  (c ∈ db_categories (db st') <-> c ∈ db_categories (db st)))
    /\ length (passwords (data (db st'))) = length (passwords (data (db st)))
    /\ forall i pwd,
        passwords (data (db st)) !! i = Some pwd ->
        (pwd !! "category" = Some C ->
         passwords (data (db st')) !! i = Some (<["category" := OTHER]> pwd))
        /\ (pwd !! "category" <> Some C ->
            passwords (data (db st')) !! i = Some pwd).
Proof.
  intros Hin Hnd.
  destruct (delete_category_state L C st Hin) as (st' & r & Hrun & Hc & Hp & _).
  exists st', r. split; [done|]. rewrite Hc, Hp.
  split; [by apply remove_first_not_elem_of|].
  split; [intros c Hne; by apply remove_first_elem_of|].
  split; [by rewrite length_map|].
  intros i pwd Hi. rewrite list_lookup_fmap, Hi. cbn. unfold move_category.
  split; intros Hcat.
  - by rewrite bool_decide_eq_true_2.
  - by rewrite bool_decide_eq_false_2.
Qed.

(** [delete_category] has no case for the fallback category: applied to
    it, the name leaves the category list (and, on an object that [create]
    initialised, the list of defaults of that object as well), while the
    records filed under it keep naming it. *)
Theorem delete_category_removes_fallback (L : Lib) (st : State) :
  OTHER ∈ db_categories (db st) ->
  NoDup (db_categories (db st)) ->
  exists st' r,
    delete_category L OTHER st = (st', Ret r)
    /\ (OTHER ∉ db_categories (db st'))
    /\ (categories_shared (db st) = true -> OTHER ∉ default_categories (db st'))
    /\ forall pwd,
        pwd ∈ passwords (data (db st)) -> pwd !! "category" = Some OTHER ->
        pwd ∈ passwords (data (db st')).
Proof.
  intros Hin Hnd.
  destruct (delete_category_state L OTHER st Hin) as (st' & r & Hrun & Hc & Hp & Hd).
  exists st', r. split; [done|]. rewrite Hc, Hp.
  split; [by apply remove_first_not_elem_of|].
  split; [intros Hs; rewrite (Hd Hs); by apply remove_first_not_elem_of|].
  intros pwd Hpwd Hcat. apply list_elem_of_fmap. exists pwd. split; [|done].
  unfold move_category. rewrite bool_decide_eq_true_2 by done.
  symmetry. by apply insert_id.
Qed.

End CategoryFacts.

(** * Import *)

Module MergeFacts.
Import PasswordDatabase.

(** ** Categories *)

Lemma merge_categories_elem_of imported own c :
  c ∈ merge_categories imported own <-> c ∈ own \/ c ∈ imported.
Proof.
  unfold merge_categories. revert own.
  induction imported as [|x imp IH]; intros own; cbn [foldl].
  - rewrite elem_of_nil. tauto.
  - rewrite IH, elem_of_cons. case_bool_decide.
    + split; [tauto|]. intros [?|[->|?]]; tauto.
    + rewrite elem_of_app, list_elem_of_singleton. tauto.
Qed.

Lemma merge_categories_NoDup imported own :
  NoDup own -> NoDup (merge_categories imported own).
Proof.
  unfold merge_categories. revert own.
  induction imported as [|x imp IH]; intros own Hnd; cbn [foldl]; [done|].
  apply IH. case_bool_decide as Hx; [done|].
  apply NoDup_app. split; [done|]. split; [|apply NoDup_singleton].
  intros y Hy ->%list_elem_of_singleton. done.
Qed.

(** ** Looking a record up by its identifier *)

Lemma lookup_id_Some i l e :
  lookup_id i l = Some e -> e ∈ l /\ e !! "id" = Some i.
Proof.
  induction l as [|p l IH]; cbn [lookup_id]; [done|].
  case_bool_decide as Hp.
  - intros [= <-]. split; [left|done].
  - intros H. destruct (IH H). split; [by right|done].
Qed.

Lemma lookup_id_None i l :
  lookup_id i l = None <-> Some i ∉ map idof l.
Proof.
  induction l as [|p l IH]; cbn [lookup_id map].
  - split; [intros _; apply not_elem_of_nil|done].
  - rewrite not_elem_of_cons, <- IH. case_bool_decide as Hp.
    + split; [done|]. intros [Hne _]. by rewrite Hp in Hne.
    + split; [|tauto]. intros H. split; [congruence|done].
Qed.

Lemma lookup_id_elem_of i l e :
  NoDup (map idof l) -> e ∈ l -> e !! "id" = Some i -> lookup_id i l = Some e.
Proof.
  induction l as [|p l IH]; cbn [lookup_id map]; intros Hnd Hin Hid.
  - by apply elem_of_nil in Hin.
  - apply NoDup_cons in Hnd as [Hp Hnd]. apply elem_of_cons in Hin as [->|Hin].
    + by rewrite bool_decide_eq_true_2.
    + rewrite bool_decide_eq_false_2; [by apply IH|].
      intros Hpi. apply Hp. rewrite Hpi, <- Hid.
      by apply (list_elem_of_fmap_2 idof).
Qed.


(** ** One imported record against the list *)


(** ** The whole list of imported records *)






End MergeFacts.

(** * The concrete instance *)

Module SampleFacts.
Import Codec Sample.

Lemma lib_pbkdf2_law : pbkdf2_law lib.
Proof.
  intros pw s. cbn [pbkdf2_hmac_sha256 lib]. split.
  - rewrite length_take, length_app, length_replicate. lia.
  - apply Forall_take, Forall_app. split.
    + apply Forall_fmap, Forall_forall. intros x _. cbn.
      apply Z.mod_pos_bound. lia.
    + apply Forall_replicate. lia.
Qed.

Lemma lib_fernet_law : fernet_law lib.
Proof.
  intros raw Hlen _. cbn [fernet_key_ok fernet_encrypt fernet_decrypt lib].
  split.
  - do 33 (destruct raw as [|? raw]; try discriminate Hlen). reflexivity.
  - intros _ _ p. rewrite take_app_length, drop_app_length.
    by rewrite bool_decide_eq_true_2.
Qed.

Lemma lib_rejects_empty : fernet_rejects_empty lib.
Proof. by intros k. Qed.


Lemma nas_folder_missing (cache : str) :
  remote_folder_missing
    (state_of [(lit "/db/v.db", container secret (Some secret))] [lit "/db"]
       no_faults (config_with (cloud_nas cache)) opened_db).
Proof.
  split; [reflexivity|]. exists (lit "/nas").
  split; [left; split; vm_compute; reflexivity|].
  split; vm_compute; reflexivity.
Qed.

End SampleFacts.

(** * The fallback category *)

Module FallbackFacts.
Import PasswordDatabase.

#[global] Instance same_defaults_preorder : PreOrder same_defaults.
Proof.
  split; [by intros d | intros d1 d2 d3 H12 H23].
  unfold same_defaults in *. congruence.
Qed.

#[global] Instance same_sharing_preorder : PreOrder same_sharing.
Proof.
  split; [by intros d | intros d1 d2 d3 [? ?] [? ?]].
  unfold same_sharing in *. split; congruence.
Qed.

Lemma same_unstamped_sharing d d' : same_unstamped d d' -> same_sharing d d'.
Proof. intros H. apply CategoryFacts.unstamped_view in H. split; apply H. Qed.

Lemma same_unstamped_fallback d d' : same_unstamped d d' -> keeps_fallback d d'.
Proof.
  intros H Hin. apply CategoryFacts.unstamped_view in H as (-> & _). done.
Qed.

Lemma same_sharing_defaults d d' : same_sharing d d' -> same_defaults d d'.
Proof. by intros [_ ?]. Qed.

(** What keeps the object keeps the fallback category. *)
Lemma keeps_db_fallback {A} (m : M A) : keeps_db m -> respects keeps_fallback m.
Proof. apply FrameFacts.respects_weaken, same_unstamped_fallback. Qed.

Lemma keeps_db_sharing {A} (m : M A) : keeps_db m -> respects same_sharing m.
Proof. apply FrameFacts.respects_weaken, same_unstamped_sharing. Qed.

Lemma respects_set_passwords l : respects keeps_fallback (set_passwords l).
Proof.
  intros st Hin. unfold set_passwords. msimpl.
  by rewrite CategoryFacts.db_categories_with_passwords.
Qed.

Lemma respects_save L : respects keeps_fallback (save L).
Proof. apply keeps_db_fallback, CategoryFacts.keeps_db_save. Qed.

Lemma replace_first_elem_of x z y l :
  y <> x -> y ∈ l -> y ∈ replace_first x z l.
Proof.
  intros Hne. induction l as [|w l IH]; cbn [replace_first]; [done|].
  intros [->|Hin]%elem_of_cons.
  - rewrite bool_decide_eq_false_2 by done. by left.
  - case_bool_decide; right; [done | by apply IH].
Qed.

Lemma respects_merge_passwords L ids imported :
  respects keeps_fallback (merge_passwords L ids imported).
Proof.
  induction imported as [|p rest IH]; cbn [merge_passwords];
    auto 10 using respects_set_passwords with frame.
Qed.

Lemma respects_merge_data L v : respects keeps_fallback (_merge_data L v).
Proof.
  unfold _merge_data.
  apply FrameFacts.respects_bind; [exact _| |intros ?].
  - apply FrameFacts.respects_modify. intros st Hin. msimpl.
    rewrite CategoryFacts.db_categories_mutate.
    apply MergeFacts.merge_categories_elem_of. by left.
  - auto 10 using respects_merge_passwords with frame.
Qed.

(** Every operation other than deleting or renaming the fallback category
    itself keeps it in the list. *)
Lemma run_op_keeps_fallback L op :
  spares_fallback op -> respects keeps_fallback (run_op L op).
Proof.
  destruct op; cbn [spares_fallback run_op]; intros Hop.
  - unfold add_category, get_categories.
    apply FrameFacts.respects_bind; [exact _|auto with frame|intros cats].
    apply FrameFacts.respects_if; [|auto with frame].
    apply FrameFacts.respects_bind; [exact _| |intros ?; apply respects_save].
    apply FrameFacts.respects_modify. intros st Hin. msimpl.
    rewrite CategoryFacts.db_categories_mutate. apply elem_of_app. by left.
  - unfold delete_category, get_categories.
    apply FrameFacts.respects_bind; [exact _|auto with frame|intros cats].
    apply FrameFacts.respects_if; [|auto with frame].
    apply FrameFacts.respects_bind; [exact _| |intros ?].
    + apply FrameFacts.respects_modify. intros st Hin. msimpl.
      rewrite CategoryFacts.db_categories_mutate.
      apply CategoryFacts.remove_first_elem_of; [by apply not_eq_sym|done].
    + auto 10 using respects_set_passwords, respects_save with frame.
  - unfold rename_category, get_categories.
    apply FrameFacts.respects_bind; [exact _|auto with frame|intros cats].
    apply FrameFacts.respects_if; [auto with frame|].
    apply FrameFacts.respects_if; [auto with frame|].
    apply FrameFacts.respects_bind; [exact _| |intros ?].
    + apply FrameFacts.respects_modify. intros st Hin. msimpl.
      rewrite CategoryFacts.db_categories_mutate.
      apply replace_first_elem_of; [by apply not_eq_sym|done].
    + auto 10 using respects_set_passwords, respects_save with frame.
  - unfold add_password.
    auto 10 using respects_set_passwords, respects_save with frame.
  - unfold update_password.
    auto 12 using respects_set_passwords, respects_save with frame.
  - unfold delete_password.
    auto 12 using respects_set_passwords, respects_save with frame.
  - unfold update_totp_secret.
    apply FrameFacts.respects_bind; [exact _| |intros ?; apply respects_save].
    apply FrameFacts.respects_modify. intros st Hin. done.
  - unfold import_data.
    auto 20 using respects_merge_data, respects_save with frame.
  - unfold export_data. auto 12 with frame.
Qed.

Lemma run_ops_keeps_fallback L ops : forall st,
  Forall spares_fallback ops ->
  OTHER ∈ db_categories (db st) ->
  OTHER ∈ db_categories (db (run_ops L ops st)).
Proof.
  induction ops as [|op ops IH]; intros st Hops Hin; cbn [run_ops]; [done|].
  apply Forall_cons in Hops as [Hop Hops].
  apply IH; [done|]. by apply (run_op_keeps_fallback L op Hop st).
Qed.

(** [create] leaves the object sharing its list of defaults with the
    vault, the list being the one it had. *)
Lemma create_shares_defaults L p pw totp user st st1 :
  create L p pw totp user st = (st1, Ret true) ->
  categories_shared (db st1) = true
  /\ default_categories (db st1) = default_categories (db st).
Proof.
  unfold create. intros E.
  apply MethodFrame.bind_Ret_inv in E as (en & s1 & E1 & E).
  apply MethodFrame.bind_Ret_inv in E as (? & s2 & E2 & E).
  apply MethodFrame.bind_Ret_inv in E as (ks & s3 & E3 & E).
  apply MethodFrame.bind_Ret_inv in E as (? & s4 & E4 & E).
  apply MethodFrame.bind_Ret_inv in E as (t & s5 & E5 & E).
  apply MethodFrame.bind_Ret_inv in E as (? & s6 & E6 & E).
  apply (MethodFrame.respects_run same_defaults) in E1;
    [|unfold CloudSyncManager.is_cloud_enabled; auto with frame].
  apply (MethodFrame.respects_run same_defaults) in E2.
  2: { unfold set_self_db_path. destruct en; auto 10 with frame. }
  apply (MethodFrame.respects_run same_defaults) in E3; [|auto with frame].
  apply (MethodFrame.respects_run same_defaults) in E4; [|auto with frame].
  apply (MethodFrame.respects_run same_defaults) in E5; [|auto with frame].
  apply (MethodFrame.respects_run same_sharing) in E.
  2: { unfold set_self_db_path, CloudSyncManager.is_cloud_enabled.
       pose proof (keeps_db_sharing _ (CategoryFacts.keeps_db_save L)).
       auto 30 with frame. }
  injection E6 as <-. destruct E as [Hs Hd]. msimpl.
  cbn [categories_shared default_categories upd_data_sharing] in Hs, Hd.
  unfold same_defaults in *. split; [done|]. congruence.
Qed.

(** C3, amended.  After [create] on an object whose list of defaults
    holds the fallback category (every fresh object), the category list
    of the vault holds it, and it still does after any sequence of store
    operations none of which deletes or renames the fallback category
    itself. *)
Theorem fallback_survives_other_operations (L : Lib)
    (db_path_arg master_password : str) (totp : option str) (user : str)
    (st st1 : State) (ops : list store_op) :
  OTHER ∈ default_categories (db st) ->
  create L db_path_arg master_password totp user st = (st1, Ret true) ->
  Forall spares_fallback ops ->
  OTHER ∈ db_categories (db (run_ops L ops st1)).
Proof.
  intros Hdef Hcreate Hops. apply run_ops_keeps_fallback; [done|].
  destruct (create_shares_defaults _ _ _ _ _ _ _ Hcreate) as [Hs Hd].
  unfold db_categories. by rewrite Hs, Hd.
Qed.

End FallbackFacts.

(** * Distinct category names *)

Module DistinctFacts.
Import PasswordDatabase.

#[global] Instance keeps_distinct_preorder : PreOrder keeps_distinct.
Proof.
  split; [intros d H; exact H | intros d1 d2 d3 H12 H23 H; apply H23, H12, H].
Qed.

Lemma same_unstamped_distinct d d' : same_unstamped d d' -> keeps_distinct d d'.
Proof.
  intros H Hnd. apply CategoryFacts.unstamped_view in H as (-> & _). done.
Qed.

Lemma distinct_save L : respects keeps_distinct (save L).
Proof.
  apply (FrameFacts.respects_weaken same_unstamped);
    [apply same_unstamped_distinct | apply CategoryFacts.keeps_db_save].
Qed.

Lemma distinct_set_passwords l : respects keeps_distinct (set_passwords l).
Proof.
  intros st Hnd. unfold set_passwords. msimpl.
  by rewrite CategoryFacts.db_categories_with_passwords.
Qed.

Lemma replace_first_subseteq x z l y :
  y ∈ replace_first x z l -> y = z \/ y ∈ l.
Proof.
  induction l as [|w l IH]; cbn [replace_first]; [by right|].
  case_bool_decide.
  - intros [->|Hin]%elem_of_cons; [by left | right; by right].
  - intros [->|Hin]%elem_of_cons; [right; by left|].
    destruct (IH Hin); [by left | right; by right].
Qed.

Lemma replace_first_NoDup x z l :
  z ∉ l -> NoDup l -> NoDup (replace_first x z l).
Proof.
  intros Hz Hnd. induction Hnd as [|w l Hw Hl IH]; cbn [replace_first];
    [constructor|].
  apply not_elem_of_cons in Hz as [Hzw Hz].
  case_bool_decide.
  - by constructor.
  - constructor; [|by apply IH].
    intros [->|Hin]%replace_first_subseteq; done.
Qed.

Lemma distinct_merge_passwords L ids imported :
  respects keeps_distinct (merge_passwords L ids imported).
Proof.
  induction imported as [|p rest IH]; cbn [merge_passwords];
    auto 10 using distinct_set_passwords with frame.
Qed.

(** Every store operation keeps the category names distinct: this is the
    invariant of the category list. *)
Lemma run_op_keeps_distinct L op : respects keeps_distinct (run_op L op).
Proof.
  destruct op; cbn [run_op].
  - intros st Hnd. unfold add_category, get_categories. msimpl.
    case_bool_decide as Hc; [|done].
    apply (distinct_save L). msimpl.
    rewrite CategoryFacts.db_categories_mutate.
    apply NoDup_app. split; [done|]. split; [|apply NoDup_singleton].
    by intros y Hy ->%list_elem_of_singleton.
  - unfold delete_category, get_categories.
    apply FrameFacts.respects_bind; [exact _|auto with frame|intros cats].
    apply FrameFacts.respects_if; [|auto with frame].
    apply FrameFacts.respects_bind; [exact _| |intros ?].
    + apply FrameFacts.respects_modify. intros st Hnd. msimpl.
      rewrite CategoryFacts.db_categories_mutate.
      by apply CategoryFacts.remove_first_NoDup.
    + auto 10 using distinct_set_passwords, distinct_save with frame.
  - intros st Hnd. unfold rename_category, get_categories. msimpl.
    case_bool_decide as Ho; [done|]. msimpl.
    case_bool_decide as Hn; [done|]. unfold set_passwords. msimpl.
    apply (distinct_save L). msimpl.
    rewrite CategoryFacts.db_categories_with_passwords,
      CategoryFacts.db_categories_mutate.
    by apply replace_first_NoDup.
  - unfold add_password.
    auto 10 using distinct_set_passwords, distinct_save with frame.
  - unfold update_password.
    auto 12 using distinct_set_passwords, distinct_save with frame.
  - unfold delete_password.
    auto 12 using distinct_set_passwords, distinct_save with frame.
  - unfold update_totp_secret.
    apply FrameFacts.respects_bind; [exact _| |intros ?; apply distinct_save].
    apply FrameFacts.respects_modify. by intros st Hnd.
  - unfold import_data, _merge_data.
    assert (forall v,
               respects keeps_distinct
                 (modify (fun st =>
                            upd_db (mutate_categories (merge_categories (categories v))
                                      (db st)) st))) as Hm.
    { intros v. apply FrameFacts.respects_modify. intros st Hnd. msimpl.
      rewrite CategoryFacts.db_categories_mutate.
      by apply MergeFacts.merge_categories_NoDup. }
    auto 30 using distinct_merge_passwords, distinct_save with frame.
  - unfold export_data. auto 12 with frame.
Qed.

(** No sequence of record-store operations makes a name occur twice in
    the category list: from a list without repetition every run ends in
    one. *)
Lemma run_ops_keeps_distinct L ops : forall st,
  NoDup (db_categories (db st)) ->
  NoDup (db_categories (db (run_ops L ops st))).
Proof.
  induction ops as [|op ops IH]; intros st Hnd; cbn [run_ops]; [done|].
  apply IH. by apply (run_op_keeps_distinct L op st).
Qed.

End DistinctFacts.

(** * Records: adding, replacing, removing and reading them back *)

Module RecordFacts.
Import PasswordDatabase.

(** [save] returns, and leaves the records and the category list alone. *)
Lemma save_keeps L st :
  exists st' r,
    save L st = (st', Ret r)
    /\ passwords (data (db st')) = passwords (data (db st))
    /\ db_categories (db st') = db_categories (db st).
Proof.
  destruct (PasswordDatabaseFacts.save_never_raises L st) as (st' & r & Hs).
  pose proof (CategoryFacts.keeps_db_save L st) as Hk.
  rewrite Hs in Hk. cbn [fst] in Hk.
  apply CategoryFacts.unstamped_view in Hk as (Hc & Hp & _).
  by exists st', r.
Qed.

(** The search of [update_password], [delete_password] and [get_password]
    finds the record that [lookup_id] names, at its index. *)
Lemma find_by_id_lookup pid (l : list entry) : forall i0,
  Forall (fun p : entry => is_Some (p !! "id")) l ->
  match lookup_id pid l with
  | Some e =>
      exists k, find_by_id pid l i0 = Ret (Some ((i0 + k)%nat, e))
                /\ l !! k = Some e
  | None => find_by_id pid l i0 = Ret None
  end.
Proof.
  induction l as [|p l IH]; intros i0 Hids; cbn [lookup_id find_by_id]; [done|].
  apply Forall_cons in Hids as [[qid Hq] Hids]. unfold item. rewrite Hq.
  case_bool_decide as Hp.
  - rewrite bool_decide_eq_true_2 by congruence.
    exists 0%nat. by rewrite Nat.add_0_r.
  - rewrite bool_decide_eq_false_2 by congruence.
    specialize (IH (S i0) Hids). destruct (lookup_id pid l) as [e|]; [|done].
    destruct IH as (k & -> & Hk). exists (S k).
    split; [|done]. do 3 f_equal. lia.
Qed.

Lemma keyed_lookup_index (l : list entry) k e pid :
  l !! k = Some e -> e !! "id" = Some pid -> map idof l !! k = Some (Some pid).
Proof. intros Hk Hid. by rewrite list_lookup_fmap, Hk, <- Hid. Qed.


(** Removing a record. *)
Lemma lookup_id_delete (l : list entry) k e pid :
  keyed_by_id l -> l !! k = Some e -> e !! "id" = Some pid ->
  keyed_by_id (delete k l)
  /\ forall j, lookup_id j (delete k l)
               = if bool_decide (j = pid) then None else lookup_id j l.
Proof.
  intros [Hhas Hnd] Hk Hid.
  assert (map idof (delete k l) = delete k (map idof l)) as Hids.
  { change (map idof) with (fmap (M := list) idof). apply list_fmap_delete. }
  assert (keyed_by_id (delete k l)) as Hkey.
  { split; [by apply Forall_delete|]. rewrite Hids.
    eapply sublist_NoDup; [done|apply sublist_delete]. }
  split; [done|]. intros j. case_bool_decide as Hj.
  - subst j. apply MergeFacts.lookup_id_None. rewrite Hids.
    intros Hin. apply list_elem_of_lookup in Hin as [i Hi].
    pose proof (keyed_lookup_index _ _ _ _ Hk Hid) as Hkk.
    destruct (decide (i < k)%nat) as [Hlt|Hge].
    + rewrite list_lookup_delete_lt in Hi by done.
      pose proof (NoDup_lookup _ _ _ _ Hnd Hi Hkk). lia.
    + rewrite list_lookup_delete_ge in Hi by lia.
      pose proof (NoDup_lookup _ _ _ _ Hnd Hi Hkk). lia.
  - destruct (lookup_id j l) as [x|] eqn:Hx.
    + destruct (MergeFacts.lookup_id_Some _ _ _ Hx) as [Hin Hxid].
      apply MergeFacts.lookup_id_elem_of; [apply Hkey| |done].
      apply list_elem_of_lookup in Hin as [i Hi].
      assert (i <> k) as Hne.
      { intros ->. rewrite Hk in Hi. injection Hi as ->. congruence. }
      apply list_elem_of_lookup.
      destruct (decide (i < k)%nat) as [Hlt|Hge].
      * exists i. by rewrite list_lookup_delete_lt.
      * exists (pred i). rewrite list_lookup_delete_ge by lia.
        by replace (S (pred i)) with i by lia.
    + apply MergeFacts.lookup_id_None. rewrite Hids.
      apply MergeFacts.lookup_id_None in Hx. intros Hin. apply Hx.
      eapply elem_of_sublist; [done|apply sublist_delete].
Qed.

(** [get_password] reads the record that [lookup_id] names. *)
Lemma get_password_lookup pid st :
  Forall (fun p : entry => is_Some (p !! "id")) (passwords (data (db st))) ->
  get_password pid st = (st, Ret (lookup_id pid (passwords (data (db st))))).
Proof.
  intros Hids. unfold get_password, lift. msimpl.
  pose proof (find_by_id_lookup pid _ 0%nat Hids) as Hf.
  destruct (lookup_id pid (passwords (data (db st)))) as [e|].
  - destruct Hf as (k & -> & _). reflexivity.
  - by rewrite Hf.
Qed.




(** [delete_password] on the identifier of a record removes that record:
    [get_password] then returns [None] for it and what it returned before
    for every other identifier. *)
Theorem delete_then_get (L : Lib) (password_id : str) (st : State) (old : entry) :
  keyed_by_id (passwords (data (db st))) ->
  lookup_id password_id (passwords (data (db st))) = Some old ->
  exists st' r,
    delete_password L password_id st = (st', Ret r)
    /\ get_password password_id st' = (st', Ret None)
    /\ (forall j, j <> password_id ->
          get_password j st' = (st', Ret (lookup_id j (passwords (data (db st))))))
    /\ keyed_by_id (passwords (data (db st')))
    /\ S (length (passwords (data (db st')))) = length (passwords (data (db st)))
    /\ db_categories (db st') = db_categories (db st).
Proof.
  intros Hkey Hold.
  pose proof (find_by_id_lookup password_id _ 0%nat (proj1 Hkey)) as Hf.
  rewrite Hold in Hf. destruct Hf as (k & Hfind & Hk).
  destruct (MergeFacts.lookup_id_Some _ _ _ Hold) as [_ Hid].
  unfold delete_password, lift, set_passwords. msimpl.
  rewrite Hfind. msimpl.
  match goal with |- context [save L ?s] => set (st2 := s) end.
  destruct (save_keeps L st2) as (st' & r & -> & Hp & Hc).
  exists st', r. split; [done|].
  assert (passwords (data (db st')) = delete k (passwords (data (db st))))
    as Hp' by (rewrite Hp; subst st2; by msimpl).
  destruct (lookup_id_delete _ k old password_id Hkey Hk Hid) as [Hkey' Hlook].
  rewrite <- Hp' in Hkey', Hlook.
  split; [|split; [|split; [done|split]]].
  - rewrite (get_password_lookup _ _ (proj1 Hkey')), Hlook.
    by rewrite bool_decide_eq_true_2.
  - intros j Hj. rewrite (get_password_lookup _ _ (proj1 Hkey')), Hlook.
    by rewrite bool_decide_eq_false_2.
  - rewrite Hp', length_delete by (by eexists).
    apply lookup_lt_Some in Hk. lia.
  - rewrite Hc. subst st2. msimpl. apply CategoryFacts.db_categories_with_passwords.
Qed.

End RecordFacts.

(** * Categories: adding, renaming, and the records filed under them *)

Module CategoryOpFacts.
Import PasswordDatabase.

(** [add_category] is idempotent: it appends a name that is not in the
    list, and for a name that is in the list it returns [True] at once,
    without saving; either way the name is in the list afterwards, the
    records are untouched and a second call changes nothing. *)
Theorem add_category_is_idempotent (L : Lib) (category : str) (st : State) :
  exists st' r,
    add_category L category st = (st', Ret r)
    /\ db_categories (db st')
       = (if bool_decide (category ∈ db_categories (db st))
          then db_categories (db st)
          else db_categories (db st) ++ [category])
    /\ passwords (data (db st')) = passwords (data (db st))
    /\ add_category L category st' = (st', Ret true).
Proof.
  unfold add_category at 1, get_categories. msimpl.
  destruct (decide (category ∈ db_categories (db st))) as [Hin|Hnew].
  - rewrite bool_decide_eq_false_2 by (intros Hn; by apply Hn).
    rewrite bool_decide_eq_true_2 by done.
    exists st, true. split; [done|]. split; [done|]. split; [done|].
    unfold add_category, get_categories. msimpl.
    by rewrite bool_decide_eq_false_2 by (intros Hn; by apply Hn).
  - rewrite bool_decide_eq_true_2 by done.
    rewrite bool_decide_eq_false_2 by done. msimpl.
    match goal with |- context [save L ?s] => set (st2 := s) end.
    destruct (RecordFacts.save_keeps L st2) as (st' & r & -> & Hp & Hc).
    exists st', r. split; [done|]. rewrite Hp, Hc. subst st2. msimpl.
    rewrite CategoryFacts.db_categories_mutate,
      CategoryFacts.passwords_mutate_categories.
    split; [done|]. split; [done|].
    unfold add_category, get_categories. msimpl.
    rewrite Hc. msimpl. rewrite CategoryFacts.db_categories_mutate.
    rewrite bool_decide_eq_false_2; [done|].
    intros Hn. apply Hn, elem_of_app. right. by apply list_elem_of_singleton.
Qed.

(** [rename_category] refuses, without any effect, a name that is not in
    the list and a new name that is: renaming a category to itself is
    refused too. *)
Theorem rename_category_rejected (L : Lib) (old_name new_name : str) (st : State) :
  old_name ∉ db_categories (db st) \/ new_name ∈ db_categories (db st) ->
  rename_category L old_name new_name st = (st, Ret false).
Proof.
  intros H. unfold rename_category, get_categories. msimpl.
  case_bool_decide as Ho; [done|]. msimpl.
  rewrite bool_decide_eq_true_2; [done|]. by destruct H.
Qed.

(** Without duplicates, replacing the first occurrence renames the name
    where it stands. *)
Lemma replace_first_lookup x z (l : list str) i c :
  NoDup l -> l !! i = Some c ->
  replace_first x z l !! i = Some (if bool_decide (c = x) then z else c).
Proof.
  intros Hnd. revert i. induction Hnd as [|y l Hy Hl IH]; intros i Hi; [done|].
  cbn [replace_first]. destruct i as [|i].
  - injection Hi as ->. by case_bool_decide.
  - change (l !! i = Some c) in Hi.
    destruct (decide (y = x)) as [Hyx|Hyx].
    + rewrite (bool_decide_eq_true_2 (y = x)) by done.
      change (l !! i = Some (if bool_decide (c = x) then z else c)).
      rewrite bool_decide_eq_false_2; [done|].
      intros ->. apply Hy. subst y. by apply list_elem_of_lookup_2 with i.
    + rewrite (bool_decide_eq_false_2 (y = x)) by done. by apply IH.
Qed.

Lemma length_replace_first x z (l : list str) :
  length (replace_first x z l) = length l.
Proof.
  induction l as [|y l IH]; cbn [replace_first]; [done|].
  case_bool_decide; cbn; by rewrite ?IH.
Qed.

Lemma replace_first_undo x z (l : list str) :
  z ∉ l -> replace_first z x (replace_first x z l) = l.
Proof.
  induction l as [|y l IH]; cbn [replace_first]; [done|].
  intros [Hzy Hz]%not_elem_of_cons. case_bool_decide as Hyx.
  - cbn [replace_first]. rewrite bool_decide_eq_true_2 by done. by subst y.
  - cbn [replace_first]. rewrite bool_decide_eq_false_2 by done.
    by rewrite IH.
Qed.

(** Without duplicates the replaced name is gone altogether. *)
Lemma replace_first_not_elem_of x z (l : list str) :
  NoDup l -> x <> z -> x ∉ replace_first x z l.
Proof.
  intros Hnd Hne Hin. apply list_elem_of_lookup in Hin as [i Hi].
  destruct (l !! i) as [c|] eqn:Hc.
  - rewrite (replace_first_lookup _ _ _ _ _ Hnd Hc) in Hi.
    case_bool_decide; congruence.
  - apply lookup_lt_Some in Hi. rewrite length_replace_first in Hi.
    apply lookup_ge_None in Hc. lia.
Qed.

(** The state [rename_category] leaves when it goes through. *)
Lemma rename_category_state L old_name new_name st :
  old_name ∈ db_categories (db st) ->
  new_name ∉ db_categories (db st) ->
  exists st' r,
    rename_category L old_name new_name st = (st', Ret r)
    /\ db_categories (db st')
       = replace_first old_name new_name (db_categories (db st))
    /\ passwords (data (db st'))
       = map (move_category old_name new_name) (passwords (data (db st))).
Proof.
  intros Hold Hnew. unfold rename_category, get_categories, set_passwords. msimpl.
  rewrite bool_decide_eq_false_2 by (intros Hn; by apply Hn). msimpl.
  rewrite bool_decide_eq_false_2 by done. msimpl.
  match goal with |- context [save L ?s] => set (st2 := s) end.
  destruct (RecordFacts.save_keeps L st2) as (st' & r & -> & Hp & Hc).
  exists st', r. split; [done|]. rewrite Hp, Hc. subst st2. msimpl.
  rewrite CategoryFacts.db_categories_with_passwords,
    CategoryFacts.db_categories_mutate, CategoryFacts.passwords_mutate_categories.
  done.
Qed.

(** [rename_category] of a listed name to a new one: the new name stands
    where the old one stood, the other names keep their places, and the
    records filed under the old name are filed under the new one, every
    other record being unchanged. *)
Theorem rename_category_renames (L : Lib) (old_name new_name : str) (st : State) :
  old_name ∈ db_categories (db st) ->
  new_name ∉ db_categories (db st) ->
  NoDup (db_categories (db st)) ->
  exists st' r,
    rename_category L old_name new_name st = (st', Ret r)
    /\ length (db_categories (db st')) = length (db_categories (db st))
    /\ (forall i c, db_categories (db st) !! i = Some c ->
          db_categories (db st') !! i
          = Some (if bool_decide (c = old_name) then new_name else c))
    /\ length (passwords (data (db st'))) = length (passwords (data (db st)))
    /\ forall i pwd,
        passwords (data (db st)) !! i = Some pwd ->
        passwords (data (db st')) !! i
        = Some (if bool_decide (pwd !! "category" = Some old_name)
                then <["category" := new_name]> pwd else pwd).
Proof.
  intros Hold Hnew Hnd.
  destruct (rename_category_state L old_name new_name st Hold Hnew)
    as (st' & r & Hrun & Hc & Hp).
  exists st', r. split; [done|]. rewrite Hc, Hp.
  split; [apply length_replace_first|].
  split; [intros i c Hi; by apply replace_first_lookup|].
  split; [by rewrite length_map|].
  intros i pwd Hi. by rewrite list_lookup_fmap, Hi.
Qed.

Lemma move_category_undo old_name new_name (pwd : entry) :
  pwd !! "category" <> Some new_name ->
  move_category new_name old_name (move_category old_name new_name pwd) = pwd.
Proof.
  intros Hne. unfold move_category at 2. case_bool_decide as Hc.
  - unfold move_category. rewrite lookup_insert_eq.
    rewrite bool_decide_eq_true_2 by done. rewrite insert_insert_eq.
    by apply insert_id.
  - unfold move_category. by rewrite bool_decide_eq_false_2.
Qed.

(** Renaming a category and renaming it back restores the category list,
    and restores the records when none was filed under the intermediate
    name (a name that is not in the list). *)
Theorem rename_category_round_trip (L : Lib) (old_name new_name : str) (st : State) :
  old_name ∈ db_categories (db st) ->
  new_name ∉ db_categories (db st) ->
  NoDup (db_categories (db st)) ->
  Forall (fun pwd : entry => pwd !! "category" <> Some new_name)
    (passwords (data (db st))) ->
  exists st1 r1 st2 r2,
    rename_category L old_name new_name st = (st1, Ret r1)
    /\ rename_category L new_name old_name st1 = (st2, Ret r2)
    /\ db_categories (db st2) = db_categories (db st)
    /\ passwords (data (db st2)) = passwords (data (db st)).
Proof.
  intros Hold Hnew Hnd Hfree.
  destruct (rename_category_state L old_name new_name st Hold Hnew)
    as (st1 & r1 & Hrun1 & Hc1 & Hp1).
  assert (old_name <> new_name) as Hne by (intros ->; done).
  assert (new_name ∈ db_categories (db st1)) as Hnew1.
  { rewrite Hc1. apply list_elem_of_lookup in Hold as [i Hi].
    apply list_elem_of_lookup. exists i.
    rewrite (replace_first_lookup _ _ _ _ _ Hnd Hi).
    by rewrite bool_decide_eq_true_2. }
  assert (old_name ∉ db_categories (db st1)) as Hold1
    by (rewrite Hc1; by apply replace_first_not_elem_of).
  destruct (rename_category_state L new_name old_name st1 Hnew1 Hold1)
    as (st2 & r2 & Hrun2 & Hc2 & Hp2).
  exists st1, r1, st2, r2. split; [done|]. split; [done|].
  rewrite Hc2, Hc1, Hp2, Hp1. split; [by apply replace_first_undo|].
  rewrite map_map. clear -Hfree.
  induction Hfree as [|p l Hp _ IH]; [done|].
  cbn [map]. by rewrite IH, move_category_undo.
Qed.

(** After [delete_category] of a listed category other than the fallback,
    [get_passwords_by_category] finds no record under the deleted name;
    under the fallback name it finds, in their order, the records that
    were filed under either, each now naming the fallback; under any
    other name it finds what it found before. *)
Theorem delete_category_moves_records (L : Lib) (category : str) (st : State) :
  category ∈ db_categories (db st) ->
  category <> OTHER ->
  exists st' r,
    delete_category L category st = (st', Ret r)
    /\ get_passwords_by_category category st' = (st', Ret [])
    /\ get_passwords_by_category OTHER st'
       = (st', Ret (map (move_category category OTHER)
                      (filter (fun pwd : entry =>
                                 pwd !! "category" = Some category
                                 \/ pwd !! "category" = Some OTHER)
                         (passwords (data (db st))))))
    /\ forall c, c <> category -> c <> OTHER ->
         get_passwords_by_category c st'
         = (st', Ret (filter (fun pwd : entry => pwd !! "category" = Some c)
                        (passwords (data (db st))))).
Proof.
  intros Hin Hne.
  destruct (CategoryFacts.delete_category_state L category st Hin)
    as (st' & r & Hrun & _ & Hp & _).
  exists st', r. split; [done|].
  unfold get_passwords_by_category. msimpl. rewrite Hp. clear Hp.
  generalize (passwords (data (db st))). intros l0.
  assert (forall pwd : entry,
             move_category category OTHER pwd !! "category"
             = if bool_decide (pwd !! "category" = Some category)
               then Some OTHER else pwd !! "category") as Hcat.
  { intros pwd. unfold move_category. case_bool_decide; [|done].
    apply lookup_insert_eq. }
  split; [|split].
  - do 2 f_equal. induction l0 as [|p l IH]; [done|].
    cbn [map]. rewrite filter_cons_False; [done|].
    rewrite Hcat. case_bool_decide; congruence.
  - do 2 f_equal. induction l0 as [|p l IH]; [done|].
    cbn [map]. rewrite !filter_cons, Hcat, IH.
    case_bool_decide as Hc.
    + rewrite decide_True by done. by rewrite decide_True by (by left).
    + destruct (decide (p !! "category" = Some OTHER)) as [Ho|Ho].
      * by rewrite decide_True by (by right).
      * by rewrite decide_False by (intros [?|?]; done).
  - intros c Hc Hco. do 2 f_equal.
    induction l0 as [|p l IH]; [done|].
    cbn [map]. rewrite !filter_cons, Hcat, IH.
    case_bool_decide as Hpc.
    + rewrite decide_False by congruence.
      by rewrite decide_False by congruence.
    + destruct (decide (p !! "category" = Some c)) as [Ho|Ho]; [|done].
      unfold move_category. by rewrite bool_decide_eq_false_2.
Qed.

(** ** Searching *)

Lemma contains_empty text : contains [] text = true.
Proof. by destruct text. Qed.

(** The empty query finds every record: the empty text occurs in every
    field, present or not.  (Python's [str.lower] maps the empty text to
    itself.) *)
Theorem search_with_empty_query_returns_all (lower : str -> str) (st : State) :
  lower [] = [] ->
  search_passwords lower [] st = (st, Ret (passwords (data (db st)))).
Proof.
  intros Hlower. unfold search_passwords. msimpl. rewrite Hlower.
  do 2 f_equal. induction (passwords (data (db st))) as [|p l IH]; [done|].
  cbn [List.filter]. unfold matches at 1. rewrite contains_empty. cbn [orb].
  by rewrite IH.
Qed.

End CategoryOpFacts.

(** * What a method leaves alone, component by component *)

Module LeaveFacts.

#[global] Instance inner_config : Inner config.
Proof. by intros st st' H _ _. Qed.
#[global] Instance inner_cloud_sync : Inner cloud_sync.
Proof. by intros st st' _ H _. Qed.
#[global] Instance inner_db : Inner db.
Proof. by intros st st' _ _ H. Qed.

Section Leaves.
Context {X : Type} (part : State -> X).

Lemma leaves_ret {A} (a : A) : leaves part (ret a).
Proof. by intros st. Qed.

Lemma leaves_raise {A} e : leaves part (@raise A e).
Proof. by intros st. Qed.

Lemma leaves_gets {A} (f : State -> A) : leaves part (gets f).
Proof. by intros st. Qed.

Lemma leaves_lift {A} (o : outcome A) : leaves part (PasswordDatabase.lift o).
Proof. by intros st. Qed.

Lemma leaves_need {A} (o : option A) : leaves part (need o).
Proof. by destruct o. Qed.

Lemma leaves_modify f : (forall st, part (f st) = part st) -> leaves part (modify f).
Proof. intros H st. apply H. Qed.

Lemma leaves_bind {A B} (m : M A) (k : A -> M B) :
  leaves part m -> (forall a, leaves part (k a)) -> leaves part (bind m k).
Proof.
  intros Hm Hk st. unfold bind. specialize (Hm st).
  destruct (m st) as [st1 [a|e]]; cbn [fst] in *; [|done].
  by rewrite Hk.
Qed.

Lemma leaves_try_except {A} (m : M A) (h : exn -> M A) :
  leaves part m -> (forall e, leaves part (h e)) -> leaves part (try_except m h).
Proof.
  intros Hm Hh st. unfold try_except. specialize (Hm st).
  destruct (m st) as [st1 [a|e]]; cbn [fst] in *; [done|].
  by rewrite Hh.
Qed.

Lemma leaves_try_finally {A} (m : M A) (f : M unit) :
  leaves part m -> leaves part f -> leaves part (try_finally m f).
Proof.
  intros Hm Hf st. unfold try_finally. specialize (Hm st).
  destruct (m st) as [st1 r]; cbn [fst] in *. specialize (Hf st1).
  destruct (f st1) as [st2 [[]|e]]; cbn [fst] in *; congruence.
Qed.

Lemma leaves_when b m : leaves part m -> leaves part (when b m).
Proof. destruct b; [done | intros _; apply leaves_ret]. Qed.

Lemma leaves_if {A} (b : bool) (m1 m2 : M A) :
  leaves part m1 -> leaves part m2 -> leaves part (if b then m1 else m2).
Proof. by destruct b. Qed.

(** The result of a run. *)
Lemma leaves_run {A} (m : M A) st st' r :
  leaves part m -> m st = (st', r) -> part st' = part st.
Proof. intros Hm E. specialize (Hm st). by rewrite E in Hm. Qed.

(** ** Operating system calls *)

Context `{!Inner part}.

Ltac os_call :=
  intros st; apply inner; unfold Os.fault; msimpl;
  destruct (faults st _); msimpl; try reflexivity;
  repeat case_match; reflexivity.

Lemma leaves_now : leaves part Os.now.
Proof. intros st. by apply inner. Qed.
Lemma leaves_urandom n : leaves part (Os.urandom n).
Proof. intros st. by apply inner. Qed.
Lemma leaves_path_exists p : leaves part (Os.path_exists p).
Proof. by intros st. Qed.
Lemma leaves_access_w p : leaves part (Os.access_w p).
Proof. by intros st. Qed.
Lemma leaves_read_file L p : leaves part (Os.read_file L p).
Proof. unfold Os.read_file. os_call. Qed.
Lemma leaves_open_wb L p : leaves part (Os.open_wb L p).
Proof. unfold Os.open_wb. os_call. Qed.
Lemma leaves_write_data p c : leaves part (Os.write_data p c).
Proof. unfold Os.write_data. os_call. Qed.
Lemma leaves_write_file L p c : leaves part (Os.write_file L p c).
Proof.
  unfold Os.write_file. apply leaves_bind; [apply leaves_open_wb|].
  intros _. apply leaves_write_data.
Qed.
Lemma leaves_makedirs p : leaves part (Os.makedirs p).
Proof. unfold Os.makedirs. os_call. Qed.
Lemma leaves_copy2 L a b : leaves part (Os.copy2 L a b).
Proof. unfold Os.copy2. os_call. Qed.
Lemma leaves_remove L p : leaves part (Os.remove L p).
Proof. unfold Os.remove. os_call. Qed.
Lemma leaves_rename L a b : leaves part (Os.rename L a b).
Proof. unfold Os.rename. os_call. Qed.
Lemma leaves_listdir L p : leaves part (Os.listdir L p).
Proof. unfold Os.listdir. os_call. Qed.
Lemma leaves_getmtime p : leaves part (Os.getmtime p).
Proof. unfold Os.getmtime. os_call. Qed.
Lemma leaves_getsize p : leaves part (Os.getsize p).
Proof. unfold Os.getsize. os_call. Qed.

End Leaves.

End LeaveFacts.

Create HintDb leaves.

#[export] Hint Extern 0 (Inner _) => exact _ : leaves.
#[export] Hint Resolve LeaveFacts.leaves_ret LeaveFacts.leaves_raise
  LeaveFacts.leaves_gets LeaveFacts.leaves_lift LeaveFacts.leaves_need
  LeaveFacts.leaves_when LeaveFacts.leaves_if
  LeaveFacts.leaves_now LeaveFacts.leaves_urandom LeaveFacts.leaves_path_exists
  LeaveFacts.leaves_access_w LeaveFacts.leaves_read_file LeaveFacts.leaves_open_wb
  LeaveFacts.leaves_write_data LeaveFacts.leaves_write_file
  LeaveFacts.leaves_makedirs LeaveFacts.leaves_copy2 LeaveFacts.leaves_remove
  LeaveFacts.leaves_rename LeaveFacts.leaves_listdir LeaveFacts.leaves_getmtime
  LeaveFacts.leaves_getsize : leaves.
#[export] Hint Extern 2 (leaves _ (bind _ _)) =>
  apply LeaveFacts.leaves_bind; [|intros ?] : leaves.
#[export] Hint Extern 2 (leaves _ (try_except _ _)) =>
  apply LeaveFacts.leaves_try_except; [|intros ?] : leaves.
#[export] Hint Extern 2 (leaves _ (try_finally _ _)) =>
  apply LeaveFacts.leaves_try_finally : leaves.
#[export] Hint Extern 3 (leaves _ (modify _)) =>
  apply LeaveFacts.leaves_modify; intros ?; reflexivity : leaves.
#[export] Hint Extern 3 (leaves _ (match ?x with _ => _ end)) =>
  destruct x : leaves.

(** * Round trips through the container *)

Module RoundTripFacts.
Import PasswordDatabase.

(** ** What the steps of [save] leave alone *)

Lemma leaves_encrypt {X} (part : State -> X) `{!Inner part} L text k :
  leaves part (Encryption.encrypt L text k).
Proof. unfold Encryption.encrypt. auto 10 with leaves. Qed.

Lemma leaves_generate_key {X} (part : State -> X) `{!Inner part} L pw s :
  leaves part (Encryption.generate_key L pw s).
Proof. unfold Encryption.generate_key. destruct s; auto 10 with leaves. Qed.

Lemma leaves_decrypt {X} (part : State -> X) L c k :
  leaves part (Encryption.decrypt L c k).
Proof. unfold Encryption.decrypt. auto 10 with leaves. Qed.

Lemma leaves_collect_backups {X} (part : State -> X) `{!Inner part} L d names :
  leaves part (collect_backups L d names).
Proof. induction names; cbn [collect_backups]; auto 10 with leaves. Qed.

Lemma leaves_remove_all {X} (part : State -> X) `{!Inner part} L l :
  leaves part (remove_all L l).
Proof. induction l as [|[? ?] l IH]; cbn [remove_all]; auto 10 with leaves. Qed.

Lemma leaves_cleanup {X} (part : State -> X) `{!Inner part} L d :
  leaves part (_cleanup_backups L d).
Proof.
  unfold _cleanup_backups.
  auto 10 using leaves_collect_backups, leaves_remove_all with leaves.
Qed.

Lemma leaves_create_backup {X} (part : State -> X) `{!Inner part} L :
  leaves part (_create_backup L).
Proof. unfold _create_backup. auto 20 using leaves_cleanup with leaves. Qed.

Lemma leaves_save_backup {X} (part : State -> X) `{!Inner part} L :
  leaves part (save_backup L).
Proof. unfold save_backup. auto 20 using leaves_create_backup with leaves. Qed.

Lemma leaves_save_write {X} (part : State -> X) `{!Inner part} L enc :
  leaves part (save_write L enc).
Proof. unfold save_write. auto 20 with leaves. Qed.

Lemma leaves_config_save_prepare L : leaves config (save_prepare L).
Proof. unfold save_prepare. auto 20 using leaves_encrypt with leaves. Qed.

(** ** The steps of a [save] that returned [True] *)

Lemma try_except_true_inv (m : M bool) st st' :
  try_except m (fun _ => ret false) st = (st', Ret true) -> m st = (st', Ret true).
Proof.
  unfold try_except, ret. destruct (m st) as [s [r|e]]; [done|discriminate].
Qed.

Lemma save_prepare_inv L st sA enc :
  save_prepare L st = (sA, Ret enc) ->
  exists k b iv t,
    key (db st) = Some k
    /\ fernet_key_ok L k = true
    /\ Codec.utf8_encode (json_dumps L (db_view (db sA))) = Some b
    /\ enc = fernet_encrypt L k iv t b
    /\ db sA = mutate_data (with_last_modified (Some (isoformat L (clock st)))) (db st).
Proof.
  unfold save_prepare, Encryption.encrypt, Os.now, Os.urandom. msimpl.
  cbn [key mutate_data].
  destruct (key (db st)) as [k|]; [|discriminate]. msimpl.
  destruct (fernet_key_ok L k) eqn:Hok; [|discriminate]. cbn [negb].
  match goal with |- context [Codec.utf8_encode ?t] =>
    destruct (Codec.utf8_encode t) as [b|] eqn:Hb end; [|discriminate].
  msimpl. intros [= <- <-]. msimpl. by eexists k, b, _, _.
Qed.

Lemma need_gets_inv {A} (f : State -> option A) st s a :
  (o <- gets f;; need o) st = (s, Ret a) -> s = st /\ f st = Some a.
Proof. msimpl. destruct (f st); [|discriminate]. by intros [= <- <-]. Qed.

Lemma write_data_inv p c s s' :
  Os.write_data p c s = (s', Ret tt) ->
  files s' !! p = Some {| content := c; mtime := clock s |}.
Proof.
  unfold Os.write_data, Os.fault. msimpl.
  destruct (faults s (SysWrite p)); [discriminate|].
  intros [= <-]. msimpl. apply lookup_insert_eq.
Qed.

Lemma save_write_inv L enc st sC :
  save_write L enc st = (sC, Ret tt) ->
  exists p slt t,
    db_path (db st) = Some p /\ salt (db st) = Some slt
    /\ files sC !! p = Some {| content := slt ++ enc; mtime := t |}.
Proof.
  unfold save_write. intros E.
  apply MethodFrame.bind_Ret_inv in E as (p & s0 & E0 & E).
  apply need_gets_inv in E0 as [-> Hp].
  apply MethodFrame.bind_Ret_inv in E as ([] & s1 & E1 & E).
  apply MethodFrame.bind_Ret_inv in E as ([] & s2 & E2 & E).
  apply MethodFrame.bind_Ret_inv in E as (slt & s3 & E3 & E).
  apply need_gets_inv in E3 as [-> Hs].
  apply (LeaveFacts.leaves_run db) in E1; [|auto with leaves].
  apply (LeaveFacts.leaves_run db) in E2; [|auto with leaves].
  apply write_data_inv in E.
  exists p, slt, (clock s2). split; [done|]. split; [congruence|done].
Qed.

(** With replication off [save] leaves the configuration alone. *)
Lemma save_local_config L st :
  enabled (cloud_storage (config st)) = false ->
  config (save L st).1 = config st.
Proof.
  intros Hoff. unfold save, try_except, bind, ret.
  pose proof (leaves_config_save_prepare L st) as HA.
  destruct (save_prepare L st) as [sA [enc|e]]; cbn [fst] in *; [|done].
  pose proof (leaves_save_backup config L sA) as HB.
  destruct (save_backup L sA) as [sB [[]|e]]; cbn [fst] in *; [|congruence].
  pose proof (leaves_save_write config L enc sB) as HC.
  destruct (save_write L enc sB) as [sC [[]|e]]; cbn [fst] in *; [|congruence].
  unfold save_push, CloudSyncManager.is_cloud_enabled. msimpl.
  rewrite HC, HB, HA, Hoff. cbn. congruence.
Qed.

(** With replication off, a [save] that returned [True] has left at the
    path of the object a container that opens under the secret the key
    came from, as the vault of the object. *)
Lemma save_writes_container L S st st1 p :
  fernet_law L -> pbkdf2_law L ->
  enabled (cloud_storage (config st)) = false ->
  keyed_with L S (db st) ->
  db_path (db st) = Some p ->
  save L st = (st1, Ret true) ->
  json_law L (db_view (db st1)) ->
  (exists f, files st1 !! p = Some f /\ opens_as L S (content f) (db_view (db st1)))
  /\ keyed_with L S (db st1)
  /\ db_path (db st1) = Some p
  /\ config st1 = config st
  /\ unstamped (db st1) = unstamped (db st).
Proof.
  intros Hfernet Hkdf Hoff (pw & slt & Hpw & Hsalt & Hlen & Hkey) Hpath Hsave [Hjson Hne].
  pose proof (save_local_config L st Hoff) as Hcfg.
  pose proof (CategoryFacts.keeps_db_save L st) as Hun.
  rewrite Hsave in Hcfg, Hun. cbn [fst] in Hcfg, Hun.
  apply try_except_true_inv in Hsave.
  apply MethodFrame.bind_Ret_inv in Hsave as (enc & sA & HA & Hsave).
  apply MethodFrame.bind_Ret_inv in Hsave as ([] & sB & HB & Hsave).
  apply MethodFrame.bind_Ret_inv in Hsave as ([] & sC & HC & Hsave).
  apply MethodFrame.bind_Ret_inv in Hsave as ([] & sD & HD & Hsave).
  injection Hsave as ->.
  pose proof (leaves_config_save_prepare L st) as HcA.
  rewrite HA in HcA. cbn [fst] in HcA.
  destruct (save_prepare_inv _ _ _ _ HA) as (k & b & iv & t & Hk & Hok & Hb & -> & HdA).
  pose proof (leaves_save_backup db L sA) as HdB.
  pose proof (leaves_save_backup config L sA) as HcB.
  rewrite HB in HdB, HcB. cbn [fst] in HdB, HcB.
  pose proof (leaves_save_write db L (fernet_encrypt L k iv t b) sB) as HdC.
  pose proof (leaves_save_write config L (fernet_encrypt L k iv t b) sB) as HcC.
  rewrite HC in HdC, HcC. cbn [fst] in HdC, HcC.
  destruct (save_write_inv _ _ _ _ HC) as (p' & slt' & tm & Hp' & Hs' & Hfile).
  assert (st1 = sC) as ->.
  { revert HD. unfold save_push, CloudSyncManager.is_cloud_enabled. msimpl.
    rewrite HcC, HcB, HcA, Hoff. cbn. congruence. }
  assert (db sC = db sA) as Hdb by congruence.
  rewrite HdB, HdA in Hp', Hs'. cbn in Hp', Hs'.
  assert (p' = p) as -> by congruence.
  assert (slt' = slt) as -> by congruence.
  assert (k = Codec.urlsafe_b64encode (pbkdf2_hmac_sha256 L pw slt)) as Hkk
    by congruence.
  rewrite Hdb in *. split; [|split; [|split; [|split]]].
  - eexists. split; [exact Hfile|]. cbn [content].
    split; [rewrite length_app; lia|].
    exists pw, b, (json_dumps L (db_view (db sA))).
    rewrite take_app_length' by done. rewrite drop_app_length' by done.
    destruct (Hkdf pw slt) as [Hl Ho]. destruct (Hfernet _ Hl Ho) as [_ Hdec].
    split; [done|]. cbn zeta. rewrite <- Hkk.
    split; [done|]. split; [subst k; apply Hdec|].
    split; [by apply CodecFacts.utf8_roundtrip|]. done.
  - exists pw, slt. rewrite HdA. cbn. done.
  - rewrite HdA. cbn. done.
  - done.
  - done.
Qed.

(** ** Opening a container *)

Lemma second_factor_agrees_check v S :
  second_factor_agrees (totp_secret v) S <-> totp_mismatch v S = false.
Proof.
  unfold second_factor_agrees, totp_mismatch.
  destruct (totp_secret v) as [[|c stored]|]; cbn [truthy andb]; [tauto| |tauto].
  rewrite bool_decide_eq_false. split.
  - intros [?|?]; [done|]. by intros Hn.
  - intros Hn. right. by apply dec_stable.
Qed.

(** With replication off, [open] on a readable container that opens under
    the supplied secret loads its vault, and succeeds unless the stored
    second-factor secret disagrees. *)
Lemma open_container L S p st f v :
  enabled (cloud_storage (config st)) = false ->
  files st !! p = Some f ->
  faults st (SysRead p) = None ->
  opens_as L S (content f) v ->
  exists st',
    open L p S st = (st', Ret (negb (totp_mismatch v S)))
    /\ db_view (db st') = v
    /\ last_error (db st')
       = (if totp_mismatch v S then Some INVALID_KEY else None)
    /\ keyed_with L S (db st')
    /\ db_path (db st') = Some p
    /\ files st' = files st.
Proof.
  intros Hoff Hf Hread (Hlen & pw & b & text & Hpw & Hok & Hdec & Htext & Hne & Hjson).
  unfold open, open_locate, CloudSyncManager.is_cloud_enabled, set_self_db_path.
  msimpl. rewrite Hoff. msimpl.
  unfold open_load, Os.path_exists, Os.read_file, Os.fault,
    Encryption.generate_key, Encryption.decrypt, set_error,
    CloudSyncManager.is_cloud_enabled. msimpl.
  cbn [db_path upd_db_path upd_last_error]. msimpl.
  unfold Os.is_file. msimpl. rewrite ?Hf. msimpl.
  rewrite Hread. msimpl. rewrite ?Hf.
  pose proof Hlen as Hlen'. apply Nat.ltb_ge in Hlen'. rewrite Hlen'. msimpl.
  rewrite Hpw. msimpl. rewrite Hok, Hdec, Htext. msimpl.
  destruct text as [|c text]; [done|]. rewrite Hjson.
  assert (keyed_with L S
            (upd_data_fresh v
               (upd_key_salt
                  (Some (Codec.urlsafe_b64encode
                           (pbkdf2_hmac_sha256 L pw (take 16 (content f)))))
                  (Some (take 16 (content f)))
                  (upd_db_path (Some p) (upd_last_error None (db st))))))
    as Hkeyed.
  { exists pw, (take 16 (content f)). split; [done|]. split; [done|].
    split; [|done]. rewrite length_take. lia. }
  destruct (totp_mismatch v S); msimpl.
  - eexists. split; [reflexivity|]. msimpl.
    split; [by destruct v|]. split; [done|]. split; [exact Hkeyed|]. done.
  - rewrite Hoff. msimpl.
    eexists. split; [reflexivity|]. msimpl.
    split; [by destruct v|]. split; [done|]. split; [exact Hkeyed|]. done.
Qed.

(** ** Saving and opening again *)

(** With replication off: when an object whose key came from the secret
    [S] has saved its vault ([save] returned [True]), [open] with [S] on
    the path of the object, by whatever object, succeeds and loads exactly
    the vault that was saved.  The stored second-factor secret must agree
    with [S], and the container must be readable. *)
Theorem save_then_open (L : Lib) (S : str) (st st1 : State) (p : str)
    (d0 : DbState) :
  fernet_law L -> pbkdf2_law L ->
  enabled (cloud_storage (config st)) = false ->
  keyed_with L S (db st) ->
  db_path (db st) = Some p ->
  save L st = (st1, Ret true) ->
  json_law L (db_view (db st1)) ->
  faults st1 (SysRead p) = None ->
  second_factor_agrees (totp_secret (data (db st))) S ->
  exists st2,
    open L p S (upd_db d0 st1) = (st2, Ret true)
    /\ db_view (db st2) = db_view (db st1)
    /\ last_error (db st2) = None
    /\ keyed_with L S (db st2).
Proof.
  intros Hfernet Hkdf Hoff Hkeyed Hpath Hsave Hjson Hread Hagree.
  destruct (save_writes_container L S st st1 p Hfernet Hkdf Hoff Hkeyed Hpath
              Hsave Hjson) as ((f & Hf & Hopens) & _ & _ & Hcfg & Hun).
  assert (totp_mismatch (db_view (db st1)) S = false) as Hcheck.
  { apply second_factor_agrees_check.
    replace (totp_secret (db_view (db st1))) with (totp_secret (data (db st)));
      [done|].
    change (totp_secret (db_view (db st1)))
      with (totp_secret (data (unstamped (db st1)))).
    by rewrite Hun. }
  destruct (open_container L S p (upd_db d0 st1) f (db_view (db st1)))
    as (st2 & Hopen & Hview & Herr & Hk2 & _); try done.
  { cbn. by rewrite Hcfg. }
  rewrite Hcheck in Hopen, Herr. by exists st2.
Qed.

(** ** Creating and opening *)

(** With replication off: after [create] returned [True], [open] with the
    same secret on the same path, by whatever object, succeeds and loads
    the vault that [create] made: the default categories, no record, the
    given second-factor secret and user name.  The second-factor secret
    must agree with the master secret (the login window passes the same
    value for both), the container must be readable, and the
    configuration file must not be the container itself. *)
Theorem create_then_open (L : Lib) (p S : str) (totp : option str) (user : str)
    (st st1 : State) (d0 : DbState) :
  fernet_law L -> pbkdf2_law L ->
  enabled (cloud_storage (config st)) = false ->
  config_file (config st) <> p ->
  create L p S totp user st = (st1, Ret true) ->
  json_law L (db_view (db st1)) ->
  faults st1 (SysRead p) = None ->
  second_factor_agrees totp S ->
  exists st2,
    open L p S (upd_db d0 st1) = (st2, Ret true)
    /\ db_view (db st2) = db_view (db st1)
    /\ categories (db_view (db st2)) = default_categories (db st)
    /\ passwords (db_view (db st2)) = []
    /\ totp_secret (db_view (db st2)) = totp
    /\ username (db_view (db st2)) = user
    /\ last_error (db st2) = None.
Proof.
  intros Hfernet Hkdf Hoff Hcf Hcreate Hjson Hread Hagree.
  revert Hcreate. unfold create, CloudSyncManager.is_cloud_enabled,
    set_self_db_path, Encryption.generate_key, Os.urandom, Os.now. msimpl.
  rewrite Hoff. msimpl.
  destruct (Codec.utf8_encode S) as [pw|] eqn:Hpw; [|discriminate]. msimpl.
  match goal with |- context [save L ?s] => set (sK := s) end.
  destruct (save L sK) as [sS [[|]|e]] eqn:Hsave; cbn [negb]; try discriminate.
  assert (enabled (cloud_storage (config sK)) = false) as HoffK by done.
  pose proof (save_local_config L sK HoffK) as HcS.
  rewrite Hsave in HcS. cbn [fst] in HcS.
  replace (enabled (cloud_storage (config sS))) with false
    by (by rewrite HcS).
  unfold Config.set_database_path, Config.save, Os.write_file, Os.open_wb,
    Os.write_data, Os.fault. msimpl.
  set (cfg := config_file (upd_database_path p (config sS))).
  assert (cfg <> p) as Hcfg by (subst cfg; cbn; by rewrite HcS).
  intros Hrun.
  assert (db st1 = db sS /\ files st1 !! p = files sS !! p
          /\ enabled (cloud_storage (config st1)) = false) as (Hdb & Hfile & Hoff1).
  { revert Hrun.
    destruct (faults sS (SysOpenW cfg)); msimpl.
    { intros [= <-]. cbn. by rewrite HcS. }
    destruct (Os.is_dir cfg _); msimpl.
    { intros [= <-]. cbn. by rewrite HcS. }
    destruct (faults sS (SysWrite cfg)); msimpl.
    { intros [= <-]. cbn. rewrite lookup_insert_ne by done. by rewrite HcS. }
    intros [= <-]. cbn. rewrite !lookup_insert_ne by done. by rewrite HcS. }
  rewrite Hdb in Hjson |- *.
  assert (keyed_with L S (db sK)) as Hkeyed.
  { exists pw, (map (fun i => urandom_source st i mod 256) (seq (urandom_pos st) 16)).
    split; [done|]. split; [done|]. split; [|done].
    by rewrite length_map, length_seq. }
  destruct (save_writes_container L S sK sS p Hfernet Hkdf HoffK Hkeyed eq_refl
              Hsave Hjson) as ((f & Hf & Hopens) & _ & _ & _ & Hun).
  assert (totp_secret (db_view (db sS)) = totp
          /\ username (db_view (db sS)) = user
          /\ passwords (db_view (db sS)) = []
          /\ categories (db_view (db sS)) = default_categories (db st))
    as (Htotp & Huser & Hpwds & Hcats).
  { apply CategoryFacts.unstamped_view in Hun as (Hc & Hp & _).
    change (totp_secret (db_view (db sS)))
      with (totp_secret (data (unstamped (db sS)))).
    change (username (db_view (db sS)))
      with (username (data (unstamped (db sS)))).
    change (passwords (db_view (db sS))) with (passwords (data (db sS))).
    change (categories (db_view (db sS))) with (db_categories (db sS)).
    rewrite Hc, Hp. pose proof Hsave as Hun'.
    apply (MethodFrame.respects_run same_unstamped) in Hun';
      [|apply CategoryFacts.keeps_db_save].
    unfold same_unstamped in Hun'. rewrite Hun'. done. }
  assert (totp_mismatch (db_view (db sS)) S = false) as Hcheck
    by (apply second_factor_agrees_check; by rewrite Htotp).
  destruct (open_container L S p (upd_db d0 st1) f (db_view (db sS)))
    as (st2 & Hopen & Hview & Herr & _); try done.
  { cbn. by rewrite Hfile. }
  rewrite Hcheck in Hopen, Herr. exists st2. rewrite Hview. done.
Qed.

(** ** Rotating the stored secret *)


(** ** Exporting and importing *)

(** [export_data] that returned [True] has written a container that
    opens under the export password as the vault of the object. *)
Lemma export_writes_container L S path st st1 :
  fernet_law L -> pbkdf2_law L ->
  json_law L (db_view (db st)) ->
  export_data L path S st = (st1, Ret true) ->
  exists f, files st1 !! path = Some f
            /\ opens_as L S (content f) (db_view (db st)).
Proof.
  intros Hfernet Hkdf [Hjson Hne] Hrun. apply try_except_true_inv in Hrun.
  revert Hrun. unfold Encryption.generate_key, Encryption.encrypt, Os.urandom,
    Os.now, Os.write_file, Os.open_wb, Os.write_data, Os.fault. msimpl.
  destruct (Codec.utf8_encode S) as [pw|] eqn:Hpw; [|discriminate]. msimpl.
  set (slt := map (fun i => urandom_source st i mod 256) (seq (urandom_pos st) 16)).
  set (k := Codec.urlsafe_b64encode (pbkdf2_hmac_sha256 L pw slt)).
  destruct (fernet_key_ok L k) eqn:Hok; [|discriminate]. cbn [negb].
  destruct (Codec.utf8_encode (json_dumps L (db_view (db st)))) as [b|] eqn:Hb;
    [|discriminate].
  msimpl.
  destruct (faults st (SysOpenW path)); [discriminate|].
  destruct (Os.is_dir path _); [discriminate|]. msimpl.
  destruct (faults st (SysWrite path)); [discriminate|].
  intros E. apply (f_equal fst) in E. cbn [fst] in E. subst st1.
  msimpl. rewrite lookup_insert_eq.
  eexists. split; [reflexivity|]. cbn [content].
  assert (length slt = 16%nat) as Hlen by (subst slt; by rewrite length_map, length_seq).
  split; [rewrite length_app; lia|].
  exists pw, b, (json_dumps L (db_view (db st))).
  rewrite take_app_length' by done. rewrite drop_app_length' by done.
  destruct (Hkdf pw slt) as [Hl Ho]. destruct (Hfernet _ Hl Ho) as [_ Hdec].
  split; [done|]. cbn zeta. fold k. split; [done|]. split; [apply Hdec|].
  split; [by apply CodecFacts.utf8_roundtrip|]. done.
Qed.

(** [import_data] with the export password on a file that [export_data]
    wrote merges exactly the exported vault: it behaves as [_merge_data]
    of that vault followed by [save], any exception making it return
    [False]. *)
Theorem import_of_an_export (L : Lib) (S path : str) (st st1 st2 : State) :
  fernet_law L -> pbkdf2_law L ->
  json_law L (db_view (db st)) ->
  export_data L path S st = (st1, Ret true) ->
  files st2 !! path = files st1 !! path ->
  faults st2 (SysRead path) = None ->
  import_data L path S st2
  = try_except (_merge_data L (db_view (db st));;; save L) (fun _ => ret false) st2.
Proof.
  intros Hfernet Hkdf Hjson Hrun Hsame Hread.
  destruct (export_writes_container L S path st st1 Hfernet Hkdf Hjson Hrun)
    as (f & Hf & Hlen & pw & b & text & Hpw & Hok & Hdec & Htext & Hne & Hloads).
  rewrite Hf in Hsame.
  unfold import_data.
  match goal with |- try_except ?m1 _ _ = try_except ?m2 _ _ =>
    assert (m1 st2 = m2 st2) as Hbody end.
  { unfold Os.read_file, Os.fault, Encryption.generate_key, Encryption.decrypt.
    msimpl. rewrite Hread. msimpl. rewrite Hsame, Hpw. msimpl.
    rewrite Hok, Hdec, Htext. msimpl.
    destruct text as [|c text]; [done|]. by rewrite Hloads. }
  unfold try_except. by rewrite Hbody.
Qed.

End RoundTripFacts.

(** * The outcome of [open] and the error it records *)

Module OpenFacts.
Import PasswordDatabase.

Lemma leaves_effective_path {X} (part : State -> X) `{!Inner part} L :
  leaves part (Config.get_effective_database_path L).
Proof. unfold Config.get_effective_database_path. auto 12 with leaves. Qed.

Lemma leaves_db_config_save L : leaves db (Config.save L).
Proof. unfold Config.save. auto 10 with leaves. Qed.

Lemma leaves_db_set_last_sync_time L v :
  leaves db (Config.set_cloud_config_last_sync_time L v).
Proof.
  unfold Config.set_cloud_config_last_sync_time.
  auto using leaves_db_config_save with leaves.
Qed.

Lemma leaves_db_sync_from_remote L p :
  leaves db (CloudSyncManager.sync_from_remote L p).
Proof.
  unfold CloudSyncManager.sync_from_remote, CloudSyncManager.is_cloud_enabled,
    CloudSyncManager.set_is_syncing, CloudSyncManager.get_remote_path.
  auto 40 using leaves_db_set_last_sync_time with leaves.
Qed.

(** [open_locate] clears the error, and records [FILE_NOT_FOUND] exactly
    when it gives up. *)
Lemma open_locate_error L p st s1 b :
  open_locate L p st = (s1, Ret b) ->
  last_error (db s1) = if b then None else Some FILE_NOT_FOUND.
Proof.
  unfold open_locate. intros E.
  apply MethodFrame.bind_Ret_inv in E as ([] & s0 & E0 & E).
  assert (last_error (db s0) = None) as H0.
  { revert E0. unfold modify. by intros [= <-]. }
  apply MethodFrame.bind_Ret_inv in E as (en & s & Een & E).
  revert Een. unfold CloudSyncManager.is_cloud_enabled, gets. intros [= <- <-].
  destruct (enabled (cloud_storage (config s0))).
  - apply MethodFrame.bind_Ret_inv in E as (cloud & sa & Ea & E).
    apply (LeaveFacts.leaves_run db) in Ea; [|apply leaves_effective_path; exact _].
    apply MethodFrame.bind_Ret_inv in E as (on_open & sb & Eb & E).
    revert Eb. unfold gets. intros [= <- <-].
    apply MethodFrame.bind_Ret_inv in E as ([] & sc & Ec & E).
    apply (LeaveFacts.leaves_run db) in Ec.
    2: { apply LeaveFacts.leaves_when.
         auto using leaves_db_sync_from_remote with leaves. }
    apply MethodFrame.bind_Ret_inv in E as (have_cloud & sd & Ed & E).
    revert Ed. unfold Os.path_exists, gets. intros [= <- <-].
    destruct (Os.is_file cloud sc || Os.is_dir cloud sc).
    + revert E. unfold set_self_db_path. msimpl. intros [= <- <-]. cbn.
      congruence.
    + apply MethodFrame.bind_Ret_inv in E as (have_local & se & Ee & E).
      revert Ee. unfold Os.path_exists, gets. intros [= <- <-].
      destruct (Os.is_file p sc || Os.is_dir p sc).
      * revert E. unfold set_self_db_path. msimpl. intros [= <- <-]. cbn.
        congruence.
      * revert E. unfold set_error. msimpl. by intros [= <- <-].
  - revert E. unfold set_self_db_path. msimpl. by intros [= <- <-].
Qed.

Lemma open_load_never_raises L S : never_raises (open_load L S).
Proof.
  unfold open_load, set_error.
  apply MonadFacts.never_raises_try_except. intros e.
  destruct e; auto with safe.
Qed.

(** [open_load] keeps the recorded error when it succeeds and records one
    whenever it fails. *)
Lemma open_load_error L S st s2 b :
  open_load L S st = (s2, Ret b) ->
  if b then last_error (db s2) = last_error (db st)
  else is_Some (last_error (db s2)).
Proof.
  unfold open_load, try_except.
  match goal with |- context [match ?m st with _ => _ end] =>
    destruct (m st) as [s1 [r|e]] eqn:E end.
  2: { destruct e; unfold set_error; msimpl; intros [= <- <-]; by eexists. }
  intros [= -> ->]. revert E.
  unfold Os.path_exists, Os.read_file, Os.fault, Encryption.generate_key,
    Encryption.decrypt, set_error, CloudSyncManager.start_auto_sync,
    CloudSyncManager.stop_auto_sync, CloudSyncManager.is_cloud_enabled. msimpl.
  destruct (db_path (db st)) as [path|]; [|discriminate]. msimpl.
  destruct (Os.is_file path st || Os.is_dir path st); msimpl.
  2: { intros [= <- <-]. by eexists. }
  destruct (faults st (SysRead path)); [discriminate|].
  destruct (files st !! path) as [f|]; [|by destruct (Os.is_dir path st)].
  destruct (length (content f) <? 16)%nat.
  { intros [= <- <-]. by eexists. }
  destruct (Codec.utf8_encode S) as [pw|]; [|discriminate]. msimpl.
  set (k := Codec.urlsafe_b64encode _).
  destruct (negb (fernet_key_ok L k)).
  { intros [= <- <-]. by eexists. }
  destruct (fernet_decrypt L k (drop 16 (content f))) as [b0|].
  2: { intros [= <- <-]. by eexists. }
  destruct (Codec.utf8_decode b0) as [[|c text]|].
  1, 3: intros [= <- <-]; by eexists.
  destruct (json_loads L (c :: text)) as [v|].
  2: { intros [= <- <-]. by eexists. }
  destruct (totp_mismatch v S); msimpl.
  { intros [= <- <-]. by eexists. }
  destruct (enabled (cloud_storage (config st))) eqn:Hen; msimpl.
  - rewrite Hen. msimpl.
    destruct (0 <? auto_sync_interval (cloud_storage (config st))); msimpl.
    + intros [= <- <-]. done.
    + intros [= <- <-]. done.
  - intros [= <- <-]. done.
Qed.

(** The result of [open] and the error it records agree: on [True]
    [last_error] is [None], on [False] it holds an error code.  [open]
    catches every exception once it has chosen the file; with replication
    off nothing can raise before that, so [open] always returns. *)
Theorem open_result_agrees_with_last_error (L : Lib) (p S : str) (st : State) :
  match open L p S st with
  | (st', Ret true) => last_error (db st') = None
  | (st', Ret false) => is_Some (last_error (db st'))
  | (_, Raise _) => enabled (cloud_storage (config st)) = true
  end.
Proof.
  unfold open, bind.
  destruct (open_locate L p st) as [s1 [go_on|e]] eqn:Hloc.
  - pose proof (open_locate_error _ _ _ _ _ Hloc) as H1. destruct go_on.
    + destruct (open_load_never_raises L S s1) as (s2 & b & Hload).
      rewrite Hload. pose proof (open_load_error _ _ _ _ _ Hload) as H2.
      destruct b; [congruence|done].
    + unfold ret. rewrite H1. by eexists.
  - destruct (enabled (cloud_storage (config st))) eqn:Hen; [done|].
    revert Hloc. unfold open_locate, CloudSyncManager.is_cloud_enabled,
      set_self_db_path. msimpl. by rewrite Hen.
Qed.

(** The error codes of [open], with replication off.  A path where nothing
    is gives [FILE_NOT_FOUND]; a failing read gives [FILE_NOT_FOUND],
    [PERMISSION_DENIED] or [UNKNOWN_ERROR] by the class of the exception;
    a container that the derived key does not decrypt gives [INVALID_KEY];
    a plaintext that is not JSON gives [DATA_CORRUPTED].  The vault of the
    object is untouched in each of these cases, but its path is the new
    one. *)
Theorem open_error_codes (L : Lib) (p S : str) (st : State) :
  enabled (cloud_storage (config st)) = false ->
  let fails code :=
    exists st', open L p S st = (st', Ret false)
                /\ last_error (db st') = Some code
                /\ db_view (db st') = db_view (db st)
                /\ db_path (db st') = Some p in
  (Os.is_file p st = false -> Os.is_dir p st = false -> fails FILE_NOT_FOUND)
  /\ (forall f e,
        files st !! p = Some f -> faults st (SysRead p) = Some e ->
        fails match e with
              | FileNotFoundError => FILE_NOT_FOUND
              | PermissionError => PERMISSION_DENIED
              | _ => UNKNOWN_ERROR
              end)
  /\ (forall f pw,
        files st !! p = Some f -> faults st (SysRead p) = None ->
        (16 <= length (content f))%nat ->
        Codec.utf8_encode S = Some pw ->
        fernet_decrypt L
          (Codec.urlsafe_b64encode (pbkdf2_hmac_sha256 L pw (take 16 (content f))))
          (drop 16 (content f)) = None ->
        fails INVALID_KEY)
  /\ (forall f pw b text,
        files st !! p = Some f -> faults st (SysRead p) = None ->
        (16 <= length (content f))%nat ->
        Codec.utf8_encode S = Some pw ->
        let k := Codec.urlsafe_b64encode
                   (pbkdf2_hmac_sha256 L pw (take 16 (content f))) in
        fernet_key_ok L k = true ->
        fernet_decrypt L k (drop 16 (content f)) = Some b ->
        Codec.utf8_decode b = Some text -> text <> [] ->
        json_loads L text = None ->
        fails DATA_CORRUPTED).
Proof.
  intros Hoff fails. subst fails. cbn beta.
  assert (forall m : M bool,
             open L p S st
             = (if true then open_load L S else m)
                 (upd_db (upd_db_path (Some p) (upd_last_error None (db st))) st))
    as Hopen.
  { intros m. unfold open, open_locate, CloudSyncManager.is_cloud_enabled,
      set_self_db_path. msimpl. by rewrite Hoff. }
  rewrite (Hopen (ret false)). clear Hopen.
  unfold open_load, Os.path_exists, Os.read_file, Os.fault,
    Encryption.generate_key, Encryption.decrypt, set_error. msimpl.
  cbn [db_path upd_db_path]. msimpl. unfold Os.is_file, Os.is_dir. msimpl.
  split; [|split; [|split]].
  - intros Hnf Hnd. unfold Os.is_file, Os.is_dir in *.
    destruct (files st !! p); [discriminate|].
    destruct (dirs st !! p); [discriminate|]. msimpl.
    eexists. split; [reflexivity|]. msimpl. split; [done|].
    split; [|done]. unfold db_view, db_categories. cbn. by destruct (db st).
  - intros f e Hf He. rewrite Hf. msimpl. rewrite He. msimpl.
    destruct e; msimpl; eexists; (split; [reflexivity|]); msimpl;
      (split; [done|]); (split; [|done]);
      unfold db_view, db_categories; cbn; by destruct (db st).
  - intros f pw Hf Hread Hlen Hpw Hdec. rewrite Hf. msimpl.
    rewrite Hread. msimpl. rewrite Hf.
    apply Nat.ltb_ge in Hlen. rewrite Hlen. msimpl. rewrite Hpw. msimpl.
    rewrite Hdec.
    destruct (fernet_key_ok L _); msimpl;
      eexists; (split; [reflexivity|]); msimpl;
      (split; [done|]); (split; [|done]);
      unfold db_view, db_categories; cbn; by destruct (db st).
  - intros f pw b text Hf Hread Hlen Hpw Hok Hdec Htext Hne Hjson.
    rewrite Hf. msimpl. rewrite Hread. msimpl. rewrite Hf.
    apply Nat.ltb_ge in Hlen. rewrite Hlen. msimpl. rewrite Hpw. msimpl.
    rewrite Hok, Hdec, Htext. msimpl.
    destruct text as [|c text]; [done|]. rewrite Hjson. msimpl.
    eexists. split; [reflexivity|]. msimpl. split; [done|].
    split; [|done]. unfold db_view, db_categories. cbn. by destruct (db st).
Qed.

End OpenFacts.

(** * Replication: the push, the pull and the manual run *)

Module SyncFacts.
Import CloudSyncManager.

Lemma leaves_db_check_remote L : leaves db (check_remote_accessibility L).
Proof.
  unfold check_remote_accessibility, get_remote_path. auto 10 with leaves.
Qed.

Lemma leaves_db_sync_to_remote L p : leaves db (sync_to_remote L p).
Proof.
  unfold sync_to_remote, is_cloud_enabled, set_is_syncing, get_remote_path.
  pose proof (OpenFacts.leaves_effective_path db L).
  auto 40 using leaves_db_check_remote, OpenFacts.leaves_db_set_last_sync_time
    with leaves.
Qed.

(** A [try ... finally] whose last word is [self.is_syncing = False]. *)
Lemma try_finally_resets_flag {A} (m : M A) st :
  is_syncing (cloud_sync (try_finally m (set_is_syncing false) st).1) = false.
Proof.
  unfold try_finally, set_is_syncing, modify. by destruct (m st) as [s r].
Qed.

(** Both directions report every failure through their result: neither
    raises.  With replication on, [is_syncing] is [False] when they are
    done, however they end; with replication off they return [True] and
    do nothing at all.  Neither touches the [PasswordDatabase] object. *)
Theorem sync_reports_through_its_result (L : Lib) (p : option str) (st : State) :
  let done (m : M bool) :=
    exists st' b,
      m st = (st', Ret b)
      /\ db st' = db st
      /\ if enabled (cloud_storage (config st))
         then is_syncing (cloud_sync st') = false
         else st' = st /\ b = true in
  done (sync_to_remote L p) /\ done (sync_from_remote L p).
Proof.
  cbn zeta. split.
  - destruct (CloudSyncFacts.sync_to_remote_never_raises L p st) as (st' & b & E).
    exists st', b. split; [done|].
    split; [by apply (LeaveFacts.leaves_run db) in E;
              [|apply leaves_db_sync_to_remote]|].
    revert E. unfold sync_to_remote. unfold bind at 1.
    unfold is_cloud_enabled, gets.
    destruct (enabled (cloud_storage (config st))); cbn [negb].
    + intros E. apply (f_equal fst) in E. cbn [fst] in E. subst st'.
      apply (try_finally_resets_flag (A := bool)).
    + unfold ret. by intros [= <- <-].
  - destruct (CloudSyncFacts.sync_from_remote_never_raises L p st) as (st' & b & E).
    exists st', b. split; [done|].
    split; [by apply (LeaveFacts.leaves_run db) in E;
              [|apply OpenFacts.leaves_db_sync_from_remote]|].
    revert E. unfold sync_from_remote. unfold bind at 1.
    unfold is_cloud_enabled, gets.
    destruct (enabled (cloud_storage (config st))); cbn [negb].
    + intros E. apply (f_equal fst) in E. cbn [fst] in E. subst st'.
      apply (try_finally_resets_flag (A := bool)).
    + unfold ret. by intros [= <- <-].
Qed.

(** [Config.save] touches no file but the configuration file. *)
Lemma config_save_other_files L st q :
  q <> config_file (config st) ->
  files (Config.save L st).1 !! q = files st !! q.
Proof.
  intros Hq. unfold Config.save, Os.write_file, Os.open_wb, Os.write_data,
    Os.fault. msimpl.
  destruct (faults st (SysOpenW _)); msimpl; [done|].
  destruct (Os.is_dir _ st); msimpl; [done|].
  destruct (faults st (SysWrite _)); msimpl.
  - by rewrite lookup_insert_ne.
  - by rewrite !lookup_insert_ne.
Qed.

Lemma config_save_keeps L st :
  config (Config.save L st).1 = config st
  /\ cloud_sync (Config.save L st).1 = cloud_sync st
  /\ exists b, (Config.save L st).2 = Ret b.
Proof.
  unfold Config.save, Os.write_file, Os.open_wb, Os.write_data, Os.fault. msimpl.
  destruct (faults st (SysOpenW _)); msimpl; [by eauto|].
  destruct (Os.is_dir _ st); msimpl; [by eauto|].
  destruct (faults st (SysWrite _)); msimpl; by eauto.
Qed.

(** The step that ends a successful push or pull: the time of the
    synchronisation is recorded and the configuration saved. *)
Lemma record_sync_time L st :
  exists st',
    (t <- Os.now;;
     Config.set_cloud_config_last_sync_time L (isoformat L t);;;
     ret true) st = (st', Ret true)
    /\ last_sync_time (cloud_storage (config st')) = Some (isoformat L (clock st))
    /\ cloud_sync st' = cloud_sync st
    /\ forall q, q <> config_file (config st) -> files st' !! q = files st !! q.
Proof.
  unfold Os.now, Config.set_cloud_config_last_sync_time. msimpl.
  match goal with |- context [Config.save L ?s] => set (s1 := s) end.
  destruct (config_save_keeps L s1) as (Hc & Hs & b & Hb).
  pose proof (config_save_other_files L s1) as Hf.
  destruct (Config.save L s1) as [s2 r]. cbn [fst snd] in *. subst r.
  exists s2. split; [done|]. rewrite Hc, Hs. split; [done|]. split; [done|].
  intros q Hq. by rewrite Hf.
Qed.

(** The end of a successful push or pull, inside the [try] statements of
    the method. *)
Lemma finish_sync L s :
  exists st',
    try_finally
      (try_except
         (t <- Os.now;;
          Config.set_cloud_config_last_sync_time L (isoformat L t);;;
          ret true)
         (fun _ => ret false))
      (set_is_syncing false) s = (st', Ret true)
    /\ last_sync_time (cloud_storage (config st')) = Some (isoformat L (clock s))
    /\ is_syncing (cloud_sync st') = false
    /\ forall q, q <> config_file (config s) -> files st' !! q = files s !! q.
Proof.
  destruct (record_sync_time L s) as (s' & Hrun & Hlast & _ & Hfiles).
  unfold try_finally, try_except, set_is_syncing, modify. rewrite Hrun.
  eexists. split; [reflexivity|]. cbn. by rewrite Hlast.
Qed.

(** A push with nothing in its way: the remote folder is there and
    writable, the local container exists, and the copy, the removal of the
    old replica and the rename go through.  It returns [True]; the replica
    then is the local container, modification time included; no temporary
    file is left; the time of the push is recorded. *)
Theorem push_replaces_the_replica (L : Lib) (st : State)
    (local_file_path remote_path : str) (local_file : file) :
  let remote_dir := dirname L remote_path in
  let temp_path := remote_path ++ Codec.lit ".tmp" in
  enabled (cloud_storage (config st)) = true ->
  remote_path_of L (config st) = Some remote_path ->
  Os.is_dir remote_dir st = true ->
  Os.is_file remote_dir st = false ->
  faults st (SysAccess remote_dir) = None ->
  faults st (SysMakedirs remote_dir) = None ->
  files st !! local_file_path = Some local_file ->
  truthy local_file_path = true ->
  local_file_path <> temp_path ->
  Os.is_dir temp_path st = false ->
  Os.is_dir remote_path st = false ->
  faults st (SysCopy local_file_path temp_path) = None ->
  faults st (SysRemove remote_path) = None ->
  faults st (SysRename temp_path remote_path) = None ->
  config_file (config st) <> remote_path ->
  config_file (config st) <> temp_path ->
  exists st',
    sync_to_remote L (Some local_file_path) st = (st', Ret true)
    /\ files st' !! remote_path = Some local_file
    /\ files st' !! temp_path = None
    /\ last_sync_time (cloud_storage (config st')) = Some (isoformat L (clock st))
    /\ is_syncing (cloud_sync st') = false.
Proof.
  intros remote_dir temp_path Hen Hremote Hdir Hnofile Hacc Hmk Hlocal
    Htruthy Hneq Htmpdir Hremdir Hcopy Hremove Hrename Hcfg1 Hcfg2.
  assert (temp_path <> remote_path) as Htmp
    by (apply PushFacts.temp_path_differs, PushFacts.lit_tmp_nonempty).
  unfold sync_to_remote, is_cloud_enabled, set_is_syncing, get_remote_path,
    check_remote_accessibility, get_remote_path.
  subst remote_dir temp_path.
  destruct (files st !! remote_path) as [old|] eqn:Hrem.
  - match goal with |- exists st', ?m st = _ /\ _ =>
      assert (m st
              = try_finally
                  (try_except
                     (t <- Os.now;;
                      Config.set_cloud_config_last_sync_time L (isoformat L t);;;
                      ret true)
                     (fun _ => ret false))
                  (set_is_syncing false)
                  (upd_files
                     (<[remote_path := local_file]>
                        (delete (remote_path ++ Codec.lit ".tmp")
                           (delete remote_path
                              (<[remote_path ++ Codec.lit ".tmp" := local_file]>
                                 (files st)))))
                     (upd_cloud_sync (upd_is_syncing true (cloud_sync st)) st)))
        as -> end.
    { unfold Os.path_exists, Os.access_w, Os.makedirs, Os.copy2, Os.remove,
        Os.rename, Os.fault, set_is_syncing.
      unfold Os.is_file, Os.is_dir in *. mrun. reflexivity. }
    match goal with |- context [try_finally _ _ ?s] =>
      destruct (finish_sync L s) as (st' & -> & Hlast & Hflag & Hfiles) end.
    exists st'. split; [done|]. rewrite !Hfiles by done. cbn.
    split; [apply lookup_insert_eq|].
    split; [|done]. rewrite lookup_insert_ne by done. apply lookup_delete_eq.
  - match goal with |- exists st', ?m st = _ /\ _ =>
      assert (m st
              = try_finally
                  (try_except
                     (t <- Os.now;;
                      Config.set_cloud_config_last_sync_time L (isoformat L t);;;
                      ret true)
                     (fun _ => ret false))
                  (set_is_syncing false)
                  (upd_files
                     (<[remote_path := local_file]>
                        (delete (remote_path ++ Codec.lit ".tmp")
                           (<[remote_path ++ Codec.lit ".tmp" := local_file]>
                              (files st))))
                     (upd_cloud_sync (upd_is_syncing true (cloud_sync st)) st)))
        as -> end.
    { unfold Os.path_exists, Os.access_w, Os.makedirs, Os.copy2, Os.remove,
        Os.rename, Os.fault, set_is_syncing.
      unfold Os.is_file, Os.is_dir in *. mrun. reflexivity. }
    match goal with |- context [try_finally _ _ ?s] =>
      destruct (finish_sync L s) as (st' & -> & Hlast & Hflag & Hfiles) end.
    exists st'. split; [done|]. rewrite !Hfiles by done. cbn.
    split; [apply lookup_insert_eq|].
    split; [|done]. rewrite lookup_insert_ne by done. apply lookup_delete_eq.
Qed.

(** A pull for a given local path.  When the replica does not exist the
    pull returns [True] and changes no file.  When both files exist, the
    policy [newer] keeps a local file that is at least as recent as the
    replica and the policy [local] keeps the local file whatever its age:
    the pull returns [True] and changes no file.  In every other case (the
    replica is strictly more recent under [newer]; the policy is [remote],
    [ask] or anything else) the replica is copied over the local file,
    modification time included. *)
Theorem pull_follows_the_policy (L : Lib) (st : State)
    (local_file_path remote_path : str) :
  enabled (cloud_storage (config st)) = true ->
  truthy local_file_path = true ->
  remote_path_of L (config st) = Some remote_path ->
  let policy := conflict_resolution (cloud_storage (config st)) in
  (Os.is_file remote_path st = false -> Os.is_dir remote_path st = false ->
   exists st',
     sync_from_remote L (Some local_file_path) st = (st', Ret true)
     /\ files st' = files st)
  /\ forall local_file remote_file,
      files st !! local_file_path = Some local_file ->
      files st !! remote_path = Some remote_file ->
      faults st (SysStat local_file_path) = None ->
      faults st (SysStat remote_path) = None ->
      ((policy = Codec.lit "newer" /\ mtime remote_file <= mtime local_file
        \/ policy = Codec.lit "local") ->
       exists st',
         sync_from_remote L (Some local_file_path) st = (st', Ret true)
         /\ files st' = files st)
      /\ ((policy = Codec.lit "newer" /\ mtime local_file < mtime remote_file
           \/ policy <> Codec.lit "newer" /\ policy <> Codec.lit "local") ->
          local_file_path <> remote_path ->
          Os.is_dir local_file_path st = false ->
          Os.is_file (dirname L local_file_path) st = false ->
          faults st (SysMakedirs (dirname L local_file_path)) = None ->
          faults st (SysCopy remote_path local_file_path) = None ->
          config_file (config st) <> local_file_path ->
          config_file (config st) <> remote_path ->
          exists st',
            sync_from_remote L (Some local_file_path) st = (st', Ret true)
            /\ files st' !! local_file_path = Some remote_file
            /\ files st' !! remote_path = Some remote_file).
Proof.
  intros Hen Htruthy Hremote policy. subst policy.
  assert (Codec.lit "newer" <> Codec.lit "local") as Hnl by (by vm_compute).
  split.
  - intros Hnf Hnd.
    unfold sync_from_remote, is_cloud_enabled, set_is_syncing, get_remote_path,
      Os.path_exists.
    unfold Os.is_file, Os.is_dir in *. mrun.
    destruct local_file_path; [done|]. mrun. rewrite ?Hnf, ?Hnd. mrun.
    by eexists.
  - intros local_file remote_file Hlocal Hrem Hsl Hsr. split.
    + intros Hkeep.
      unfold sync_from_remote, is_cloud_enabled, set_is_syncing, get_remote_path,
        Os.path_exists, Os.getmtime, Os.fault.
      unfold Os.is_file, Os.is_dir in *. mrun.
      destruct local_file_path as [|c0 l0]; [done|]. mrun.
      destruct Hkeep as [[Hp Hle]|Hp]; rewrite Hp.
      * rewrite bool_decide_eq_true_2 by done. mrun.
        apply Z.leb_le in Hle. rewrite Hle. mrun. by eexists.
      * rewrite bool_decide_eq_false_2 by (intros E; by apply Hnl).
        rewrite bool_decide_eq_true_2 by done. mrun. by eexists.
    + intros Hcopy Hneq Hldir Hdirfile Hmk Hcp Hcfg1 Hcfg2.
      assert (dirname L local_file_path <> local_file_path) as Hdl.
      { intros E. rewrite E in Hdirfile. unfold Os.is_file in Hdirfile.
        by rewrite Hlocal in Hdirfile. }
      match goal with |- exists st', ?m st = _ /\ _ =>
        assert (exists s,
                   m st
                   = try_finally
                       (try_except
                          (t <- Os.now;;
                           Config.set_cloud_config_last_sync_time L (isoformat L t);;;
                           ret true)
                          (fun _ => ret false))
                       (set_is_syncing false) s
                   /\ config s = config st
                   /\ files s = <[local_file_path := remote_file]> (files st))
          as (s & -> & Hcs & Hfs) end.
      { unfold sync_from_remote, is_cloud_enabled, set_is_syncing, get_remote_path,
          Os.path_exists, Os.getmtime, Os.getsize, Os.makedirs, Os.copy2, Os.fault.
        unfold Os.is_file, Os.is_dir in *. mrun.
        destruct local_file_path as [|c0 l0]; [done|]. mrun.
        assert ((if bool_decide (conflict_resolution (cloud_storage (config st))
                                 = Codec.lit "newer")
                 then mtime remote_file <=? mtime local_file
                 else if bool_decide (conflict_resolution (cloud_storage (config st))
                                      = Codec.lit "local")
                      then true else false) = false) as Hskip.
        { destruct Hcopy as [[Hp Hlt]|[Hp1 Hp2]].
          - rewrite Hp, bool_decide_eq_true_2 by done. by apply Z.leb_gt.
          - by rewrite !bool_decide_eq_false_2 by done. }
        match goal with |- context [if bool_decide ?P then ?a else ?b] =>
          change (if bool_decide P then a else b)
            with ((fun x : bool => if x then a else b) (bool_decide P)) end.
        cbn beta.
        destruct (bool_decide (conflict_resolution (cloud_storage (config st))
                               = Codec.lit "newer")) eqn:Hn;
          [|destruct (bool_decide (conflict_resolution (cloud_storage (config st))
                                   = Codec.lit "local")) eqn:Hl;
            [discriminate|]]; mrun; rewrite ?Hskip; mrun.
        all: destruct (dirs st !! dirname L (c0 :: l0)) eqn:Hd; mrun.
        all: eexists; split; [reflexivity|]; done. }
      destruct (finish_sync L s) as (st' & -> & _ & _ & Hfiles).
      exists st'. split; [done|].
      rewrite !Hfiles by (rewrite Hcs; done). rewrite Hfs.
      split; [apply lookup_insert_eq|].
      rewrite lookup_insert_ne by done. done.
Qed.

(** With replication off the two manual runs disagree.  The one of the
    replication engine refuses: [False], "cloud storage is not enabled".
    The one of an open database reports a successful push, although
    nothing was pushed: [sync_to_remote] returns [True] when replication
    is off.  Neither changes the state. *)
Theorem manual_sync_with_replication_off (L : Lib) (st : State) :
  enabled (cloud_storage (config st)) = false ->
  manual_sync L st = (st, Ret (false, Text (Codec.lit "云存储未启用")))
  /\ (forall p, db_path (db st) = Some p -> truthy p = true ->
        PasswordDatabase.manual_sync L st
        = (st, Ret (true, Text (Codec.lit "同步到远程成功"))))
  /\ (db_path (db st) = None ->
      PasswordDatabase.manual_sync L st
      = (st, Ret (false, Text (Codec.lit "云存储未启用")))).
Proof.
  intros Hoff.
  assert (manual_sync L st = (st, Ret (false, Text (Codec.lit "云存储未启用"))))
    as Hengine.
  { unfold manual_sync, is_cloud_enabled. msimpl. by rewrite Hoff. }
  split; [done|]. split.
  - intros p Hp Htruthy. unfold PasswordDatabase.manual_sync. msimpl.
    rewrite Hp, Htruthy. unfold sync_to_remote, is_cloud_enabled. msimpl.
    by rewrite Hoff.
  - intros Hnone. unfold PasswordDatabase.manual_sync. msimpl.
    by rewrite Hnone.
Qed.

End SyncFacts.

(** * The configuration as a dictionary *)

Module ConfigDictFacts.
Import ConfigDict.

Lemma merge_value_other v lv :
  (forall d ld, v = VDict d -> lv = VDict ld -> False) -> merge_value v lv = lv.
Proof. destruct v, lv; try reflexivity. intros H. by destruct (H d d0). Qed.

Lemma merge_value_dict d ld :
  merge_value (VDict d) (VDict ld) = VDict (merge_dict d ld).
Proof. reflexivity. Qed.

Lemma dom_merge_dict (d ld : dict) : dom (merge_dict d ld) = dom d.
Proof.
  unfold merge_dict. apply dom_imap_L. intros key. rewrite elem_of_dom.
  split; [intros [x Hx]; exists x; split; [done|by eexists]|].
  intros (x & Hx & _). by exists x.
Qed.

Lemma init_well_formed : well_formed init.
Proof.
  intros key. cbn [config default_config init]. rewrite lookup_fmap.
  destruct (_ !! key); [by eexists|done].
Qed.

(** [_merge_config] of a dictionary changes values, never keys.  A key
    that the loaded dictionary does not have keeps its value, and a key
    that the configuration does not have is not taken over.  For a key of
    both: two dictionaries are merged, and the merged dictionary has the
    keys that the configuration had under it; anything else is replaced by
    the loaded value, whatever the types of the two.  Merging into a
    dictionary that is shared with the defaults changes the defaults. *)
Theorem merge_changes_values_not_keys (loaded : dict) (o : ConfigObject) :
  well_formed o ->
  let o' := merge_config loaded o in
  well_formed o'
  /\ dom (config o') = dom (config o)
  /\ dom (default_config o') = dom (default_config o)
  /\ forall key,
      match deref o key, loaded !! key with
      | None, _ => deref o' key = None
      | Some v, None => deref o' key = Some v
      | Some (VDict d), Some (VDict ld) =>
          deref o' key = Some (VDict (merge_dict d ld))
          /\ dom (merge_dict d ld) = dom d
          /\ (config o !! key = Some Shared ->
              default_config o' !! key = Some (VDict (merge_dict d ld)))
      | Some _, Some lv => deref o' key = Some lv
      end.
Proof.
  intros Hwf o'. subst o'.
  assert (forall key,
             default_config (merge_config loaded o) !! key
             = (fun v => match config o !! key, loaded !! key with
                         | Some Shared, Some (VDict ld) =>
                             match v with
                             | VDict d => VDict (merge_dict d ld)
                             | _ => v
                             end
                         | _, _ => v
                         end) <$> default_config o !! key) as Hdef.
  { intros key. cbn [default_config merge_config]. rewrite map_lookup_imap.
    by destruct (default_config o !! key). }
  assert (forall key,
             config (merge_config loaded o) !! key
             = (fun s => match loaded !! key with
                         | None => s
                         | Some lv =>
                             match s with
                             | Own v => Own (merge_value v lv)
                             | Shared =>
                                 match default_config o !! key, lv with
                                 | Some (VDict _), VDict _ => Shared
                                 | _, _ => Own lv
                                 end
                             end
                         end) <$> config o !! key) as Hcfg.
  { intros key. cbn [config merge_config]. rewrite map_lookup_imap.
    by destruct (config o !! key). }
  split; [|split; [|split]].
  - intros key. rewrite Hcfg, Hdef.
    destruct (config o !! key) as [s|] eqn:Hs; [|done]. cbn.
    destruct (loaded !! key) as [lv|], s as [v|]; try done.
    + destruct (default_config o !! key) as [[]|], lv; try done; by eexists.
    + intros _. destruct (Hwf key Hs) as [v ->]. by eexists.
  - apply set_eq. intros key. rewrite !elem_of_dom, Hcfg.
    by rewrite fmap_is_Some.
  - apply set_eq. intros key. rewrite !elem_of_dom, Hdef.
    by rewrite fmap_is_Some.
  - intros key. unfold deref. rewrite Hcfg, Hdef.
    destruct (config o !! key) as [[v|]|] eqn:Hs; cbn; [| |done].
    + destruct (loaded !! key) as [lv|]; [|by destruct v].
      destruct v; try done. destruct lv; try done.
      split; [done|]. split; [apply dom_merge_dict|done].
    + destruct (Hwf key Hs) as [v Hv]. rewrite Hv. cbn.
      destruct (loaded !! key) as [lv|]; [|by destruct v].
      destruct v, lv; cbn; rewrite ?Hv; try done.
      split; [done|]. split; [apply dom_merge_dict|done].
Qed.

(** [save] always returns. *)
Lemma save_returns L json_dump o st :
  exists st' b, save L json_dump o st = (st', Ret b).
Proof.
  unfold save, try_except.
  match goal with |- context [match ?m st with _ => _ end] =>
    destruct (m st) as [s [r|e]] end; by eexists _, _.
Qed.

(** [reset] restores the keys of the top level and nothing below them.
    On an object whose ["cloud_storage"] dictionary is the one of the
    defaults (every object, until something else is stored under that
    key), [set_cloud_config] writes into the defaults, so that [reset]
    after it does not bring the old setting back; a key of the top level
    that [set] changed does read as before after [reset]. *)
Theorem reset_keeps_cloud_settings (L : Lib) (json_dump : dict -> bytes)
    (o : ConfigObject) (d : dict) :
  config o !! Codec.lit "cloud_storage" = Some Shared ->
  default_config o !! Codec.lit "cloud_storage" = Some (VDict d) ->
  (forall key v st, key <> [] ->
     exists st1 b1 o1 st2 b2 o2,
       set_cloud_config L json_dump key v o st = (st1, Ret (o1, b1))
       /\ reset L json_dump o1 st1 = (st2, Ret (o2, b2))
       /\ get_cloud_config (Some key) o2 = Some v)
  /\ (forall key v dflt st, is_Some (default_config o !! key) ->
        exists st1 b1 o1 st2 b2 o2,
          set L json_dump key v o st = (st1, Ret (o1, b1))
          /\ get key dflt o1 = v
          /\ reset L json_dump o1 st1 = (st2, Ret (o2, b2))
          /\ Some (get key dflt o2) = default_config o !! key).
Proof.
  intros Hshared Hdict. split.
  - intros key v st Hkey.
    pose (o1 := {| default_config :=
                     <[Codec.lit "cloud_storage" := VDict (<[key := v]> d)]>
                       (default_config o);
                   config := config o |}).
    pose (o2 := {| default_config := default_config o1;
                   config := copy_of_defaults o1 |}).
    destruct (save_returns L json_dump o1 st) as (st1 & b1 & Hs1).
    destruct (save_returns L json_dump o2 st1) as (st2 & b2 & Hs2).
    exists st1, b1, o1, st2, b2, o2. split; [|split].
    + unfold set_cloud_config, deref. rewrite Hshared, Hdict.
      unfold bind, ret. fold o1. by rewrite Hs1.
    + unfold reset, bind, ret. fold o2. by rewrite Hs2.
    + unfold get_cloud_config, deref. subst o2 o1.
      unfold copy_of_defaults. cbn [config default_config].
      rewrite lookup_fmap, !lookup_insert_eq. cbn.
      destruct key as [|c k]; [done|]. by rewrite lookup_insert_eq.
  - intros key v dflt st [x Hx].
    pose (o1 := {| default_config := default_config o;
                   config := <[key := Own v]> (config o) |}).
    pose (o2 := {| default_config := default_config o1;
                   config := copy_of_defaults o1 |}).
    destruct (save_returns L json_dump o1 st) as (st1 & b1 & Hs1).
    destruct (save_returns L json_dump o2 st1) as (st2 & b2 & Hs2).
    exists st1, b1, o1, st2, b2, o2. split; [|split; [|split]].
    + unfold set, bind, ret. fold o1. by rewrite Hs1.
    + unfold get, deref. subst o1. cbn [config]. by rewrite lookup_insert_eq.
    + unfold reset, bind, ret. fold o2. by rewrite Hs2.
    + unfold get, deref. subst o2 o1.
      unfold copy_of_defaults. cbn [config default_config].
      by rewrite lookup_fmap, Hx.
Qed.

(** [load] never raises and changes nothing but the configuration; it
    changes the configuration only when the file exists, can be read and
    holds a JSON object, and then returns [True].  A missing or unreadable
    file, a text that is not JSON and a JSON text that is not an object
    all leave the configuration as it is. *)
Theorem load_changes_the_configuration_for_objects_only (L : Lib)
    (json_load : bytes -> option value) (o : ConfigObject) (st : State) :
  exists o' b,
    load L json_load o st = (st, Ret (o', b))
    /\ (o' = o
        \/ exists f ld,
            files st !! config_file_of st = Some f
            /\ faults st (SysRead (config_file_of st)) = None
            /\ json_load (content f) = Some (VDict ld)
            /\ o' = merge_config ld o /\ b = true).
Proof.
  unfold load, Os.path_exists, Os.read_file, Os.fault. msimpl.
  destruct (Os.is_file (config_file_of st) st || Os.is_dir (config_file_of st) st);
    msimpl; [|by eauto].
  destruct (faults st (SysRead (config_file_of st))) eqn:Hread; msimpl;
    [by eauto|].
  destruct (files st !! config_file_of st) as [f|] eqn:Hf; msimpl.
  2: { destruct (Os.is_dir (config_file_of st) st); by eauto. }
  destruct (json_load (content f)) as [loaded|] eqn:Hload; msimpl; [|by eauto].
  unfold _merge_config.
  destruct loaded; try (destruct ((map_to_list (config o)).*1); msimpl; by eauto).
  - destruct (existsb _ _); msimpl; by eauto.
  - destruct (existsb _ _); msimpl; by eauto.
  - msimpl. eexists _, _. split; [reflexivity|]. right. by exists f, d.
Qed.

End ConfigDictFacts.

(** * Path resolution, configuration by configuration *)

Module ResolutionFacts.
Import Config.

(** Path resolution reads the configuration and the file system; the one
    thing it can change is the directory tree, by creating the cache
    folder, and it does not even look at the cache folder when
    replication is off. *)
Theorem effective_path_touches_only_the_cache_folder (L : Lib) (st : State) :
  let st' := (get_effective_database_path L st).1 in
  files st' = files st
  /\ config st' = config st
  /\ cloud_sync st' = cloud_sync st
  /\ db st' = db st
  /\ clock st' = clock st
  /\ (dirs st' = dirs st
      \/ dirs st'
         = <[local_cache_path (cloud_storage (config st)) := clock st]> (dirs st))
  /\ (enabled (cloud_storage (config st)) = false -> st' = st).
Proof.
  cbn zeta. unfold get_effective_database_path, Os.path_exists, Os.makedirs,
    Os.fault. msimpl.
  destruct (enabled (cloud_storage (config st))); msimpl; [|by auto 10].
  repeat (match goal with
          | |- context [bool_decide ?P] => destruct (bool_decide P)
          | |- context [truthy ?x] => destruct (truthy x)
          | |- context [faults st ?c] => destruct (faults st c)
          | |- context [Os.is_file ?p st] => destruct (Os.is_file p st)
          | |- context [Os.is_dir ?p st] => destruct (Os.is_dir p st)
          end; msimpl);
    do 5 (split; [done|]); (split; [first [by left | by right]|done]).
Qed.

(** The result of path resolution when nothing has to fall back.  With
    replication off it is the configured [database_path], or the default
    file in the configuration folder when none is configured.  With
    replication on and a network drive, or one of the three cloud kinds,
    whose folder is configured and exists, it is that folder joined with
    the base file name.  The state is unchanged in all three cases. *)
Theorem effective_path_by_configuration (L : Lib) (st : State) :
  let cs := cloud_storage (config st) in
  let name := db_filename L (config st) in
  (enabled cs = false ->
   get_effective_database_path L st
   = (st, Ret (if truthy (database_path (config st))
               then database_path (config st)
               else path_join L (config_dir (config st)) name)))
  /\ (enabled cs = true ->
      storage_type cs = Codec.lit "network_drive" ->
      truthy (network_drive_path cs) = true ->
      Os.is_file (network_drive_path cs) st || Os.is_dir (network_drive_path cs) st
      = true ->
      get_effective_database_path L st
      = (st, Ret (path_join L (network_drive_path cs) name)))
  /\ (enabled cs = true ->
      storage_type cs ∈ [Codec.lit "baidu_netdisk"; Codec.lit "onedrive";
                         Codec.lit "dropbox"] ->
      truthy (remote_path cs) = true ->
      Os.is_file (remote_path cs) st || Os.is_dir (remote_path cs) st = true ->
      get_effective_database_path L st
      = (st, Ret (path_join L (remote_path cs) name))).
Proof.
  cbn zeta. split; [|split].
  - intros Hoff. unfold get_effective_database_path. msimpl. by rewrite Hoff.
  - intros Hon Hkind Hset Hex.
    unfold get_effective_database_path, Os.path_exists. msimpl.
    rewrite Hon, Hkind, bool_decide_eq_true_2 by done. msimpl.
    by rewrite Hset, Hex.
  - intros Hon Hkind Hset Hex.
    unfold get_effective_database_path, Os.path_exists. msimpl.
    rewrite Hon. rewrite bool_decide_eq_false_2.
    2: { intros E. rewrite E in Hkind.
         by apply PathFacts.network_drive_is_no_cloud_kind. }
    rewrite bool_decide_eq_true_2 by done. msimpl.
    by rewrite Hset, Hex.
Qed.

End ResolutionFacts.

(** * The theorems at the concrete instance *)

Module Examples.
Import Codec Sample.

(** Evaluate a closed equation or bound. *)
Ltac ev := vm_compute; first [reflexivity | discriminate].
Ltac dec := apply (bool_decide_unpack _); vm_compute; exact I.

(** The round trip of the serialized sample vault under the key of
    [secret] and a 16-octet salt. *)
Lemma encrypt_decrypt_roundtrip_example :
  exists k st1 tok st2,
    Encryption.generate_key lib secret (Some salt16) st_fresh = (st1, Ret (k, salt16))
    /\ Encryption.encrypt lib (json_dumps lib (sample_vault (Some secret))) k st1
       = (st2, Ret tok)
    /\ forall st3,
        Encryption.decrypt lib tok k st3
        = (st3, Ret (Some (json_dumps lib (sample_vault (Some secret))))).
Proof.
  apply (EncryptionFacts.encrypt_decrypt_roundtrip lib secret
           (json_dumps lib (sample_vault (Some secret))) salt16 st_fresh).
  - apply SampleFacts.lib_pbkdf2_law.
  - apply SampleFacts.lib_fernet_law.
  - dec.
  - dec.
Defined.

(** [save] with replication on and every copy failing: no backup is made,
    the push fails, and [save] returns [True]. *)
Lemma save_with_failing_backup_and_push :
  exists st', PasswordDatabase.save lib st_save = (st', Ret true).
Proof.
  pose (st1 := (PasswordDatabase.save_prepare lib st_save).1).
  pose (enc := match (PasswordDatabase.save_prepare lib st_save).2 with
               | Ret e => e
               | Raise _ => []
               end).
  pose (st3 := (PasswordDatabase.save_write lib enc
                  (PasswordDatabase.save_backup lib st1).1).1).
  apply (PasswordDatabaseFacts.save_independent_of_backup_and_push
           lib st_save st1 st3 enc); ev.
Defined.

(** An identifier that the open sample vault does not hold. *)
Lemma unknown_id_example :
  PasswordDatabase.update_password lib (lit "42") {[ "title" := lit "x" ]} st_open
  = (st_open, Ret false)
  /\ PasswordDatabase.delete_password lib (lit "42") st_open = (st_open, Ret false).
Proof.
  apply (PasswordDatabaseFacts.unknown_id_is_rejected_without_effect
           lib st_open (lit "42") {[ "title" := lit "x" ]}).
  vm_compute passwords. constructor; [|constructor].
  exists (lit "1700000000000"). split; ev.
Defined.


(** [open] on a file of five octets. *)
Lemma short_container_example :
  exists st',
    PasswordDatabase.open lib (lit "/db/v.db") secret st_short = (st', Ret false)
    /\ last_error (db st') = Some DATA_CORRUPTED.
Proof.
  destruct (PasswordDatabaseFacts.minimum_container_size lib (lit "/db/v.db")
              secret st_short SampleFacts.lib_rejects_empty) as [Hshort _].
  apply (Hshort (PasswordDatabase.open_locate lib (lit "/db/v.db") st_short).1
           (lit "/db/v.db") {| content := [1; 2; 3; 4; 5]; mtime := 50 |});
    try ev.
  apply Nat.ltb_lt. ev.
Defined.

(** The push of [/db/v.db] to [/nas/v.db] when renaming fails: the older
    replica is gone and the new container sits in [/nas/v.db.tmp]. *)
Lemma push_failing_at_rename_example :
  exists st',
    CloudSyncManager.sync_to_remote lib (Some (lit "/db/v.db")) st_push
    = (st', Ret false)
    /\ files st' !! lit "/nas/v.db" = None
    /\ files st' !! (lit "/nas/v.db" ++ lit ".tmp")
       = Some {| content := container secret (Some secret); mtime := 50 |}.
Proof.
  apply (PushFacts.push_failing_at_rename_destroys_remote lib st_push
           (lit "/db/v.db") (lit "/nas/v.db")
           {| content := container secret (Some secret); mtime := 50 |}
           {| content := container secret None; mtime := 50 |}
           PermissionError); ev.
Defined.

(** Path resolution with the network drive missing: with the cache folder
    [/cache] configured, and with none. *)
Lemma effective_path_examples :
  (exists st',
      Config.get_effective_database_path lib st_cache
      = (st', Ret (lit "/cache/v.db"))
      /\ Os.is_dir (lit "/cache") st' = true
      /\ files st' = files st_cache)
  /\ Config.get_effective_database_path lib st_no_cache
     = (st_no_cache, Ret (lit "/db/v.db")).
Proof.
  split.
  - destruct (PathFacts.effective_path_without_remote_folder lib st_cache
                (SampleFacts.nas_folder_missing (lit "/cache")))
      as [Hcache _].
    apply Hcache; ev.
  - destruct (PathFacts.effective_path_without_remote_folder lib st_no_cache
                (SampleFacts.nas_folder_missing []))
      as [_ Hnone].
    apply Hnone. ev.
Defined.

(** C9 as the specification states it fails when no cache folder is
    configured: the network drive is missing, and the result is the
    configured [database_path], not a path in a cache folder. *)
Lemma cache_fallback_counterexample : ~ falls_back_to_cache lib st_no_cache.
Proof.
  intros Hclaim.
  destruct (Hclaim (SampleFacts.nas_folder_missing [])) as (st' & Hrun & Hdir).
  vm_compute in Hrun. discriminate Hrun.
Qed.

(** Deleting the category of the record of the sample vault. *)
Lemma delete_category_example :
  exists st' r,
    PasswordDatabase.delete_category lib (lit "Bank") st_open = (st', Ret r)
    /\ (lit "Bank" ∉ db_categories (db st'))
    /\ (forall c, c <> lit "Bank" ->
                  (c ∈ db_categories (db st') <-> c ∈ db_categories (db st_open)))
    /\ length (passwords (data (db st'))) = length (passwords (data (db st_open)))
    /\ forall i pwd,
        passwords (data (db st_open)) !! i = Some pwd ->
        (pwd !! "category" = Some (lit "Bank") ->
         passwords (data (db st')) !! i
         = Some (<["category" := PasswordDatabase.OTHER]> pwd))
        /\ (pwd !! "category" <> Some (lit "Bank") ->
            passwords (data (db st')) !! i = Some pwd).
Proof.
  apply (CategoryFacts.delete_category_reassigns lib st_open (lit "Bank")); dec.
Defined.

(** Deleting the fallback category of a vault that [create] just made. *)
Lemma delete_fallback_after_create :
  exists st' r,
    PasswordDatabase.delete_category lib PasswordDatabase.OTHER st_created
    = (st', Ret r)
    /\ (PasswordDatabase.OTHER ∉ db_categories (db st'))
    /\ (categories_shared (db st_created) = true ->
        PasswordDatabase.OTHER ∉ default_categories (db st'))
    /\ forall pwd,
        pwd ∈ passwords (data (db st_created)) ->
        pwd !! "category" = Some PasswordDatabase.OTHER ->
        pwd ∈ passwords (data (db st')).
Proof.
  apply (CategoryFacts.delete_category_removes_fallback lib st_created); dec.
Defined.



(** A run of operations on the created vault that spare the fallback
    category. *)
Lemma fallback_survives_example :
  PasswordDatabase.OTHER
  ∈ db_categories
      (db (run_ops lib
             [AddCategory (lit "Mail"); RenameCategory (lit "网站") (lit "Web");
              DeleteCategory (lit "Web"); ImportData (lit "/tmp/x.db") secret;
              DeletePassword (lit "42")]
             st_created)).
Proof.
  apply (FallbackFacts.fallback_survives_other_operations lib (lit "/db/v.db")
           secret (Some secret) (lit "u") st_fresh st_created).
  - dec.
  - vm_compute. reflexivity.
  - repeat constructor; vm_compute; discriminate.
Defined.

(** C3 as the specification states it fails: after [create] on a fresh
    object, [delete_category] of the fallback category removes it. *)
Lemma fallback_counterexample :
  ~ fallback_always_exists lib (lit "/db/v.db") secret (Some secret) (lit "u")
      st_fresh [DeleteCategory PasswordDatabase.OTHER].
Proof.
  intros Hclaim.
  assert (PasswordDatabase.OTHER
          ∉ db_categories
              (db (run_ops lib [DeleteCategory PasswordDatabase.OTHER] st_created)))
    as Hgone by dec.
  apply Hgone, Hclaim. vm_compute. reflexivity.
Qed.

End Examples.

(** * Further theorems at the concrete instance *)

Module MoreExamples.
Import Codec Sample Examples.

Lemma wire_pbkdf2_law : pbkdf2_law wire_lib.
Proof. exact SampleFacts.lib_pbkdf2_law. Qed.

Lemma wire_fernet_law : fernet_law wire_lib.
Proof. exact SampleFacts.lib_fernet_law. Qed.

(** ** Records *)



(** Deleting the record of the open sample vault. *)
Lemma delete_then_get_example :
  exists st' r,
    PasswordDatabase.delete_password lib (lit "1700000000000") st_open = (st', Ret r)
    /\ PasswordDatabase.get_password (lit "1700000000000") st' = (st', Ret None)
    /\ (forall j, j <> lit "1700000000000" ->
          PasswordDatabase.get_password j st'
          = (st', Ret (lookup_id j (passwords (data (db st_open))))))
    /\ keyed_by_id (passwords (data (db st')))
    /\ S (length (passwords (data (db st')))) = length (passwords (data (db st_open)))
    /\ db_categories (db st') = db_categories (db st_open).
Proof.
  apply (RecordFacts.delete_then_get lib (lit "1700000000000") st_open
           {[ "id" := lit "1700000000000"; "title" := lit "Example";
              "category" := lit "Bank";
              "created_at" := lit "100"; "updated_at" := lit "100" ]}).
  - split; dec.
  - ev.
Defined.

(** ** Categories *)

(** Renaming a category to a name that is taken, here to itself. *)
Lemma rename_category_rejected_example :
  PasswordDatabase.rename_category lib (lit "Bank") (lit "Bank") st_open
  = (st_open, Ret false).
Proof.
  apply (CategoryOpFacts.rename_category_rejected lib (lit "Bank") (lit "Bank")
           st_open).
  right. dec.
Defined.

(** Renaming the category of the record of the sample vault. *)
Lemma rename_category_example :
  exists st' r,
    PasswordDatabase.rename_category lib (lit "Bank") (lit "Money") st_open
    = (st', Ret r)
    /\ length (db_categories (db st')) = length (db_categories (db st_open))
    /\ (forall i c, db_categories (db st_open) !! i = Some c ->
          db_categories (db st') !! i
          = Some (if bool_decide (c = lit "Bank") then lit "Money" else c))
    /\ length (passwords (data (db st'))) = length (passwords (data (db st_open)))
    /\ forall i pwd,
        passwords (data (db st_open)) !! i = Some pwd ->
        passwords (data (db st')) !! i
        = Some (if bool_decide (pwd !! "category" = Some (lit "Bank"))
                then <["category" := lit "Money"]> pwd else pwd).
Proof.
  apply (CategoryOpFacts.rename_category_renames lib (lit "Bank") (lit "Money")
           st_open); dec.
Defined.

(** Renaming it and renaming it back. *)
Lemma rename_category_round_trip_example :
  exists st1 r1 st2 r2,
    PasswordDatabase.rename_category lib (lit "Bank") (lit "Money") st_open
    = (st1, Ret r1)
    /\ PasswordDatabase.rename_category lib (lit "Money") (lit "Bank") st1
       = (st2, Ret r2)
    /\ db_categories (db st2) = db_categories (db st_open)
    /\ passwords (data (db st2)) = passwords (data (db st_open)).
Proof.
  apply (CategoryOpFacts.rename_category_round_trip lib (lit "Bank") (lit "Money")
           st_open); dec.
Defined.

(** Deleting the category of the record of the sample vault, and looking
    the records up by category. *)
Lemma delete_category_moves_records_example :
  exists st' r,
    PasswordDatabase.delete_category lib (lit "Bank") st_open = (st', Ret r)
    /\ PasswordDatabase.get_passwords_by_category (lit "Bank") st' = (st', Ret [])
    /\ PasswordDatabase.get_passwords_by_category PasswordDatabase.OTHER st'
       = (st', Ret (map (PasswordDatabase.move_category (lit "Bank")
                           PasswordDatabase.OTHER)
                      (filter (fun pwd : entry =>
                                 pwd !! "category" = Some (lit "Bank")
                                 \/ pwd !! "category" = Some PasswordDatabase.OTHER)
                         (passwords (data (db st_open))))))
    /\ forall c, c <> lit "Bank" -> c <> PasswordDatabase.OTHER ->
         PasswordDatabase.get_passwords_by_category c st'
         = (st', Ret (filter (fun pwd : entry => pwd !! "category" = Some c)
                        (passwords (data (db st_open))))).
Proof.
  apply (CategoryOpFacts.delete_category_moves_records lib (lit "Bank") st_open);
    dec.
Defined.

(** A run of operations on the created vault; the names stay distinct. *)
Lemma distinct_categories_example :
  NoDup (db_categories
           (db (run_ops lib
                  [AddCategory (lit "Mail"); AddCategory (lit "Mail");
                   RenameCategory (lit "网站") (lit "Mail");
                   ImportData (lit "/tmp/x.db") secret;
                   DeleteCategory PasswordDatabase.OTHER]
                  st_created))).
Proof.
  apply (DistinctFacts.run_ops_keeps_distinct lib
           [AddCategory (lit "Mail"); AddCategory (lit "Mail");
            RenameCategory (lit "网站") (lit "Mail");
            ImportData (lit "/tmp/x.db") secret;
            DeleteCategory PasswordDatabase.OTHER]
           st_created).
  dec.
Defined.

(** The empty query on the open sample vault, with the identity for
    [str.lower]. *)
Lemma search_with_empty_query_example :
  PasswordDatabase.search_passwords (fun s => s) [] st_open
  = (st_open, Ret (passwords (data (db st_open)))).
Proof.
  apply (CategoryOpFacts.search_with_empty_query_returns_all (fun s => s) st_open).
  reflexivity.
Defined.

(** ** Round trips *)

Lemma created_vault_round_trips :
  json_law wire_lib (db_view (db st_created_wire)).
Proof. split; [vm_compute; reflexivity | vm_compute; discriminate]. Qed.

(** [create] and [open] on a fresh object. *)
Lemma create_then_open_example :
  exists st2,
    PasswordDatabase.open wire_lib (lit "/db/v.db") secret
      (upd_db PasswordDatabase.init st_created_wire) = (st2, Ret true)
    /\ db_view (db st2) = db_view (db st_created_wire)
    /\ categories (db_view (db st2)) = default_categories (db st_fresh)
    /\ passwords (db_view (db st2)) = []
    /\ totp_secret (db_view (db st2)) = Some secret
    /\ username (db_view (db st2)) = lit "u"
    /\ last_error (db st2) = None.
Proof.
  apply (RoundTripFacts.create_then_open wire_lib (lit "/db/v.db") secret
           (Some secret) (lit "u") st_fresh st_created_wire PasswordDatabase.init).
  - exact wire_fernet_law.
  - exact wire_pbkdf2_law.
  - reflexivity.
  - dec.
  - vm_compute. reflexivity.
  - exact created_vault_round_trips.
  - reflexivity.
  - right. reflexivity.
Defined.

Lemma created_object_is_keyed : keyed_with wire_lib secret (db st_created_wire).
Proof.
  exists (default [] (utf8_encode secret)),
    (default [] (salt (db st_created_wire))).
  split; [vm_compute; reflexivity|]. split; [vm_compute; reflexivity|].
  split; vm_compute; reflexivity.
Qed.

Lemma saved_vault_round_trips :
  json_law wire_lib
    (db_view (db (PasswordDatabase.save wire_lib st_created_wire).1)).
Proof. split; [vm_compute; reflexivity | vm_compute; discriminate]. Qed.

(** [save] on the created vault, and [open] on a fresh object. *)
Lemma save_then_open_example :
  exists st2,
    PasswordDatabase.open wire_lib (lit "/db/v.db") secret
      (upd_db PasswordDatabase.init
         (PasswordDatabase.save wire_lib st_created_wire).1) = (st2, Ret true)
    /\ db_view (db st2)
       = db_view (db (PasswordDatabase.save wire_lib st_created_wire).1)
    /\ last_error (db st2) = None
    /\ keyed_with wire_lib secret (db st2).
Proof.
  apply (RoundTripFacts.save_then_open wire_lib secret st_created_wire
           (PasswordDatabase.save wire_lib st_created_wire).1 (lit "/db/v.db")
           PasswordDatabase.init).
  - exact wire_fernet_law.
  - exact wire_pbkdf2_law.
  - reflexivity.
  - exact created_object_is_keyed.
  - vm_compute. reflexivity.
  - vm_compute. reflexivity.
  - exact saved_vault_round_trips.
  - reflexivity.
  - right. reflexivity.
Defined.



Lemma open_vault_round_trips : json_law lib (db_view (db st_open)).
Proof. split; [vm_compute; reflexivity | vm_compute; discriminate]. Qed.

(** Exporting the open sample vault and importing the file into the
    created vault. *)
Lemma import_of_an_export_example :
  let st1 := (PasswordDatabase.export_data lib (lit "/tmp/x.db") other_secret
                st_open).1 in
  let st2 := upd_db (db st_created) st1 in
  PasswordDatabase.import_data lib (lit "/tmp/x.db") other_secret st2
  = try_except
      (PasswordDatabase._merge_data lib (db_view (db st_open));;;
       PasswordDatabase.save lib)
      (fun _ => ret false) st2.
Proof.
  apply (RoundTripFacts.import_of_an_export lib other_secret (lit "/tmp/x.db")
           st_open
           (PasswordDatabase.export_data lib (lit "/tmp/x.db") other_secret
              st_open).1).
  - exact SampleFacts.lib_fernet_law.
  - exact SampleFacts.lib_pbkdf2_law.
  - exact open_vault_round_trips.
  - vm_compute. reflexivity.
  - reflexivity.
  - reflexivity.
Defined.

(** ** Opening *)

(** The four error codes of [open]: no container; a container that
    cannot be read; the container of another secret; a container whose
    plaintext is no serialized vault. *)
Lemma open_error_codes_example :
  let fails st S code :=
    exists st',
      PasswordDatabase.open lib (lit "/db/v.db") S st = (st', Ret false)
      /\ last_error (db st') = Some code
      /\ db_view (db st') = db_view (db st)
      /\ db_path (db st') = Some (lit "/db/v.db") in
  fails st_fresh secret FILE_NOT_FOUND
  /\ fails st_unreadable secret PERMISSION_DENIED
  /\ fails st_open other_secret INVALID_KEY
  /\ fails st_garbled secret DATA_CORRUPTED.
Proof.
  cbv zeta. split; [|split; [|split]].
  - destruct (OpenFacts.open_error_codes lib (lit "/db/v.db") secret st_fresh
                eq_refl) as [Hmissing _].
    apply Hmissing; reflexivity.
  - destruct (OpenFacts.open_error_codes lib (lit "/db/v.db") secret
                st_unreadable eq_refl) as (_ & Hread & _).
    apply (Hread {| content := container secret (Some secret); mtime := 50 |}
             PermissionError); ev.
  - destruct (OpenFacts.open_error_codes lib (lit "/db/v.db") other_secret
                st_open eq_refl) as (_ & _ & Hkey & _).
    apply (Hkey {| content := container secret (Some secret); mtime := 50 |}
             other_secret); first [ev | cbn; lia].
  - destruct (OpenFacts.open_error_codes lib (lit "/db/v.db") secret
                st_garbled eq_refl) as (_ & _ & _ & Hjson).
    apply (Hjson {| content := salt16 ++ fernet_encrypt lib (key_of secret) [] 0
                                         (lit "{");
                    mtime := 50 |}
             secret (lit "{") (lit "{")); first [ev | cbn; lia | done].
Defined.

(** ** Replication *)

(** The push of [/db/v.db] over the older replica [/nas/v.db]. *)
Lemma push_replaces_the_replica_example :
  exists st',
    CloudSyncManager.sync_to_remote lib (Some (lit "/db/v.db")) st_replica
    = (st', Ret true)
    /\ files st' !! lit "/nas/v.db"
       = Some {| content := container secret (Some secret); mtime := 50 |}
    /\ files st' !! (lit "/nas/v.db" ++ lit ".tmp") = None
    /\ last_sync_time (cloud_storage (config st'))
       = Some (isoformat lib (clock st_replica))
    /\ is_syncing (cloud_sync st') = false.
Proof.
  apply (SyncFacts.push_replaces_the_replica lib st_replica (lit "/db/v.db")
           (lit "/nas/v.db")
           {| content := container secret (Some secret); mtime := 50 |});
    first [ev | dec].
Defined.

(** The push when every copy fails. *)
Lemma push_failing_at_copy_example :
  exists st',
    CloudSyncManager.sync_to_remote lib (Some (lit "/db/v.db")) st_save
    = (st', Ret false)
    /\ files st' = files st_save.
Proof.
  apply (PushFacts.push_failing_at_copy_keeps_remote lib st_save (lit "/db/v.db")
           (lit "/nas/v.db")
           {| content := container secret (Some secret); mtime := 50 |}
           PermissionError); ev.
Defined.

(** The push when the old replica cannot be removed. *)
Lemma push_failing_at_remove_example :
  exists st',
    CloudSyncManager.sync_to_remote lib (Some (lit "/db/v.db")) st_push_locked
    = (st', Ret false)
    /\ files st' !! lit "/nas/v.db"
       = Some {| content := container secret None; mtime := 50 |}.
Proof.
  apply (PushFacts.push_failing_at_remove_keeps_remote lib st_push_locked
           (lit "/db/v.db") (lit "/nas/v.db")
           {| content := container secret (Some secret); mtime := 50 |}
           {| content := container secret None; mtime := 50 |}
           PermissionError); first [ev | dec].
Defined.

(** The pull under the policy [newer]: without a replica; with a replica
    that is as old as the local container; with a more recent replica. *)
Lemma pull_follows_the_policy_example :
  (exists st',
     CloudSyncManager.sync_from_remote lib (Some (lit "/db/v.db")) st_save
     = (st', Ret true)
     /\ files st' = files st_save)
  /\ (exists st',
        CloudSyncManager.sync_from_remote lib (Some (lit "/db/v.db")) st_replica
        = (st', Ret true)
        /\ files st' = files st_replica)
  /\ (exists st',
        CloudSyncManager.sync_from_remote lib (Some (lit "/db/v.db"))
          st_replica_ahead = (st', Ret true)
        /\ files st' !! lit "/db/v.db"
           = Some {| content := container secret None; mtime := 60 |}
        /\ files st' !! lit "/nas/v.db"
           = Some {| content := container secret None; mtime := 60 |}).
Proof.
  split; [|split].
  - destruct (SyncFacts.pull_follows_the_policy lib st_save (lit "/db/v.db")
                (lit "/nas/v.db") eq_refl eq_refl) as [Hnone _]; [ev|].
    apply Hnone; reflexivity.
  - destruct (SyncFacts.pull_follows_the_policy lib st_replica (lit "/db/v.db")
                (lit "/nas/v.db") eq_refl eq_refl) as [_ Hboth]; [ev|].
    destruct (Hboth {| content := container secret (Some secret); mtime := 50 |}
                {| content := container secret None; mtime := 50 |})
      as [Hkeep _]; try ev.
    apply Hkeep. left. split; [reflexivity|]. cbn. lia.
  - destruct (SyncFacts.pull_follows_the_policy lib st_replica_ahead
                (lit "/db/v.db") (lit "/nas/v.db") eq_refl eq_refl)
      as [_ Hboth]; [ev|].
    destruct (Hboth {| content := container secret (Some secret); mtime := 50 |}
                {| content := container secret None; mtime := 60 |})
      as [_ Hcopy]; try ev.
    apply Hcopy; first [ev | dec | (left; split; [reflexivity | cbn; lia])].
Defined.

(** The manual runs with replication off. *)
Lemma manual_sync_example :
  CloudSyncManager.manual_sync lib st_open
  = (st_open, Ret (false, CloudSyncManager.Text (lit "云存储未启用")))
  /\ (forall p, db_path (db st_open) = Some p -> truthy p = true ->
        PasswordDatabase.manual_sync lib st_open
        = (st_open, Ret (true, CloudSyncManager.Text (lit "同步到远程成功"))))
  /\ (db_path (db st_open) = None ->
      PasswordDatabase.manual_sync lib st_open
      = (st_open, Ret (false, CloudSyncManager.Text (lit "云存储未启用")))).
Proof.
  apply (SyncFacts.manual_sync_with_replication_off lib st_open). reflexivity.
Defined.

(** Path resolution with replication off, and with the network drive
    mounted. *)
Lemma effective_path_by_configuration_example :
  Config.get_effective_database_path lib st_open
  = (st_open, Ret (lit "/db/v.db"))
  /\ Config.get_effective_database_path lib st_replica
     = (st_replica, Ret (lit "/nas/v.db")).
Proof.
  split.
  - destruct (ResolutionFacts.effective_path_by_configuration lib st_open)
      as [Hoff _].
    apply Hoff. reflexivity.
  - destruct (ResolutionFacts.effective_path_by_configuration lib st_replica)
      as (_ & Hnas & _).
    apply Hnas; reflexivity.
Defined.

(** ** The configuration as a dictionary *)

(** Loading [loaded_config] into a fresh configuration. *)
Lemma merge_example :
  let o' := ConfigDict.merge_config loaded_config ConfigDict.init in
  well_formed o'
  /\ dom (ConfigDict.config o') = dom (ConfigDict.config ConfigDict.init)
  /\ dom (ConfigDict.default_config o')
     = dom (ConfigDict.default_config ConfigDict.init)
  /\ forall key,
      match ConfigDict.deref ConfigDict.init key, loaded_config !! key with
      | None, _ => ConfigDict.deref o' key = None
      | Some v, None => ConfigDict.deref o' key = Some v
      | Some (ConfigDict.VDict d), Some (ConfigDict.VDict ld) =>
          ConfigDict.deref o' key
          = Some (ConfigDict.VDict (ConfigDict.merge_dict d ld))
          /\ dom (ConfigDict.merge_dict d ld) = dom d
          /\ (ConfigDict.config ConfigDict.init !! key = Some ConfigDict.Shared ->
              ConfigDict.default_config o' !! key
              = Some (ConfigDict.VDict (ConfigDict.merge_dict d ld)))
      | Some _, Some lv => ConfigDict.deref o' key = Some lv
      end.
Proof.
  apply (ConfigDictFacts.merge_changes_values_not_keys loaded_config
           ConfigDict.init).
  exact ConfigDictFacts.init_well_formed.
Defined.

(** [set_cloud_config], [set] and [reset] on a fresh configuration. *)
Lemma reset_example :
  (forall key v st, key <> [] ->
     exists st1 b1 o1 st2 b2 o2,
       ConfigDict.set_cloud_config lib (fun _ => []) key v ConfigDict.init st
       = (st1, Ret (o1, b1))
       /\ ConfigDict.reset lib (fun _ => []) o1 st1 = (st2, Ret (o2, b2))
       /\ ConfigDict.get_cloud_config (Some key) o2 = Some v)
  /\ (forall key v dflt st,
        is_Some (ConfigDict.default_config ConfigDict.init !! key) ->
        exists st1 b1 o1 st2 b2 o2,
          ConfigDict.set lib (fun _ => []) key v ConfigDict.init st
          = (st1, Ret (o1, b1))
          /\ ConfigDict.get key dflt o1 = v
          /\ ConfigDict.reset lib (fun _ => []) o1 st1 = (st2, Ret (o2, b2))
          /\ Some (ConfigDict.get key dflt o2)
             = ConfigDict.default_config ConfigDict.init !! key).
Proof.
  apply (ConfigDictFacts.reset_keeps_cloud_settings lib (fun _ => [])
           ConfigDict.init
           {[ lit "enabled" := ConfigDict.VBool false;
              lit "type" := ConfigDict.VStr (lit "local");
              lit "sync_on_save" := ConfigDict.VBool true;
              lit "sync_on_open" := ConfigDict.VBool true;
              lit "auto_sync_interval" := ConfigDict.VInt 300;
              lit "conflict_resolution" := ConfigDict.VStr (lit "newer");
              lit "local_cache_path" := ConfigDict.VStr [];
              lit "remote_path" := ConfigDict.VStr [];
              lit "network_drive_path" := ConfigDict.VStr [];
              lit "last_sync_time" := ConfigDict.VNone;
              lit "sync_enabled" := ConfigDict.VBool true ]}).
  - vm_compute. reflexivity.
  - vm_compute. reflexivity.
Defined.

End MoreExamples.
